(** * strlearn.streams.StreamGenerator: a shallow embedding and its properties

    The development follows [strlearn/streams/StreamGenerator.py].  Python
    integers are [Z]; NumPy floats are modelled by exact rationals [Q]
    (every finite float is a rational; rounding is not modelled); NumPy
    arrays are a shape together with a flat row-major buffer, as in NumPy
    itself; one-dimensional arrays that the generator only compares, indexes
    and slices are plain lists.  Exceptions are values of [Exception], and
    the global NumPy random generator is explicit state. *)

From Stdlib Require Import ZArith QArith Qabs Qround Lia Lqa List Bool.
From stdpp Require Import base tactics option list.

Local Open Scope Z_scope.

(** ** Exceptions and results *)

Inductive Exception : Type :=
| NegativeDimensions      (* ValueError: negative dimensions are not allowed *)
| LinspaceNegative        (* ValueError: Number of samples must be non-negative *)
| ShapeMismatch           (* ValueError: operands could not be broadcast together *)
| Inhomogeneous           (* ValueError: inhomogeneous shape in np.array *)
| ChoiceCount             (* ValueError: 0-length sequence / too many array objects *)
| InvalidEntry            (* ValueError: invalid entry in choice array *)
| ZeroDimensional         (* TypeError: iteration over a 0-d array *)
| MissingCurrentChunk     (* AttributeError: no attribute 'current_chunk' *)
| OracleError.            (* whatever make_classification raises *)

Inductive Result (A : Type) : Type :=
| Ok (a : A)
| Raise (e : Exception).
Arguments Ok {A} a.
Arguments Raise {A} e.

Definition is_Ok {A} (r : Result A) : bool :=
  match r with Ok _ => true | Raise _ => false end.

Definition rbind {A B} (r : Result A) (k : A -> Result B) : Result B :=
  match r with Ok a => k a | Raise e => Raise e end.

Fixpoint rmapM {A B} (f : A -> Result B) (l : list A) : Result (list B) :=
  match l with
  | [] => Ok []
  | x :: l' => rbind (f x) (fun y => rbind (rmapM f l') (fun ys => Ok (y :: ys)))
  end.

(** ** Python and NumPy primitives used by the generator *)

(** [range(a, b)]. *)
Definition py_range (a b : Z) : list Z :=
  map (fun k => a + Z.of_nat k) (seq 0 (Z.to_nat (b - a))).

(** Python slicing [l[start:stop]] with the usual clipping of the bounds. *)
Definition slice_bound (len : nat) (i : Z) : nat :=
  if i <? 0 then Z.to_nat (Z.max 0 (i + Z.of_nat len))
  else Nat.min (Z.to_nat i) len.

Definition py_slice {A} (l : list A) (start stop : Z) : list A :=
  let a := slice_bound (length l) start in
  let b := slice_bound (length l) stop in
  take (b - a) (drop a l).

(** Strict comparison of two floats. *)
Definition Qltb (x y : Q) : bool :=
  (Qnum x * Zpos (Qden y) <? Qnum y * Zpos (Qden x)).

(** [float.astype(int)] and [int(float)]: truncation towards zero. *)
Definition Qtrunc (x : Q) : Z := Z.quot (Qnum x) (Zpos (Qden x)).

(** [int(a / b)] for integers [a], [b]: true division, then truncation. *)
Definition int_div (a b : Z) : Z := Z.quot a b.

Definition bool_to_int (b : bool) : Z := if b then 1 else 0.

(** [np.linspace(start, stop, num)]: [num] evenly spaced values, the last
    one set to [stop] itself. *)
Definition linspace (start stop : Q) (num : Z) : Result (list Q) :=
  if num <? 0 then Raise LinspaceNegative
  else match Z.to_nat num with
       | O => Ok []
       | S O => Ok [start]
       | S (S m as div) =>
           let step := ((stop - start) / inject_Z (Z.of_nat div))%Q in
           Ok (map (fun k => (inject_Z (Z.of_nat k) * step + start)%Q) (seq 0 div)
                 ++ [stop])
       end.

(** [np.ones(n)]. *)
Definition np_ones (n : Z) : Result (list Q) :=
  if n <? 0 then Raise NegativeDimensions
  else Ok (replicate (Z.to_nat n) 1%Q).

(** Elementwise [a < b] of two one-dimensional arrays with NumPy
    broadcasting: equal lengths, or one operand of length one. *)
Definition np_less (a b : list Q) : Result (list bool) :=
  if (length a =? length b)%nat then Ok (zip_with Qltb a b)
  else match a, b with
       | [x], _ => Ok (map (fun y => Qltb x y) b)
       | _, [y] => Ok (map (fun x => Qltb x y) a)
       | _, _ => Raise ShapeMismatch
       end.

(** *** N-dimensional arrays *)

Record ndarray : Type := mk_ndarray { shape : list nat; data : list Q }.

Definition size (s : list nat) : nat := foldr Nat.mul 1%nat s.

(** All multi-indices of a shape, in row-major order. *)
Fixpoint indices (s : list nat) : list (list nat) :=
  match s with
  | [] => [[]]
  | d :: s' => flat_map (fun i => map (cons i) (indices s')) (seq 0 d)
  end.

(** Flat offset of a multi-index. *)
Definition ravel (s idx : list nat) : nat :=
  fold_left (fun acc di => (acc * fst di + snd di)%nat) (combine s idx) 0%nat.

Definition item (a : ndarray) (idx : list nat) : Q :=
  nth (ravel (shape a) idx) (data a) 0%Q.

(** [a.T]: the axes reversed. *)
Definition transpose (a : ndarray) : ndarray :=
  let s := rev (shape a) in
  mk_ndarray s (map (fun idx => item a (rev idx)) (indices s)).

(** [np.squeeze(a)]: every axis of length one removed. *)
Definition np_squeeze (a : ndarray) : ndarray :=
  mk_ndarray (filter (fun d => d ≠ 1%nat) (shape a)) (data a).

Definition shape_eqb (s t : list nat) : bool := bool_decide (s = t).

(** [np.array([a0, a1, ...])] of arrays: a new leading axis; the arrays must
    agree in shape, and the empty list gives an array of shape (0,). *)
Definition np_array (l : list ndarray) : Result ndarray :=
  match l with
  | [] => Ok (mk_ndarray [0%nat] [])
  | a :: _ =>
      if forallb (fun b => shape_eqb (shape b) (shape a)) l
      then Ok (mk_ndarray (length l :: shape a) (concat (map data l)))
      else Raise Inhomogeneous
  end.

(** Broadcasting of two shapes, aligned at their last axes. *)
Fixpoint broadcast_rev (s t : list nat) : option (list nat) :=
  match s, t with
  | [], _ => Some t
  | _, [] => Some s
  | d :: s', e :: t' =>
      r ← broadcast_rev s' t';
      if (d =? e)%nat then Some (d :: r)
      else if (d =? 1)%nat then Some (e :: r)
      else if (e =? 1)%nat then Some (d :: r)
      else None
  end.

Definition broadcast (s t : list nat) : option (list nat) :=
  @rev nat <$> broadcast_rev (rev s) (rev t).

(** The index into an operand of shape [s] that a result index [idx]
    stands for: the trailing axes, with 0 along broadcast axes. *)
Definition operand_index (s idx : list nat) : list nat :=
  zip_with (fun d i => if (d =? 1)%nat then 0%nat else i) s
           (drop (length idx - length s) idx).

(** NumPy 1.x refuses more than [NPY_MAXARGS] = 32 operands; [np.choose]
    counts the index array as one of them. *)
Definition NPY_MAXARGS : nat := 32.

(** [np.choose(a, choices)] with a one-dimensional integer array [a] and
    the sub-arrays of [choices] along its first axis as the choices
    (mode 'raise'). *)
Definition np_choose (a : list Z) (choices : ndarray) : Result ndarray :=
  match shape choices with
  | [] => Raise ZeroDimensional
  | n :: cs =>
      if (n =? 0)%nat || (NPY_MAXARGS <? n + 1)%nat then Raise ChoiceCount
      else match broadcast [length a] cs with
           | None => Raise ShapeMismatch
           | Some os =>
               rbind
                 (rmapM (fun idx =>
                    let k := nth (ravel [length a] (operand_index [length a] idx)) a 0 in
                    if (0 <=? k) && (k <? Z.of_nat n)
                    then Ok (nth (Z.to_nat k * size cs
                                  + ravel cs (operand_index cs idx))%nat
                               (data choices) 0%Q)
                    else Raise InvalidEntry)
                    (indices os))
                 (fun d => Ok (mk_ndarray os d))
           end
  end.

(** [a[start:stop]] along the first axis (of an array with at least one
    axis, as every array is that the generator slices). *)
Definition nd_slice (a : ndarray) (start stop : Z) : ndarray :=
  match shape a with
  | [] => a
  | n :: s =>
      let lo := slice_bound n start in
      let hi := slice_bound n stop in
      mk_ndarray ((hi - lo)%nat :: s)
                 (take ((hi - lo) * size s) (drop (lo * size s) (data a)))
  end.

(** [np.where(mask)[0]]: the positions at which a mask holds. *)
Fixpoint where_from (k : nat) (mask : list bool) : list nat :=
  match mask with
  | [] => []
  | b :: mask' => (if b then [k] else []) ++ where_from (S k) mask'
  end.

Definition np_where (mask : list bool) : list nat := where_from 0 mask.

(** [a[idx] = v] for an array of positions [idx]. *)
Definition assign_at (a : list Z) (idx : list Z) (v : Z) : list Z :=
  foldl (fun acc j => <[Z.to_nat j := v]> acc) a idx.

(** [a[mask] = v] for a boolean mask of the length of [a]. *)
Definition assign_mask (a : list Z) (mask : list bool) (v : Z) : list Z :=
  zip_with (fun (m : bool) x => if m then v else x) mask a.

(** Python truth value of an integer. *)
Definition truthy (n : Z) : bool := negb (n =? 0).

(** ** The global NumPy random generator

    [np.random.rand] draws from the process-wide generator.  Its state is
    modelled by the sequence of uniform numbers it is going to deliver. *)

Definition RandomState : Type := nat -> Q.

(** Every draw of [np.random.rand] lies in the half-open interval [0, 1). *)
Definition uniform (g : RandomState) : Prop :=
  forall k, (0 <= g k)%Q /\ (g k < 1)%Q.

(** Computations that read and advance the global generator and may raise. *)
Definition M (A : Type) : Type := RandomState -> Result A * RandomState.

Definition ret {A} (a : A) : M A := fun g => (Ok a, g).
Definition raise {A} (e : Exception) : M A := fun g => (Raise e, g).
Definition lift {A} (r : Result A) : M A := fun g => (r, g).
Definition bind {A B} (m : M A) (k : A -> M B) : M B :=
  fun g => match m g with
           | (Ok a, g') => k a g'
           | (Raise e, g') => (Raise e, g')
           end.

Declare Scope gen_scope.
Delimit Scope gen_scope with gen.
Notation "'do' x <- m ; k" := (bind m (fun x => k))
  (at level 10, x name, m at level 100, k at level 200) : gen_scope.
Notation "'do' ' pat <- m ; k" :=
  (bind m (fun x => match x with pat => k end))
  (at level 10, pat pattern, m at level 100, k at level 200) : gen_scope.

(** [np.random.rand(n)]. *)
Definition np_random_rand (n : Z) : M (list Q) :=
  fun g =>
    if n <? 0 then (Raise NegativeDimensions, g)
    else let k := Z.to_nat n in
         (Ok (map g (seq 0 k)), fun i => g (k + i)%nat).

(** ** The generator *)

(** The [weights] parameter: [None], a sequence of thresholds, or the tuple
    (number of balance drifts, sigmoid spacing, amplitude). *)
Inductive Weights : Type :=
| WeightsNone
| WeightsStatic (thresholds : list Q)
| WeightsDynamic (n_balance_drifts : Z) (class_sigmoid_spacing : option Q)
                 (balance_amplitude : Q).

(** A chunk is the pair [(X[start:end], y[start:end])]. *)
Definition Chunk : Type := ndarray * list Z.

(** The attributes that the first [get_chunk] call creates.  [current_chunk]
    is [None] while the attribute does not exist; [previous_chunk] always
    exists and holds Python's [None] or a chunk. *)
Record Attributes : Type := mk_Attributes {
  concepts : ndarray;
  concept_selector : option (list Z);
  class_selector : list Z;
  X : ndarray;
  y : list Z;
  chunk_id : Z;
  previous_chunk : option Chunk;
  current_chunk : option Chunk
}.

(** The object: the constructor's parameters and, once the stream has been
    materialised, its attributes ([hasattr(self, "X")] and
    [hasattr(self, "chunk_id")] are [attrs <> None]). *)
Record StreamGenerator : Type := mk_StreamGenerator {
  n_chunks : Z;
  chunk_size : Z;
  random_state : Z;
  n_drifts : Z;
  concept_sigmoid_spacing : option Q;
  n_classes : Z;
  reocurring : bool;
  weights : Weights;
  attrs : option Attributes
}.

(** [__init__]. *)
Definition init (n_chunks chunk_size random_state n_drifts : Z)
    (concept_sigmoid_spacing : option Q) (n_classes : Z) (reocurring : bool)
    (weights : Weights) : StreamGenerator :=
  mk_StreamGenerator n_chunks chunk_size random_state n_drifts
    concept_sigmoid_spacing n_classes reocurring weights None.

Definition n_samples (self : StreamGenerator) : Z :=
  n_chunks self * chunk_size self.

Definition set_attrs (self : StreamGenerator) (a : Attributes) : StreamGenerator :=
  mk_StreamGenerator (n_chunks self) (chunk_size self) (random_state self)
    (n_drifts self) (concept_sigmoid_spacing self) (n_classes self)
    (reocurring self) (weights self) (Some a).

(** [is_dry]. *)
Definition is_dry (self : StreamGenerator) : bool :=
  match attrs self with
  | Some a => n_chunks self <=? chunk_id a + 1
  | None => false
  end.

(** The rows of [np.diag(np.diag(np.ones((c, c))))]: the [c] unit vectors. *)
Definition diag_rows (c : Z) : Result (list (list Q)) :=
  if c <? 0 then Raise NegativeDimensions
  else let n := Z.to_nat c in
       Ok (map (fun r => map (fun k => if (k =? r)%nat then 1%Q else 0%Q) (seq 0 n))
               (seq 0 n)).

(** One pass of the loop over the periods in the non-reoccurring case: the
    ones of the period become [i + ((i + 1) % 2)], then the zeros become
    [i + (i % 2)]. *)
Definition remap_where (sel : list Z) (start stop v w : Z) : list Z :=
  assign_at sel
    (map (fun j => Z.of_nat j + start)
         (np_where (map (fun x => x =? v) (py_slice sel start stop))))
    w.

Definition remap_period (period : Z) (sel : list Z) (i : Z) : list Z :=
  let start := i * period in
  let stop := (i + 1) * period in
  let sel1 := remap_where sel start stop 1 (i + ((i + 1) mod 2)) in
  remap_where sel1 start stop 0 (i + (i mod 2)).

Definition remap_concepts (n_drifts period : Z) (sel : list Z) : list Z :=
  foldl (remap_period period) sel (py_range 1 n_drifts).

(** The loop of the static balance: class [i] is given to every sample
    whose noise exceeds the accumulator, which then grows by the
    threshold. *)
Definition static_step (noise : list Q) (st : list Z * Q) (it : nat * Q)
    : list Z * Q :=
  (assign_mask (fst st) (map (fun x => Qltb (snd st) x) noise) (Z.of_nat (fst it)),
   (snd st + snd it)%Q).

Definition static_selector (noise ws : list Q) : list Z :=
  fst (foldl (static_step noise) (replicate (length noise) 0, 0%Q) (imap pair ws)).

Section Generator.

(** The external collaborators: [scipy.stats.logistic.cdf] on one float,
    and the feature matrix that [make_classification] returns first,
    as a function of [n_samples], [n_classes], [random_state] and
    [weights], for the pass-through options of the generator at hand. *)
Variable logistic_cdf : Q -> Q.
Variable make_classification : Z -> Z -> Z -> list Q -> Result ndarray.

(** [_sigmoid]. *)
Definition sigmoid_ramp (css : Q) (period i : Z) : Result (list Q) :=
  linspace (if truthy (i mod 2) then (- css)%Q else css)
           (if truthy (i mod 2) then css else (- css)%Q)
           period.

Definition _sigmoid (self : StreamGenerator) (sigmoid_spacing : option Q)
    (n_drifts : Z) : Result (Z * list Q) :=
  let period :=
    if 0 <? n_drifts then int_div (n_samples self) n_drifts
    else n_samples self in
  let css := match sigmoid_spacing with Some s => s | None => 9999%Q end in
  rbind
    (if 0 <? n_drifts
     then rbind (rmapM (sigmoid_ramp css period) (py_range 0 n_drifts))
                (fun ramps => Ok (map logistic_cdf (concat ramps)))
     else np_ones (n_samples self))
    (fun probabilities => Ok (period, probabilities)).

(** The concepts: one feature matrix per concept and class, transposed. *)
Definition n_concepts (self : StreamGenerator) : Z :=
  if negb (reocurring self) then n_drifts self + 1 else 2.

Definition build_concept (self : StreamGenerator) (i : Z)
    : Result (list ndarray) :=
  rbind (diag_rows (n_classes self)) (fun rows =>
    rmapM (fun weights =>
             rbind (make_classification (n_chunks self * chunk_size self)
                      (n_classes self) (random_state self + i) weights)
                   (fun m => Ok (transpose m)))
          rows).

Definition build_concepts (self : StreamGenerator) : Result ndarray :=
  rbind (rmapM (build_concept self) (py_range 0 (n_concepts self)))
    (fun nested => rbind (rmapM np_array nested) np_array).

(** The concept selector, when there are drifts. *)
Definition select_concepts (self : StreamGenerator) : M (list Z) :=
  (do '(period, concept_probabilities) <-
       lift (_sigmoid self (concept_sigmoid_spacing self) (n_drifts self));
   do concept_noise <- np_random_rand (n_samples self);
   do mask <- lift (np_less concept_probabilities concept_noise);
   let concept_selector := map bool_to_int mask in
   ret (if negb (reocurring self)
        then remap_concepts (n_drifts self) period concept_selector
        else concept_selector))%gen.

(** The class selector, from the balance noise. *)
Definition select_classes (self : StreamGenerator) (balance_noise : list Q)
    : Result (list Z) :=
  match weights self with
  | WeightsNone =>
      Ok (map (fun x => Qtrunc (x * inject_Z (n_classes self))) balance_noise)
  | WeightsStatic ws => Ok (static_selector balance_noise ws)
  | WeightsDynamic n_balance_drifts class_sigmoid_spacing balance_amplitude =>
      rbind (_sigmoid self class_sigmoid_spacing n_balance_drifts) (fun pp =>
        let class_probabilities :=
          map (fun p => ((p - (1 # 2)) * balance_amplitude + (1 # 2))%Q) (snd pp) in
        rbind (np_less class_probabilities balance_noise) (fun mask =>
          Ok (map bool_to_int mask)))
  end.

(** The first call of [get_chunk]: everything up to [self.previous_chunk
    = None]. *)
Definition materialize (self : StreamGenerator) : M Attributes :=
  (do concepts0 <- lift (build_concepts self);
   do concept_selector <-
      (if 0 <? n_drifts self
       then do s <- select_concepts self; ret (Some s)
       else ret None);
   do balance_noise <- np_random_rand (n_samples self);
   do class_selector <- lift (select_classes self balance_noise);
   do concepts1 <-
      lift (match concept_selector with
            | Some s => np_choose s concepts0
            | None => Ok (np_squeeze concepts0)
            end);
   do chosen <- lift (np_choose class_selector concepts1);
   ret (mk_Attributes concepts1 concept_selector class_selector
          (transpose chosen) class_selector (-1) None None))%gen.

(** [get_chunk].  A call that raises leaves the object as it was for all
    that [get_chunk] and [is_dry] can see: they only test for [X] and
    [chunk_id], which are assigned after the last statement that can
    raise. *)
Definition get_chunk (self : StreamGenerator)
    : M (option Chunk * StreamGenerator) :=
  (do a <-
      match attrs self with
      | Some a =>
          match current_chunk a with
          | Some c =>
              ret (mk_Attributes (concepts a) (concept_selector a)
                     (class_selector a) (X a) (y a) (chunk_id a)
                     (Some c) (Some c))
          | None => raise MissingCurrentChunk
          end
      | None => materialize self
      end;
   let id := chunk_id a + 1 in
   if id <? n_chunks self
   then
     let start := chunk_size self * id in
     let stop := chunk_size self * id + chunk_size self in
     let c := (nd_slice (X a) start stop, py_slice (y a) start stop) in
     ret (Some c,
          set_attrs self
            (mk_Attributes (concepts a) (concept_selector a) (class_selector a)
               (X a) (y a) id (previous_chunk a) (Some c)))
   else
     ret (None,
          set_attrs self
            (mk_Attributes (concepts a) (concept_selector a) (class_selector a)
               (X a) (y a) id (previous_chunk a) (current_chunk a))))%gen.

(** [k] calls of [get_chunk] in a row on one object; a caller that
    catches an exception goes on with the object. *)
Fixpoint get_chunks (k : nat) (self : StreamGenerator) (g : RandomState)
    : list (Result (option Chunk)) * StreamGenerator * RandomState :=
  match k with
  | O => ([], self, g)
  | S k' =>
      match get_chunk self g with
      | (Ok (c, self'), g') =>
          let '(rs, self'', g'') := get_chunks k' self' g' in
          (Ok c :: rs, self'', g'')
      | (Raise e, g') =>
          let '(rs, self'', g'') := get_chunks k' self g' in
          (Raise e :: rs, self'', g'')
      end
  end.

End Generator.


(** ** Vocabulary of the statements *)

(** The chunk with number [id] of a materialised stream. *)
Definition chunk_of (self : StreamGenerator) (a : Attributes) (id : Z) : Chunk :=
  (nd_slice (X a) (chunk_size self * id) (chunk_size self * id + chunk_size self),
   py_slice (y a) (chunk_size self * id) (chunk_size self * id + chunk_size self)).

(** What the call that moves the cursor to [id] returns. *)
Definition reply (self : StreamGenerator) (a : Attributes) (id : Z) : option Chunk :=
  if id <? n_chunks self then Some (chunk_of self a id) else None.

(** Two attribute records describe the same materialised stream. *)
Definition same_stream (a b : Attributes) : Prop :=
  concepts b = concepts a /\ concept_selector b = concept_selector a /\
  class_selector b = class_selector a /\ X b = X a /\ y b = y a.

(** Two objects were built with the same parameters. *)
Definition same_parameters (s t : StreamGenerator) : Prop :=
  n_chunks t = n_chunks s /\ chunk_size t = chunk_size s /\
  random_state t = random_state s /\ n_drifts t = n_drifts s /\
  concept_sigmoid_spacing t = concept_sigmoid_spacing s /\
  n_classes t = n_classes s /\ reocurring t = reocurring s /\
  weights t = weights s.

(** A call was successful: it returned a chunk. *)
Definition successful (r : Result (option Chunk)) : Prop :=
  exists c, r = Ok (Some c).

(** [r] is a linearly spaced ramp that runs from [a] to [b]. *)
Definition linear_ramp (a b : Q) (r : list Q) : Prop :=
  (length r = 1%nat -> r = [a])
  /\ ((1 < length r)%nat ->
      last r = Some b
      /\ forall k v, r !! k = Some v ->
           (v == a + inject_Z (Z.of_nat k)
                     * ((b - a) / inject_Z (Z.of_nat (length r - 1))))%Q).

(** The spacing that [_sigmoid] works with. *)
Definition spacing_of (sigmoid_spacing : option Q) : Q :=
  match sigmoid_spacing with Some s => s | None => 9999%Q end.

(** The end points of the ramp of period [i] as the code has them, and as
    the specification puts them. *)
Definition ramp_start (css : Q) (i : Z) : Q :=
  if Z.even i then css else (- css)%Q.
Definition ramp_stop (css : Q) (i : Z) : Q :=
  if Z.even i then (- css)%Q else css.

Definition stated_ramp_start (css : Q) (i : Z) : Q :=
  if Z.odd i then css else (- css)%Q.
Definition stated_ramp_stop (css : Q) (i : Z) : Q :=
  if Z.odd i then (- css)%Q else css.

(** The drift scheduler with the ramp directions of the specification:
    from +s to -s on odd periods, from -s to +s on even ones. *)
Definition stated_sigmoid (cdf : Q -> Q) (self : StreamGenerator)
    (sigmoid_spacing : option Q) (n_drifts : Z) : Result (Z * list Q) :=
  let period := int_div (n_samples self) n_drifts in
  let css := spacing_of sigmoid_spacing in
  rbind (rmapM (fun i => linspace (stated_ramp_start css i)
                                  (stated_ramp_stop css i) period)
               (py_range 0 n_drifts))
        (fun ramps => Ok (period, map cdf (concat ramps))).

(** The cumulative sum of [weights[0..i-1]], as the accumulator of the
    static balance loop builds it. *)
Definition cumulative (ws : list Q) (i : nat) : Q := foldl Qplus 0%Q (take i ws).

(** The noise [x] exceeds the cumulative sum of [weights[0..i-1]]. *)
Definition exceeds (x : Q) (ws : list Q) (i : nat) : bool :=
  Qltb (cumulative ws i) x.

(** The largest class index below [k] whose cumulative threshold the noise
    exceeds, and 0 when it exceeds none. *)
Fixpoint largest_exceeded (x : Q) (ws : list Q) (k : nat) : nat :=
  match k with
  | O => 0
  | S k' => if exceeds x ws k' then k' else largest_exceeded x ws k'
  end.

(** What one pass of the remapping loop makes of a value inside period
    [i]. *)
Definition remap_value (i x : Z) : Z :=
  if x =? 1 then i + ((i + 1) mod 2)
  else if x =? 0 then i + (i mod 2) else x.

(** Sample [j] lies in the sample range of period [i]. *)
Definition in_period (period : Z) (j : nat) (i : Z) : bool :=
  (i * period <=? Z.of_nat j) && (Z.of_nat j <? (i + 1) * period).

(** The concept of sample [j] as the specification states it: the binary
    choice [b], remapped inside the periods 1 .. n_drifts - 1 when the drift
    is not reoccurring. *)
Definition stated_concept (n_drifts period : Z) (reocurring : bool)
    (j : nat) (b : bool) : Z :=
  if reocurring then bool_to_int b
  else match find (in_period period j) (py_range 1 n_drifts) with
       | Some i => if b then i + ((i + 1) mod 2) else i + (i mod 2)
       | None => bool_to_int b
       end.

Definition stated_selector (n_drifts period : Z) (reocurring : bool)
    (probability noise : list Q) : list Z :=
  imap (stated_concept n_drifts period reocurring)
       (zip_with Qltb probability noise).

(** The [n] first draws of the global generator. *)
Definition draws (g : RandomState) (n : Z) : list Q :=
  map g (seq 0 (Z.to_nat n)).

(** The preconditions on [weights] under which the labels are said to lie
    in [0, n_classes): unset, a sequence of [n_classes] non-negative
    thresholds, or the tuple of the dynamic balance with two classes. *)
Definition weights_precondition (self : StreamGenerator) : Prop :=
  match weights self with
  | WeightsNone => True
  | WeightsStatic ws =>
      Z.of_nat (length ws) = n_classes self /\ Forall (fun w => (0 <= w)%Q) ws
  | WeightsDynamic _ _ _ => n_classes self = 2
  end.

(** What a call returned, without the object and the generator state. *)
Definition returned (r : Result (option Chunk * StreamGenerator) * RandomState)
    : Result (option Chunk) :=
  match fst r with
  | Ok (c, _) => Ok c
  | Raise e => Raise e
  end.

(** A computation leaves a uniform generator uniform. *)
Definition keeps_uniform {A} (m : M A) : Prop :=
  forall g, uniform g -> uniform (snd (m g)).

(** ** Stand-ins for the external collaborators, for concrete runs *)

(** An increasing S-shaped map onto (0, 1) with rational values. *)
Definition example_cdf (x : Q) : Q := ((1 + x / (1 + Qabs x)) / 2)%Q.

(** A feature matrix of two columns whose entries show the seed. *)
Definition example_make_classification (n_samples n_classes random_state : Z)
    (weights : list Q) : Result ndarray :=
  if n_samples <? 0 then Raise OracleError
  else Ok (mk_ndarray [Z.to_nat n_samples; 2%nat]
             (map (fun k => inject_Z (random_state + Z.of_nat k))
                  (seq 0 (Z.to_nat n_samples * 2)))).

(** A state of the global generator: it delivers 1/4, 3/4, 1/4, ... *)
Definition example_random : RandomState :=
  fun k => if Nat.even k then (1 # 4)%Q else (3 # 4)%Q.

(** ** Vocabulary of the further properties *)

(** Two objects that agree in everything but the [reocurring] flag. *)
Definition agree_up_to_reocurring (s t : StreamGenerator) : Prop :=
  n_chunks t = n_chunks s /\ chunk_size t = chunk_size s /\
  random_state t = random_state s /\ n_drifts t = n_drifts s /\
  concept_sigmoid_spacing t = concept_sigmoid_spacing s /\
  n_classes t = n_classes s /\ weights t = weights s /\ attrs t = attrs s.

(** The number of blocks of noise that materialisation draws: the concept
    noise, when there are drifts, and the balance noise. *)
Definition noise_blocks (self : StreamGenerator) : nat :=
  if 0 <? n_drifts self then 2%nat else 1%nat.

(** The period in which sample [j] lies, periods counted from 0. *)
Definition period_of (self : StreamGenerator) (j : nat) : Z :=
  Z.of_nat j / (n_samples self / n_drifts self).

(** A multi-index into an array of shape [s]: one position per axis, each
    below the length of its axis. *)
Definition valid_index (s idx : list nat) : Prop := Forall2 lt idx s.

(** The weight vector that selects the class [r] alone: row [r] of
    [diag_rows]. *)
Definition one_hot (c r : nat) : list Q :=
  map (fun k => if (k =? r)%nat then 1%Q else 0%Q) (seq 0 c).

(** The oracle returns feature matrices of shape (n_samples, f). *)
Definition oracle_shape (oracle : Z -> Z -> Z -> list Q -> Result ndarray)
    (f : nat) : Prop :=
  forall n c s w m, oracle n c s w = Ok m -> shape m = [Z.to_nat n; f].

(** The concept that governs sample [j]: its entry in the concept selector,
    and concept 0 when there is no drift. *)
Definition concept_of (a : Attributes) (j : nat) : Z :=
  match concept_selector a with
  | Some s => default 0 (s !! j)
  | None => 0
  end.

(** The data of an array has the length that its shape asks for. *)
Definition well_formed (a : ndarray) : Prop :=
  length (data a) = size (shape a).

(** [self.classes]: the list of the labels, [range(n_classes)] as a
    list. *)
Definition classes (self : StreamGenerator) : list Z :=
  py_range 0 (n_classes self).

(** The labels that a call returned; none when it returned no chunk. *)
Definition labels_of (r : Result (option Chunk)) : list Z :=
  match r with
  | Ok (Some (_, labels)) => labels
  | _ => []
  end.

(** The oracle returns a feature matrix for every non-negative number of
    samples. *)
Definition oracle_total (oracle : Z -> Z -> Z -> list Q -> Result ndarray)
    : Prop :=
  forall n c s w, 0 <= n -> exists m, oracle n c s w = Ok m.

(** The drift schedule of a dynamic balance fits the stream: no balance
    drifts, or a number of them that divides the number of samples. *)
Definition balance_fits (self : StreamGenerator) : Prop :=
  match weights self with
  | WeightsDynamic nb _ _ => nb <= 0 \/ n_samples self mod nb = 0
  | _ => True
  end.

(** The configurations for which the first call is shown to return a
    chunk. *)
Definition regular (self : StreamGenerator) (f : nat) : Prop :=
  0 < n_chunks self /\ 2 <= n_samples self
  /\ 0 < n_classes self < 32
  /\ weights_precondition self /\ balance_fits self
  /\ ((0 < n_drifts self /\ n_samples self mod n_drifts self = 0
       /\ n_concepts self < 32)
      \/ (n_drifts self = 0 /\ reocurring self = false
          /\ n_classes self <> 1 /\ f <> 1%nat)).

(** Streams for concrete runs: a stationary one of two chunks of two
    samples, and the same with two drifts. *)
Definition example_stream : StreamGenerator :=
  init 2 2 1410 0 None 2 false WeightsNone.

Definition example_drifting : StreamGenerator :=
  init 2 2 1410 2 (Some 1%Q) 2 false WeightsNone.

(** [k] calls on the stationary stream. *)
Definition example_run (k : nat)
    : list (Result (option Chunk)) * StreamGenerator * RandomState :=
  get_chunks example_cdf example_make_classification k example_stream
    example_random.

(** The first chunk of the stationary stream. *)
Definition example_chunk : Chunk :=
  (mk_ndarray [2%nat; 2%nat] [1410%Q; 1411%Q; 1412%Q; 1413%Q], [0; 1]).

(** The stream that the constructor builds from its defaults, as the tests
    of the package do: [StreamGenerator()]. *)
Definition default_stream : StreamGenerator :=
  init 250 200 1410 0 None 2 false WeightsNone.

(** * Properties *)

(** ** Results and the generator monad *)

Lemma rbind_Ok {A B} (r : Result A) (k : A -> Result B) (b : B) :
  rbind r k = Ok b -> exists a, r = Ok a /\ k a = Ok b.
Proof. destruct r as [a|e]; simpl; [eauto | discriminate]. Qed.

Lemma rmapM_length {A B} (f : A -> Result B) (l : list A) (l' : list B) :
  rmapM f l = Ok l' -> length l' = length l.
Proof.
  revert l'. induction l as [|x l IH]; simpl; intros l' H.
  - injection H as <-. reflexivity.
  - apply rbind_Ok in H as (y0 & _ & H).
    apply rbind_Ok in H as (ys & Hys & H).
    injection H as <-. simpl. f_equal. eauto.
Qed.

Lemma rmapM_lookup {A B} (f : A -> Result B) (l : list A) (l' : list B) i x :
  rmapM f l = Ok l' -> l !! i = Some x ->
  exists y0, l' !! i = Some y0 /\ f x = Ok y0.
Proof.
  revert l' i. induction l as [|x0 l IH]; simpl; intros l' i H Hi.
  - discriminate.
  - apply rbind_Ok in H as (y0 & Hy & H).
    apply rbind_Ok in H as (ys & Hys & H).
    injection H as <-. destruct i as [|i]; simpl in *.
    + injection Hi as ->. eauto.
    + eauto.
Qed.

Lemma rmapM_total {A B} (f : A -> Result B) (l : list A) :
  (forall x, x ∈ l -> exists y0, f x = Ok y0) ->
  exists l', rmapM f l = Ok l'.
Proof.
  induction l as [|x l IH]; simpl; intros H.
  - eauto.
  - destruct (H x) as [y0 Hy]; [left|].
    destruct IH as [ys Hys]; [intros; apply H; right; assumption|].
    rewrite Hy, Hys. simpl. eauto.
Qed.

Lemma bind_Ok {A B} (m : M A) (k : A -> M B) g b g' :
  bind m k g = (Ok b, g') ->
  exists a g1, m g = (Ok a, g1) /\ k a g1 = (Ok b, g').
Proof.
  unfold bind. destruct (m g) as [[a|e] g1]; [eauto | discriminate].
Qed.

Lemma lift_Ok {A} (r : Result A) g a g' :
  lift r g = (Ok a, g') -> r = Ok a /\ g' = g.
Proof. unfold lift. intros H. injection H as -> ->. auto. Qed.

Lemma ret_Ok {A} (x : A) g a g' :
  ret x g = (Ok a, g') -> a = x /\ g' = g.
Proof. unfold ret. intros H. injection H as -> ->. auto. Qed.

(** ** The chunk cursor *)

Section Cursor.

Variable logistic_cdf : Q -> Q.
Variable make_classification : Z -> Z -> Z -> list Q -> Result ndarray.

Abbreviation get_chunk' := (get_chunk logistic_cdf make_classification).
Abbreviation get_chunks' := (get_chunks logistic_cdf make_classification).
Abbreviation materialize' := (materialize logistic_cdf make_classification).

Lemma same_parameters_refl s : same_parameters s s.
Proof. repeat split. Qed.

Lemma same_parameters_trans s t u :
  same_parameters s t -> same_parameters t u -> same_parameters s u.
Proof.
  unfold same_parameters. intros H1 H2.
  destruct H1 as (? & ? & ? & ? & ? & ? & ? & ?).
  destruct H2 as (? & ? & ? & ? & ? & ? & ? & ?).
  repeat split; congruence.
Qed.

Lemma same_stream_trans a b c :
  same_stream a b -> same_stream b c -> same_stream a c.
Proof.
  unfold same_stream. intros (? & ? & ? & ? & ?) (? & ? & ? & ? & ?).
  repeat split; congruence.
Qed.

Lemma reply_same s t a b id :
  same_parameters s t -> same_stream a b -> reply t b id = reply s a id.
Proof.
  intros (Hn & Hc & _) (_ & _ & _ & HX & Hy).
  unfold reply, chunk_of. rewrite Hn, Hc, HX, Hy. reflexivity.
Qed.

(** What materialisation leaves in the cursor attributes. *)
Lemma materialize_cursor self g a g' :
  materialize' self g = (Ok a, g') ->
  chunk_id a = -1 /\ previous_chunk a = None /\ current_chunk a = None
  /\ y a = class_selector a.
Proof.
  unfold materialize. intros H.
  repeat (apply bind_Ok in H as (? & ? & _ & H)).
  apply ret_Ok in H as [-> _]. simpl. auto.
Qed.

(** The first call on a fresh object. *)
Lemma get_chunk_fresh self g a g' :
  attrs self = None ->
  materialize' self g = (Ok a, g') ->
  exists self' a',
    get_chunk' self g = (Ok (reply self a 0, self'), g')
    /\ attrs self' = Some a' /\ same_parameters self self'
    /\ same_stream a a' /\ chunk_id a' = 0
    /\ current_chunk a' = reply self a 0.
Proof.
  intros Hattrs Hm.
  destruct (materialize_cursor _ _ _ _ Hm) as (Hid & _ & Hcur & _).
  unfold get_chunk, bind. rewrite Hattrs, Hm, Hid.
  change (-1 + 1) with 0. unfold reply, chunk_of.
  destruct (0 <? n_chunks self); unfold ret; eexists _, _;
    (split; [reflexivity|]); simpl;
    (split; [reflexivity|]); repeat split; auto.
Qed.

Lemma get_chunk_fresh_raise self g e g' :
  attrs self = None ->
  materialize' self g = (Raise e, g') ->
  get_chunk' self g = (Raise e, g').
Proof.
  intros Hattrs Hm. unfold get_chunk, bind. rewrite Hattrs, Hm. reflexivity.
Qed.

(** A call on a materialised object that has a current chunk. *)
Lemma get_chunk_ready self a g :
  attrs self = Some a ->
  is_Some (current_chunk a) ->
  exists self' a',
    get_chunk' self g = (Ok (reply self a (chunk_id a + 1), self'), g)
    /\ attrs self' = Some a' /\ same_parameters self self'
    /\ same_stream a a' /\ chunk_id a' = chunk_id a + 1
    /\ is_Some (current_chunk a') /\ previous_chunk a' = current_chunk a.
Proof.
  intros Hattrs [c Hc].
  unfold get_chunk, bind. rewrite Hattrs, Hc. simpl.
  unfold reply, chunk_of.
  destruct (chunk_id a + 1 <? n_chunks self); unfold ret; eexists _, _;
    (split; [reflexivity|]); simpl;
    (split; [reflexivity|]); repeat split; eauto.
Qed.

(** Any number of calls on such an object, in closed form. *)
Lemma get_chunks_ready k : forall self a g,
  attrs self = Some a ->
  is_Some (current_chunk a) ->
  exists self' a',
    get_chunks' k self g =
      (map (fun j => Ok (reply self a (chunk_id a + 1 + Z.of_nat j))) (seq 0 k),
       self', g)
    /\ attrs self' = Some a' /\ same_parameters self self'
    /\ same_stream a a' /\ chunk_id a' = chunk_id a + Z.of_nat k
    /\ is_Some (current_chunk a').
Proof.
  induction k as [|k IH]; intros self a g Hattrs Hcur.
  - exists self, a. simpl. repeat split; auto; lia.
  - destruct (get_chunk_ready self a g Hattrs Hcur)
      as (s1 & a1 & Hcall & Hattrs1 & Hp1 & Hs1 & Hid1 & Hcur1 & _).
    destruct (IH s1 a1 g Hattrs1 Hcur1)
      as (s2 & a2 & Hrest & Hattrs2 & Hp2 & Hs2 & Hid2 & Hcur2).
    exists s2, a2. simpl. rewrite Hcall, Hrest.
    refine (conj _ (conj Hattrs2
             (conj (same_parameters_trans _ _ _ Hp1 Hp2)
                (conj (same_stream_trans _ _ _ Hs1 Hs2) (conj _ Hcur2))))).
    + f_equal. f_equal. f_equal.
      * f_equal. f_equal. lia.
      * rewrite <- seq_shift, map_map. apply map_ext. intros j.
        rewrite (reply_same self s1 a a1) by assumption.
        do 2 f_equal. lia.
    + lia.
Qed.

(** Calls on a fresh object whose materialisation succeeds, in closed form. *)
Lemma get_chunks_fresh k self g a g1 :
  attrs self = None ->
  materialize' self g = (Ok a, g1) ->
  0 < n_chunks self ->
  exists self' a',
    get_chunks' (S k) self g =
      (map (fun j => Ok (reply self a (Z.of_nat j))) (seq 0 (S k)), self', g1)
    /\ attrs self' = Some a' /\ same_parameters self self'
    /\ same_stream a a' /\ chunk_id a' = Z.of_nat k
    /\ is_Some (current_chunk a').
Proof.
  intros Hattrs Hm Hn.
  destruct (get_chunk_fresh self g a g1 Hattrs Hm)
    as (s1 & a1 & Hcall & Hattrs1 & Hp1 & Hs1 & Hid1 & Hcur1).
  assert (Hcur1' : is_Some (current_chunk a1)).
  { rewrite Hcur1. unfold reply. apply Z.ltb_lt in Hn. rewrite Hn. eauto. }
  destruct (get_chunks_ready k s1 a1 g1 Hattrs1 Hcur1')
    as (s2 & a2 & Hrest & Hattrs2 & Hp2 & Hs2 & Hid2 & Hcur2).
  exists s2, a2.
  refine (conj _ (conj Hattrs2
           (conj (same_parameters_trans _ _ _ Hp1 Hp2)
              (conj (same_stream_trans _ _ _ Hs1 Hs2) (conj _ Hcur2))))).
  - cbn [get_chunks]. rewrite Hcall, Hrest. cbn [seq map].
    f_equal. f_equal. f_equal.
    rewrite <- seq_shift, map_map. apply map_ext. intros j.
    rewrite (reply_same self s1 a a1) by assumption.
    do 2 f_equal. lia.
  - lia.
Qed.

(** A first call that returns a chunk comes from a materialisation that
    succeeded, on a stream with at least one chunk. *)
Lemma first_chunk_inv self g c self1 g1 :
  attrs self = None ->
  get_chunk' self g = (Ok (Some c, self1), g1) ->
  exists a, materialize' self g = (Ok a, g1) /\ 0 < n_chunks self.
Proof.
  intros Hattrs Hcall.
  destruct (materialize' self g) as [[a|e] g2] eqn:Hm.
  - destruct (get_chunk_fresh self g a g2 Hattrs Hm) as (s1 & a1 & Hc & _).
    rewrite Hc in Hcall. injection Hcall as Hr _ ->.
    exists a. split; [reflexivity|].
    unfold reply in Hr. destruct (0 <? n_chunks self) eqn:E; [|discriminate].
    apply Z.ltb_lt. exact E.
  - rewrite (get_chunk_fresh_raise self g e g2 Hattrs Hm) in Hcall.
    discriminate.
Qed.

Lemma successful_reply self a id :
  successful (Ok (reply self a id)) <-> id < n_chunks self.
Proof.
  unfold successful, reply. destruct (id <? n_chunks self) eqn:E.
  - apply Z.ltb_lt in E. split; eauto.
  - apply Z.ltb_ge in E. split; [intros [c Hc]; discriminate | lia].
Qed.

(** C4.  Stream exhaustion: when the first call on a fresh object returns a
    chunk, the first [n_chunks] calls all return chunks, and every call
    after them returns [None], however many follow. *)
Theorem stream_exhaustion self g c self1 g1 :
  attrs self = None ->
  get_chunk' self g = (Ok (Some c, self1), g1) ->
  exists rs self' g',
    get_chunks' (Z.to_nat (n_chunks self)) self g = (rs, self', g')
    /\ length rs = Z.to_nat (n_chunks self)
    /\ Forall successful rs
    /\ forall m, fst (fst (get_chunks' m self' g')) = replicate m (Ok None).
Proof.
  intros Hattrs Hcall.
  destruct (first_chunk_inv self g c self1 g1 Hattrs Hcall) as (a & Hm & Hn).
  destruct (Z.to_nat (n_chunks self)) as [|k] eqn:Hk; [lia|].
  destruct (get_chunks_fresh k self g a g1 Hattrs Hm Hn)
    as (s2 & a2 & Hrun & Hattrs2 & Hp2 & Hs2 & Hid2 & Hcur2).
  eexists _, s2, g1. split; [exact Hrun|].
  split; [rewrite length_map, length_seq; reflexivity|].
  split.
  - apply Forall_forall. intros r Hr.
    apply list_elem_of_In, in_map_iff in Hr as (j & <- & Hj).
    apply in_seq in Hj. apply successful_reply. lia.
  - intros m.
    destruct (get_chunks_ready m s2 a2 g1 Hattrs2 Hcur2) as (s3 & a3 & Hm3 & _).
    rewrite Hm3. cbn [fst].
    assert (Hnone : forall j : nat,
               Ok (reply s2 a2 (chunk_id a2 + 1 + Z.of_nat j))
               = (Ok None : Result (option Chunk))).
    { intros j. unfold reply. destruct Hp2 as (-> & _).
      destruct (chunk_id a2 + 1 + Z.of_nat j <? n_chunks self) eqn:E;
        [apply Z.ltb_lt in E; lia | reflexivity]. }
    clear Hm3. generalize 0%nat. induction m as [|m IH]; intros o.
    + reflexivity.
    + cbn [seq map replicate]. rewrite Hnone, IH. reflexivity.
Qed.

(** C5.  [is_dry] is false before the first call; after [k] successful
    calls the cursor is at [k - 1], and [is_dry] holds exactly when
    [chunk_id + 1 >= n_chunks], which is exactly when [k = n_chunks]. *)
Theorem is_dry_contract self :
  attrs self = None ->
  is_dry self = false
  /\ forall g k rs self' g',
       (0 < k)%nat ->
       get_chunks' k self g = (rs, self', g') ->
       Forall successful rs ->
       exists a,
         attrs self' = Some a /\ chunk_id a = Z.of_nat k - 1
         /\ (is_dry self' = true <-> chunk_id a + 1 >= n_chunks self)
         /\ (is_dry self' = true <-> Z.of_nat k = n_chunks self).
Proof.
  intros Hattrs. split; [unfold is_dry; rewrite Hattrs; reflexivity|].
  intros g k rs self' g' Hk Hrun Hall.
  destruct k as [|k]; [lia|].
  destruct (materialize' self g) as [[a|e] g1] eqn:Hm.
  - assert (Hn : 0 < n_chunks self).
    { destruct (get_chunk_fresh self g a g1 Hattrs Hm) as (s1 & a1 & Hc & _).
      cbn [get_chunks] in Hrun. rewrite Hc in Hrun.
      destruct (get_chunks' k s1 g1) as [[rs1 s2] g2].
      injection Hrun as <- _ _. inversion Hall as [|? ? Hhd _]; subst.
      apply successful_reply in Hhd. exact Hhd. }
    destruct (get_chunks_fresh k self g a g1 Hattrs Hm Hn)
      as (s2 & a2 & Hrun2 & Hattrs2 & Hp2 & Hs2 & Hid2 & Hcur2).
    rewrite Hrun2 in Hrun.
    assert (Hrs : rs = map (fun j => Ok (reply self a (Z.of_nat j))) (seq 0 (S k)))
      by congruence.
    assert (Hself : self' = s2) by congruence.
    clear Hrun. subst rs self'.
    assert (Hle : Z.of_nat k < n_chunks self).
    { apply (successful_reply self a). rewrite Forall_forall in Hall.
      apply Hall, list_elem_of_In, in_map_iff. exists k.
      split; [reflexivity|]. apply in_seq. lia. }
    exists a2. split; [exact Hattrs2|]. split; [lia|].
    unfold is_dry. rewrite Hattrs2. destruct Hp2 as (-> & _).
    rewrite Z.leb_le. split; lia.
  - cbn [get_chunks] in Hrun.
    rewrite (get_chunk_fresh_raise self g e g1 Hattrs Hm) in Hrun.
    destruct (get_chunks' k self g1) as [[rs1 s2] g2].
    injection Hrun as <- _ _. inversion Hall as [|? ? [c Hc] _]. discriminate.
Qed.

End Cursor.

(** ** The drift scheduler *)

Lemma linspace_cases a b num l :
  linspace a b num = Ok l ->
  (Z.to_nat num = 0%nat /\ l = [])
  \/ (Z.to_nat num = 1%nat /\ l = [a])
  \/ exists m, Z.to_nat num = S (S m)
       /\ l = map (fun k => (inject_Z (Z.of_nat k)
                              * ((b - a) / inject_Z (Z.of_nat (S m))) + a)%Q)
                  (seq 0 (S m)) ++ [b].
Proof.
  unfold linspace. destruct (num <? 0); [discriminate|].
  destruct (Z.to_nat num) as [|[|m]]; intros H.
  - left. split; congruence.
  - right. left. split; congruence.
  - right. right. exists m. split; congruence.
Qed.

Lemma linspace_length a b num l :
  linspace a b num = Ok l -> length l = Z.to_nat num.
Proof.
  intros H.
  destruct (linspace_cases a b num l H)
    as [[-> ->]|[[-> ->]|(m & -> & ->)]]; try reflexivity.
  rewrite length_app, length_map, length_seq. simpl. lia.
Qed.

Lemma linspace_total a b num :
  0 <= num -> exists l, linspace a b num = Ok l.
Proof.
  intros H. unfold linspace. apply Z.ltb_ge in H. rewrite H.
  destruct (Z.to_nat num) as [|[|m]]; eauto.
Qed.

Lemma inject_nat_succ_nonzero m : ~ (inject_Z (Z.of_nat (S m)) == 0)%Q.
Proof.
  unfold Qeq. simpl. lia.
Qed.

(** What [np.linspace] returns is a linear ramp between its end points. *)
Lemma linspace_linear a b num l :
  linspace a b num = Ok l -> linear_ramp a b l.
Proof.
  intros H.
  destruct (linspace_cases a b num l H)
    as [[_ ->]|[[_ ->]|(m & _ & ->)]].
  - split; simpl; [discriminate | lia].
  - split; simpl; [reflexivity | lia].
  - split.
    + rewrite length_app, length_map, length_seq. simpl. lia.
    + intros _. split; [apply last_snoc|].
      intros k v Hk.
      rewrite length_app, length_map, length_seq.
      replace (S m + length [b] - 1)%nat with (S m) by (simpl; lia).
      destruct (decide (k < S m)%nat) as [Hlt|Hge].
      * rewrite lookup_app_l in Hk by (rewrite length_map, length_seq; lia).
        rewrite list_lookup_fmap, lookup_seq_lt in Hk by lia.
        simpl in Hk. injection Hk as <-. ring.
      * rewrite lookup_app_r in Hk by (rewrite length_map, length_seq; lia).
        rewrite length_map, length_seq in Hk.
        destruct (k - S m)%nat as [|j] eqn:Hj; [|discriminate].
        injection Hk as <-.
        assert (k = S m) as -> by lia.
        field. apply inject_nat_succ_nonzero.
Qed.

Lemma concat_length_const {A} (ls : list (list A)) p :
  (forall l, l ∈ ls -> length l = p) ->
  length (concat ls) = (length ls * p)%nat.
Proof.
  induction ls as [|l ls IH]; intros H; simpl; [reflexivity|].
  rewrite length_app, (H l), IH.
  - reflexivity.
  - intros l' Hl'. apply H, elem_of_cons. right. exact Hl'.
  - apply elem_of_cons. left. reflexivity.
Qed.

Lemma py_range_length a b : length (py_range a b) = Z.to_nat (b - a).
Proof. unfold py_range. rewrite length_map, length_seq. reflexivity. Qed.

Lemma py_range_lookup a b (i : nat) :
  (i < Z.to_nat (b - a))%nat -> py_range a b !! i = Some (a + Z.of_nat i).
Proof.
  intros H. unfold py_range.
  rewrite list_lookup_fmap, lookup_seq_lt by assumption. reflexivity.
Qed.

Lemma even_of_nat i : Z.even (Z.of_nat i) = Nat.even i.
Proof.
  destruct (Nat.even i) eqn:E.
  - apply Nat.even_spec in E as [k ->]. apply Z.even_spec.
    exists (Z.of_nat k). lia.
  - rewrite <- Z.negb_odd. apply negb_false_iff.
    rewrite <- Nat.negb_odd in E. apply negb_false_iff in E.
    apply Nat.odd_spec in E as [k ->]. apply Z.odd_spec.
    exists (Z.of_nat k). lia.
Qed.

Lemma truthy_mod2 i : truthy (i mod 2) = Z.odd i.
Proof.
  unfold truthy. rewrite Zmod_odd. destruct (Z.odd i); reflexivity.
Qed.

Lemma sigmoid_ramp_eq css period i :
  sigmoid_ramp css period i
  = linspace (ramp_start css i) (ramp_stop css i) period.
Proof.
  unfold sigmoid_ramp, ramp_start, ramp_stop.
  rewrite truthy_mod2, <- Z.negb_odd. destruct (Z.odd i); reflexivity.
Qed.

Section Scheduler.

Variable logistic_cdf : Q -> Q.

Abbreviation sigmoid' := (_sigmoid logistic_cdf).

(** With drifts and a non-negative period, [_sigmoid] returns the CDF of
    the concatenated ramps. *)
Lemma sigmoid_drifting self spacing n :
  0 < n -> 0 <= int_div (n_samples self) n ->
  exists ramps,
    rmapM (sigmoid_ramp (spacing_of spacing) (int_div (n_samples self) n))
          (py_range 0 n) = Ok ramps
    /\ sigmoid' self spacing n
       = Ok (int_div (n_samples self) n, map logistic_cdf (concat ramps)).
Proof.
  intros Hn Hp.
  destruct (rmapM_total (sigmoid_ramp (spacing_of spacing)
                           (int_div (n_samples self) n)) (py_range 0 n))
    as [ramps Hramps].
  { intros i _. rewrite sigmoid_ramp_eq. apply linspace_total. exact Hp. }
  exists ramps. split; [exact Hramps|].
  unfold _sigmoid. apply Z.ltb_lt in Hn. rewrite Hn.
  fold (spacing_of spacing). rewrite Hramps. reflexivity.
Qed.

Lemma int_div_nonneg t n : 0 <= t -> 0 < n -> int_div t n = t / n.
Proof. intros. unfold int_div. apply Z.quot_div_nonneg; lia. Qed.

(** With drifts, on a non-negative number of samples, [_sigmoid] returns
    the period [n_samples / n] and [n] times as many probabilities. *)
Lemma sigmoid_probabilities self spacing n :
  0 <= n_samples self -> 0 < n ->
  exists probabilities,
    sigmoid' self spacing n = Ok (n_samples self / n, probabilities)
    /\ Z.of_nat (length probabilities) = n * (n_samples self / n).
Proof.
  intros Ht Hn.
  assert (Hp : 0 <= n_samples self / n) by (apply Z.div_pos; lia).
  destruct (sigmoid_drifting self spacing n Hn) as (ramps & Hramps & Hs).
  { rewrite int_div_nonneg by assumption. exact Hp. }
  rewrite int_div_nonneg in Hs, Hramps by assumption.
  exists (map logistic_cdf (concat ramps)). split; [exact Hs|].
  rewrite length_map, (concat_length_const ramps (Z.to_nat (n_samples self / n))).
  - rewrite (rmapM_length _ _ _ Hramps), py_range_length. lia.
  - intros r Hr. apply list_elem_of_lookup in Hr as [i Hi].
    assert (Hi' : (i < length (py_range 0 n))%nat).
    { rewrite <- (rmapM_length _ _ _ Hramps). eapply lookup_lt_Some, Hi. }
    destruct (lookup_lt_is_Some_2 _ _ Hi') as [x Hx].
    destruct (rmapM_lookup _ _ _ _ _ Hramps Hx) as (r' & Hr' & Hf).
    rewrite Hi in Hr'. injection Hr' as <-.
    rewrite sigmoid_ramp_eq in Hf. eapply linspace_length, Hf.
Qed.

(** C9.  The shape of what [_sigmoid] returns, for a non-negative number of
    samples: without drifts the period is the number of samples and the
    probabilities are that many ones; with [n > 0] drifts the period is
    [floor (n_samples / n)] and there are [n * floor (n_samples / n)]
    probabilities, [n_samples mod n <= n - 1] fewer than samples, so
    strictly fewer when [n] does not divide the number of samples. *)
Theorem sigmoid_shape self spacing n :
  0 <= n_samples self ->
  (n = 0 ->
   sigmoid' self spacing n
   = Ok (n_samples self, replicate (Z.to_nat (n_samples self)) 1%Q))
  /\ (0 < n ->
      exists probabilities,
        sigmoid' self spacing n = Ok (n_samples self / n, probabilities)
        /\ Z.of_nat (length probabilities) = n * (n_samples self / n)
        /\ Z.of_nat (length probabilities)
           = n_samples self - n_samples self mod n
        /\ 0 <= n_samples self mod n <= n - 1
        /\ (n_samples self mod n <> 0 ->
            Z.of_nat (length probabilities) < n_samples self)).
Proof.
  intros Ht. split.
  - intros ->. unfold _sigmoid, np_ones. simpl.
    apply Z.ltb_ge in Ht. rewrite Ht. reflexivity.
  - intros Hn.
    destruct (sigmoid_probabilities self spacing n Ht Hn)
      as (probabilities & Hs & Hlen).
    exists probabilities. split; [exact Hs|].
    pose proof (Z.mod_pos_bound (n_samples self) n Hn).
    pose proof (Z.div_mod (n_samples self) n ltac:(lia)).
    repeat split; lia.
Qed.


End Scheduler.


(** ** The static balance *)

Lemma cumulative_app_le ws w i :
  (i <= length ws)%nat -> cumulative (ws ++ [w]) i = cumulative ws i.
Proof.
  intros H. unfold cumulative. rewrite take_app_le by assumption. reflexivity.
Qed.

Lemma largest_exceeded_app x ws w k :
  (k <= length ws)%nat ->
  largest_exceeded x (ws ++ [w]) k = largest_exceeded x ws k.
Proof.
  induction k as [|k IH]; intros H; simpl; [reflexivity|].
  unfold exceeds. rewrite cumulative_app_le by lia. rewrite IH by lia.
  reflexivity.
Qed.

Lemma assign_mask_map {A} (f : A -> bool) (h : A -> Z) (l : list A) v :
  assign_mask (map h l) (map f l) v = map (fun x => if f x then v else h x) l.
Proof.
  unfold assign_mask. induction l as [|x l IH]; simpl; [reflexivity|].
  rewrite IH. reflexivity.
Qed.

(** The state of the loop after all thresholds: every sample holds the
    largest class it exceeded, and the accumulator is the full sum. *)
Lemma static_loop noise ws :
  foldl (static_step noise) (replicate (length noise) 0, 0%Q) (imap pair ws)
  = (map (fun x => Z.of_nat (largest_exceeded x ws (length ws))) noise,
     cumulative ws (length ws)).
Proof.
  induction ws as [|w ws IH] using rev_ind.
  - cbn [imap foldl length largest_exceeded]. f_equal.
    induction noise as [|x noise IHn]; [reflexivity|].
    cbn [length replicate map]. rewrite IHn. reflexivity.
  - rewrite imap_app, foldl_app, IH. simpl.
    unfold static_step. simpl. f_equal.
    + rewrite (assign_mask_map (fun x => Qltb (cumulative ws (length ws)) x)
                 (fun x => Z.of_nat (largest_exceeded x ws (length ws)))).
      apply map_ext. intros x.
      rewrite length_app. simpl.
      replace (length ws + 1)%nat with (S (length ws)) by lia. simpl.
      unfold exceeds. rewrite cumulative_app_le by lia.
      rewrite Nat.add_0_r, largest_exceeded_app by lia.
      destruct (Qltb (cumulative ws (length ws)) x); reflexivity.
    + unfold cumulative. rewrite !firstn_all.
      replace (take (length (ws ++ [w])) (ws ++ [w])) with (ws ++ [w])
        by (symmetry; apply firstn_all).
      rewrite foldl_app. reflexivity.
Qed.

Lemma largest_exceeded_spec x ws k :
  (forall i, (i < k)%nat -> exceeds x ws i = true ->
             (i <= largest_exceeded x ws k)%nat)
  /\ (((largest_exceeded x ws k < k)%nat
       /\ exceeds x ws (largest_exceeded x ws k) = true)
      \/ (largest_exceeded x ws k = 0%nat
          /\ forall i, (i < k)%nat -> exceeds x ws i = false)).
Proof.
  induction k as [|k [IHmax IHcase]]; simpl.
  - split; [lia|]. right. split; [reflexivity|lia].
  - destruct (exceeds x ws k) eqn:E.
    + split; [intros; lia|]. left. split; [lia|exact E].
    + split.
      * intros i Hi Hex. destruct (decide (i = k)) as [->|]; [congruence|].
        apply IHmax; [lia|exact Hex].
      * destruct IHcase as [[Hlt Hex]|[H0 Hnone]].
        -- left. split; [lia|exact Hex].
        -- right. split; [exact H0|]. intros i Hi.
           destruct (decide (i = k)) as [->|]; [exact E|]. apply Hnone. lia.
Qed.

Lemma largest_exceeded_lt x ws k :
  (0 < k)%nat -> (largest_exceeded x ws k < k)%nat.
Proof.
  intros H. destruct (largest_exceeded_spec x ws k) as [_ [[Hlt _]|[H0 _]]]; lia.
Qed.


(** ** The concept selector *)

Lemma where_from_elem mask : forall o k,
  k ∈ where_from o mask <-> (o <= k)%nat /\ mask !! (k - o)%nat = Some true.
Proof.
  induction mask as [|b mask IH]; intros o k; simpl.
  - split; [intros H; inversion H | intros [_ H]; discriminate].
  - rewrite elem_of_app, IH. split.
    + intros [Hk|[Hle Hl]].
      * destruct b; [|inversion Hk].
        apply list_elem_of_singleton in Hk as ->.
        split; [lia|]. rewrite Nat.sub_diag. reflexivity.
      * split; [lia|].
        replace (k - o)%nat with (S (k - S o)) by lia. exact Hl.
    + intros [Hle Hl]. destruct (decide (k = o)) as [->|Hne].
      * left. rewrite Nat.sub_diag in Hl. simpl in Hl. injection Hl as ->.
        apply list_elem_of_singleton. reflexivity.
      * right. split; [lia|].
        replace (k - o)%nat with (S (k - S o)) in Hl by lia. exact Hl.
Qed.

Lemma length_assign_at idx w : forall sel,
  length (assign_at sel idx w) = length sel.
Proof.
  unfold assign_at. induction idx as [|i idx IH]; intros sel; simpl.
  - reflexivity.
  - rewrite IH, length_insert. reflexivity.
Qed.

Lemma assign_at_lookup idx w : forall sel j,
  assign_at sel idx w !! j
  = if bool_decide (j ∈ map Z.to_nat idx) then (fun _ => w) <$> sel !! j
    else sel !! j.
Proof.
  unfold assign_at. induction idx as [|i idx IH]; intros sel j.
  - reflexivity.
  - cbn [foldl map]. rewrite IH, list_lookup_insert.
    destruct (decide (j = Z.to_nat i)) as [->|Hne].
    + rewrite (bool_decide_eq_true_2 (Z.to_nat i ∈ Z.to_nat i :: _))
        by (apply elem_of_cons; left; reflexivity).
      destruct (decide (Z.to_nat i = Z.to_nat i ∧ (Z.to_nat i < length sel)%nat))
        as [[_ Hlt]|Hn].
      * destruct (lookup_lt_is_Some_2 sel _ Hlt) as [x Hx]. rewrite Hx.
        destruct (bool_decide _); reflexivity.
      * assert (Hnone : sel !! Z.to_nat i = None)
          by (apply lookup_ge_None; lia).
        rewrite Hnone. destruct (bool_decide _); reflexivity.
    + destruct (decide (Z.to_nat i = j ∧ (Z.to_nat i < length sel)%nat))
        as [[Heq _]|_]; [congruence|].
      destruct (bool_decide (j ∈ map Z.to_nat idx)) eqn:E.
      * apply bool_decide_eq_true in E.
        rewrite bool_decide_eq_true_2; [reflexivity|].
        apply elem_of_cons. right. exact E.
      * apply bool_decide_eq_false in E.
        rewrite bool_decide_eq_false_2; [reflexivity|].
        intros H. apply elem_of_cons in H as [H|H]; [congruence|auto].
Qed.

Lemma slice_bound_nonneg len i :
  0 <= i -> slice_bound len i = Nat.min (Z.to_nat i) len.
Proof.
  intros H. unfold slice_bound. apply Z.ltb_ge in H. rewrite H. reflexivity.
Qed.

Lemma py_slice_lookup {A} (l : list A) start stop i :
  0 <= start -> 0 <= stop ->
  py_slice l start stop !! i
  = if decide (Z.to_nat start + i < Z.to_nat stop)%nat
    then l !! (Z.to_nat start + i)%nat else None.
Proof.
  intros Hs He. unfold py_slice. rewrite !slice_bound_nonneg by assumption.
  rewrite lookup_take, lookup_drop.
  destruct (decide (Z.to_nat start + i < Z.to_nat stop)%nat) as [Hlt|Hge].
  - destruct (decide (i < Z.to_nat stop `min` length l
                          - Z.to_nat start `min` length l)%nat) as [Hi|Hi].
    + f_equal. lia.
    + symmetry. apply lookup_ge_None. lia.
  - destruct (decide (i < Z.to_nat stop `min` length l
                          - Z.to_nat start `min` length l)%nat) as [Hi|Hi];
      [lia | reflexivity].
Qed.

(** One masked assignment of the loop, elementwise. *)
Lemma remap_where_imap sel start stop v w :
  0 <= start -> 0 <= stop ->
  remap_where sel start stop v w
  = imap (fun j x =>
            if (start <=? Z.of_nat j) && (Z.of_nat j <? stop) && (x =? v)
            then w else x) sel.
Proof.
  intros Hs He. apply list_eq. intros j.
  unfold remap_where. rewrite assign_at_lookup, list_lookup_imap.
  destruct (sel !! j) as [x|] eqn:Hx; simpl;
    [|destruct (bool_decide _); reflexivity].
  match goal with |- context [bool_decide ?P] =>
    assert (Hiff : P <-> (start <= Z.of_nat j /\ Z.of_nat j < stop) /\ x = v) end.
  { rewrite map_map, list_elem_of_In, in_map_iff. split.
    - intros (k & Hk & Hin). apply list_elem_of_In in Hin.
      unfold np_where in Hin. apply where_from_elem in Hin as [_ Hm].
      rewrite Nat.sub_0_r, list_lookup_fmap in Hm.
      rewrite py_slice_lookup in Hm by assumption.
      destruct (decide (Z.to_nat start + k < Z.to_nat stop)%nat) as [Hlt|];
        [|discriminate].
      replace (Z.to_nat start + k)%nat with j in Hm by lia.
      rewrite Hx in Hm. simpl in Hm. injection Hm as Hm.
      apply Z.eqb_eq in Hm. split; [lia|exact Hm].
    - intros [[Hlo Hhi] ->]. exists (j - Z.to_nat start)%nat.
      split; [lia|]. apply list_elem_of_In. unfold np_where.
      apply where_from_elem. split; [lia|].
      rewrite Nat.sub_0_r, list_lookup_fmap, py_slice_lookup by assumption.
      destruct (decide (Z.to_nat start + (j - Z.to_nat start)
                        < Z.to_nat stop)%nat) as [_|Hn]; [|lia].
      replace (Z.to_nat start + (j - Z.to_nat start))%nat with j by lia.
      rewrite Hx. simpl. rewrite Z.eqb_refl. reflexivity. }
  destruct (bool_decide _) eqn:E.
  - apply bool_decide_eq_true, Hiff in E as [[Hlo Hhi] ->].
    apply Z.leb_le in Hlo. apply Z.ltb_lt in Hhi.
    rewrite Hlo, Hhi, Z.eqb_refl. reflexivity.
  - apply bool_decide_eq_false in E.
    destruct ((start <=? Z.of_nat j) && (Z.of_nat j <? stop) && (x =? v)) eqn:F;
      [|reflexivity].
    exfalso. apply E, Hiff.
    apply andb_true_iff in F as [F Hv]. apply andb_true_iff in F as [Hlo Hhi].
    apply Z.leb_le in Hlo. apply Z.ltb_lt in Hhi. apply Z.eqb_eq in Hv. auto.
Qed.

Lemma imap_imap {A B C} (f : nat -> A -> B) (g : nat -> B -> C) (l : list A) :
  imap g (imap f l) = imap (fun j x => g j (f j x)) l.
Proof.
  apply list_eq. intros j. rewrite !list_lookup_imap.
  destruct (l !! j); reflexivity.
Qed.

Lemma remap_period_imap period sel i :
  0 <= period -> 1 <= i ->
  remap_period period sel i
  = imap (fun j x => if in_period period j i then remap_value i x else x) sel.
Proof.
  intros Hp Hi. unfold remap_period.
  rewrite !remap_where_imap by nia. rewrite imap_imap.
  apply imap_ext. intros j x _. unfold in_period, remap_value. simpl.
  destruct ((i * period <=? Z.of_nat j) && (Z.of_nat j <? (i + 1) * period));
    simpl; [|reflexivity].
  destruct (x =? 1) eqn:E1.
  - assert (H : (i + (i + 1) mod 2 =? 0) = false).
    { apply Z.eqb_neq. pose proof (Z.mod_pos_bound (i + 1) 2). lia. }
    rewrite H. reflexivity.
  - destruct (x =? 0); reflexivity.
Qed.

Lemma find_snoc {A} (f : A -> bool) (l : list A) x :
  find f (l ++ [x])
  = match find f l with
    | Some y0 => Some y0
    | None => if f x then Some x else None
    end.
Proof.
  induction l as [|a l IH]; simpl; [reflexivity|].
  destruct (f a); [reflexivity|exact IH].
Qed.

Lemma py_range_snoc a (m : nat) :
  py_range a (a + Z.of_nat (S m))
  = py_range a (a + Z.of_nat m) ++ [a + Z.of_nat m].
Proof.
  unfold py_range.
  replace (Z.to_nat (a + Z.of_nat (S m) - a)) with (S m) by lia.
  replace (Z.to_nat (a + Z.of_nat m - a)) with m by lia.
  rewrite seq_S, map_app. reflexivity.
Qed.

Lemma py_range_elem (a b i : Z) : i ∈ py_range a b -> a <= i < b.
Proof.
  unfold py_range. intros H.
  apply list_elem_of_In, in_map_iff in H as (k & <- & Hk).
  apply in_seq in Hk. lia.
Qed.

Lemma remap_value_bool i b :
  remap_value i (bool_to_int b)
  = if b then i + ((i + 1) mod 2) else i + (i mod 2).
Proof. destruct b; reflexivity. Qed.

(** The loop over the periods 1 .. m, elementwise. *)
Lemma remap_prefix period mask (m : nat) :
  0 <= period ->
  foldl (remap_period period) (map bool_to_int mask)
        (py_range 1 (1 + Z.of_nat m))
  = imap (fun j (b : bool) =>
            match find (in_period period j) (py_range 1 (1 + Z.of_nat m)) with
            | Some i => if b then i + ((i + 1) mod 2) else i + (i mod 2)
            | None => bool_to_int b
            end) mask.
Proof.
  intros Hp. induction m as [|m IH].
  - simpl. apply list_eq. intros j.
    rewrite list_lookup_imap, list_lookup_fmap. reflexivity.
  - rewrite py_range_snoc, foldl_app, IH. cbn [foldl].
    rewrite remap_period_imap by lia. rewrite imap_imap.
    apply imap_ext. intros j b _. cbn beta.
    rewrite find_snoc.
    destruct (find (in_period period j) (py_range 1 (1 + Z.of_nat m)))
      as [i'|] eqn:F.
    + apply find_some in F as [Hin Hper].
      apply list_elem_of_In, py_range_elem in Hin.
      assert (Hdis : in_period period j (1 + Z.of_nat m) = false).
      { apply not_true_is_false. intros Hper'.
        unfold in_period in Hper, Hper'.
        apply andb_true_iff in Hper as [_ H1]. apply Z.ltb_lt in H1.
        apply andb_true_iff in Hper' as [H2 _]. apply Z.leb_le in H2.
        nia. }
      rewrite Hdis. reflexivity.
    + destruct (in_period period j (1 + Z.of_nat m));
        [apply remap_value_bool | reflexivity].
Qed.

Lemma remap_concepts_stated n period mask :
  0 <= period ->
  remap_concepts n period (map bool_to_int mask)
  = imap (stated_concept n period false) mask.
Proof.
  intros Hp. unfold remap_concepts, stated_concept.
  replace (py_range 1 n) with (py_range 1 (1 + Z.of_nat (Z.to_nat (n - 1))))
    by (unfold py_range; do 2 f_equal; lia).
  apply remap_prefix. exact Hp.
Qed.

Lemma stated_concept_range n period reoc j b :
  0 < n -> 0 <= stated_concept n period reoc j b <= n.
Proof.
  intros Hn. unfold stated_concept. destruct reoc.
  - destruct b; simpl; lia.
  - destruct (find (in_period period j) (py_range 1 n)) as [i|] eqn:F.
    + apply find_some in F as [Hin _].
      apply list_elem_of_In, py_range_elem in Hin.
      pose proof (Z.mod_pos_bound (i + 1) 2).
      pose proof (Z.mod_pos_bound i 2). destruct b; lia.
    + destruct b; simpl; lia.
Qed.

Lemma np_random_rand_Ok n g noise g' :
  np_random_rand n g = (Ok noise, g') ->
  0 <= n /\ noise = draws g n /\ g' = (fun i => g (Z.to_nat n + i)%nat).
Proof.
  unfold np_random_rand. destruct (n <? 0) eqn:E; [discriminate|].
  apply Z.ltb_ge in E. intros H. injection H as <- <-. auto.
Qed.

Lemma draws_length g n : length (draws g n) = Z.to_nat n.
Proof. unfold draws. rewrite length_map, length_seq. reflexivity. Qed.

(** The comparison of two arrays whose lengths differ, neither being 1,
    fails; otherwise it is the elementwise comparison on the common
    prefix whenever one side is empty or the lengths agree. *)
Lemma np_less_mismatch a b :
  length a <> length b -> length a <> 1%nat -> length b <> 1%nat ->
  np_less a b = Raise ShapeMismatch.
Proof.
  intros Hne Ha Hb. unfold np_less.
  apply Nat.eqb_neq in Hne. rewrite Hne.
  destruct a as [|x [|x' a]]; destruct b as [|y0 [|y' b]];
    simpl in *; try reflexivity; lia.
Qed.

Lemma np_less_zip a b mask :
  np_less a b = Ok mask ->
  length a = length b \/ a = [] \/ b = [] ->
  mask = zip_with Qltb a b.
Proof.
  unfold np_less. intros H Hcase.
  destruct (length a =? length b)%nat eqn:E; [congruence|].
  apply Nat.eqb_neq in E.
  destruct Hcase as [Heq|[-> | ->]]; [lia| |].
  - destruct b as [|y0 [|y' b]]; simpl in *; congruence.
  - destruct a as [|x [|x' a]]; simpl in *; try congruence.
Qed.

Lemma imap_ignore_index {A B} (f : A -> B) (l : list A) :
  imap (fun _ => f) l = map f l.
Proof.
  apply list_eq. intros j. rewrite list_lookup_imap, list_lookup_fmap.
  reflexivity.
Qed.

Section Selectors.

Variable logistic_cdf : Q -> Q.
Variable make_classification : Z -> Z -> Z -> list Q -> Result ndarray.

Abbreviation select_concepts' := (select_concepts logistic_cdf).
Abbreviation build_concepts' := (build_concepts make_classification).
Abbreviation materialize'' := (materialize logistic_cdf make_classification).
Abbreviation get_chunk'' := (get_chunk logistic_cdf make_classification).

(** The steps of a run of [select_concepts] that succeeds. *)
Lemma select_concepts_inv self g sel g' :
  select_concepts' self g = (Ok sel, g') ->
  exists period probability mask,
    _sigmoid logistic_cdf self (concept_sigmoid_spacing self) (n_drifts self)
    = Ok (period, probability)
    /\ 0 <= n_samples self
    /\ g' = (fun i => g (Z.to_nat (n_samples self) + i)%nat)
    /\ np_less probability (draws g (n_samples self)) = Ok mask
    /\ sel = (if negb (reocurring self)
              then remap_concepts (n_drifts self) period (map bool_to_int mask)
              else map bool_to_int mask).
Proof.
  unfold select_concepts. intros H.
  apply bind_Ok in H as ([period probability] & g1 & Hs & H).
  apply lift_Ok in Hs as [Hs ->].
  apply bind_Ok in H as (noise & g2 & Hr & H).
  apply np_random_rand_Ok in Hr as (Ht & -> & ->).
  apply bind_Ok in H as (mask & g3 & Hl & H).
  apply lift_Ok in Hl as [Hl ->].
  apply ret_Ok in H as [-> ->].
  exists period, probability, mask. auto.
Qed.

(** A run of the selection that succeeds returns the selector as the
    specification states it. *)
Lemma select_concepts_stated self g sel g' :
  0 < n_drifts self ->
  select_concepts' self g = (Ok sel, g') ->
  exists period probability,
    _sigmoid logistic_cdf self (concept_sigmoid_spacing self) (n_drifts self)
    = Ok (period, probability)
    /\ sel = stated_selector (n_drifts self) period (reocurring self)
               probability (draws g (n_samples self)).
Proof.
  intros Hn H.
  destruct (select_concepts_inv self g sel g' H)
    as (period & probability & mask & Hs & Ht & _ & Hl & Hsel).
  exists period, probability. split; [exact Hs|].
  destruct (sigmoid_probabilities logistic_cdf self
              (concept_sigmoid_spacing self) (n_drifts self) Ht Hn)
    as (probs' & Hs' & Hlen).
  rewrite Hs in Hs'. injection Hs' as -> <-.
  assert (Hp : 0 <= n_samples self / n_drifts self) by (apply Z.div_pos; lia).
  assert (Hmask : mask = zip_with Qltb probability (draws g (n_samples self))).
  { apply np_less_zip; [exact Hl|].
    pose proof (draws_length g (n_samples self)) as Hd.
    destruct (decide (length probability = length (draws g (n_samples self))))
      as [Heq|Hne]; [left; exact Heq|]. right.
    destruct (decide (length probability = 1%nat)) as [H1|H1].
    { exfalso.
      assert (Hprod : n_drifts self * (n_samples self / n_drifts self) = 1)
        by lia.
      apply Z.eq_mul_1_nonneg in Hprod as [E1 E2]; [|lia].
      rewrite E1, Z.div_1_r in E2.
      apply Hne. rewrite Hd, H1. lia. }
    destruct (decide (length (draws g (n_samples self)) = 1%nat)) as [H2|H2].
    { left. apply length_zero_iff_nil.
      assert (Hts : n_samples self = 1) by lia.
      destruct (decide (n_drifts self = 1)) as [E1|E1].
      - exfalso. apply Hne. rewrite Hd. rewrite E1, Z.div_1_r in Hlen. lia.
      - assert (Hq : n_samples self / n_drifts self = 0)
          by (rewrite Hts; apply Z.div_small; lia).
        rewrite Hq in Hlen. lia. }
    rewrite (np_less_mismatch _ _ Hne H1 H2) in Hl. discriminate. }
  rewrite Hsel. unfold stated_selector. rewrite <- Hmask.
  destruct (reocurring self); simpl.
  - unfold stated_concept. symmetry. apply imap_ignore_index.
  - apply remap_concepts_stated. exact Hp.
Qed.

(** C2.  With drifts, the concept selector is the comparison of the
    probabilities with the noise, 1 where [probability < noise] and 0
    elsewhere, remapped inside the periods 1 .. n_drifts - 1 when the drift
    is not reoccurring; all its values lie in [0, n_drifts]. *)
Theorem concept_selector_computation self g sel g' :
  0 < n_drifts self ->
  select_concepts' self g = (Ok sel, g') ->
  exists period probability,
    _sigmoid logistic_cdf self (concept_sigmoid_spacing self) (n_drifts self)
    = Ok (period, probability)
    /\ sel = stated_selector (n_drifts self) period (reocurring self)
               probability (draws g (n_samples self))
    /\ Forall (fun v => 0 <= v <= n_drifts self) sel.
Proof.
  intros Hn H.
  destruct (select_concepts_stated self g sel g' Hn H)
    as (period & probability & Hs & Heq).
  exists period, probability. split; [exact Hs|]. split; [exact Heq|].
  rewrite Heq. unfold stated_selector. apply Forall_lookup. intros j v Hv.
  rewrite list_lookup_imap in Hv.
  destruct (zip_with Qltb probability (draws g (n_samples self)) !! j)
    as [b|]; [|discriminate].
  simpl in Hv. injection Hv as <-. apply stated_concept_range. exact Hn.
Qed.

Lemma np_array_shape l c :
  np_array l = Ok c -> l <> [] -> exists s, shape c = length l :: s.
Proof.
  unfold np_array. destruct l as [|a l]; [congruence|].
  destruct (forallb _ _); [|discriminate].
  intros H _. injection H as <-. simpl. eauto.
Qed.

(** The steps of a materialisation that succeeds. *)
Lemma materialize_inv self g a g' :
  materialize'' self g = (Ok a, g') ->
  exists concepts0 g1 noise chosen,
    build_concepts' self = Ok concepts0
    /\ (if 0 <? n_drifts self
        then exists s, select_concepts' self g = (Ok s, g1)
                       /\ concept_selector a = Some s
                       /\ np_choose s concepts0 = Ok (concepts a)
        else concept_selector a = None /\ g1 = g
             /\ concepts a = np_squeeze concepts0)
    /\ np_random_rand (n_samples self) g1 = (Ok noise, g')
    /\ select_classes logistic_cdf self noise = Ok (class_selector a)
    /\ np_choose (class_selector a) (concepts a) = Ok chosen
    /\ X a = transpose chosen /\ y a = class_selector a.
Proof.
  unfold materialize. intros H.
  apply bind_Ok in H as (concepts0 & g0 & Hb & H).
  apply lift_Ok in Hb as [Hb ->].
  apply bind_Ok in H as (cs & g1 & Hcs & H).
  apply bind_Ok in H as (noise & g2 & Hr & H).
  apply bind_Ok in H as (sel & g3 & Hsel & H).
  apply lift_Ok in Hsel as [Hsel ->].
  apply bind_Ok in H as (concepts1 & g4 & Hc1 & H).
  apply lift_Ok in Hc1 as [Hc1 ->].
  apply bind_Ok in H as (chosen & g5 & Hch & H).
  apply lift_Ok in Hch as [Hch ->].
  apply ret_Ok in H as [-> ->]. simpl.
  exists concepts0, g1, noise, chosen.
  split; [exact Hb|]. split; [|auto].
  destruct (0 <? n_drifts self).
  - apply bind_Ok in Hcs as (s & g6 & Hs & Hret).
    apply ret_Ok in Hret as [-> ->]. exists s. auto.
  - apply ret_Ok in Hcs as [-> ->]. injection Hc1 as <-. auto.
Qed.


End Selectors.

(** ** The labels *)

Lemma uniform_shift g k : uniform g -> uniform (fun i => g (k + i)%nat).
Proof. intros H i. apply H. Qed.

Lemma draws_uniform g n :
  uniform g -> Forall (fun x => (0 <= x)%Q /\ (x < 1)%Q) (draws g n).
Proof.
  intros H. unfold draws. apply Forall_forall. intros x Hx.
  apply list_elem_of_In, in_map_iff in Hx as (k & <- & _). apply H.
Qed.

(** [floor(noise * n_classes)] of a noise in [0, 1) is a class. *)
Lemma Qtrunc_scale x c :
  (0 <= x)%Q -> (x < 1)%Q -> 0 < c -> 0 <= Qtrunc (x * inject_Z c) < c.
Proof.
  destruct x as [p q]. unfold Qle, Qlt, Qtrunc. simpl.
  intros Hp Hq Hc. rewrite Pos.mul_1_r.
  rewrite Z.quot_div_nonneg by nia. split.
  - apply Z.div_pos; nia.
  - apply Z.div_lt_upper_bound; nia.
Qed.

Lemma bool_to_int_range b : 0 <= bool_to_int b < 2.
Proof. destruct b; simpl; lia. Qed.

Lemma keeps_ret {A} (a : A) : keeps_uniform (ret a).
Proof. intros g Hg. exact Hg. Qed.

Lemma keeps_lift {A} (r : Result A) : keeps_uniform (lift r).
Proof. intros g Hg. exact Hg. Qed.

Lemma keeps_rand n : keeps_uniform (np_random_rand n).
Proof.
  intros g Hg. unfold np_random_rand.
  destruct (n <? 0); simpl; [exact Hg | apply uniform_shift, Hg].
Qed.

Lemma keeps_bind {A B} (m : M A) (k : A -> M B) :
  keeps_uniform m -> (forall a, keeps_uniform (k a)) ->
  keeps_uniform (bind m k).
Proof.
  intros Hm Hk g Hg. unfold bind. specialize (Hm g Hg).
  destruct (m g) as [[a|e] g1]; simpl in Hm |- *; [apply Hk, Hm | exact Hm].
Qed.

Section Labels.

Variable logistic_cdf : Q -> Q.
Variable make_classification : Z -> Z -> Z -> list Q -> Result ndarray.

Abbreviation materialize3 := (materialize logistic_cdf make_classification).
Abbreviation get_chunk3 := (get_chunk logistic_cdf make_classification).
Abbreviation get_chunks3 := (get_chunks logistic_cdf make_classification).

Lemma select_classes_range self noise sel :
  0 < n_classes self ->
  weights_precondition self ->
  Forall (fun x => (0 <= x)%Q /\ (x < 1)%Q) noise ->
  select_classes logistic_cdf self noise = Ok sel ->
  Forall (fun l => 0 <= l < n_classes self) sel.
Proof.
  intros Hc Hw Hnoise. unfold select_classes, weights_precondition in *.
  destruct (weights self) as [|ws|nb sp amp].
  - intros H. injection H as <-. apply Forall_forall. intros l Hl.
    apply list_elem_of_In, in_map_iff in Hl as (x & <- & Hx).
    rewrite Forall_forall in Hnoise.
    destruct (Hnoise x) as [H0 H1]; [apply list_elem_of_In; exact Hx|].
    apply Qtrunc_scale; assumption.
  - intros H. injection H as <-. unfold static_selector. rewrite static_loop.
    simpl. destruct Hw as [Hlen _]. apply Forall_forall. intros l Hl.
    apply list_elem_of_In, in_map_iff in Hl as (x & <- & _).
    pose proof (largest_exceeded_lt x ws (length ws) ltac:(lia)). lia.
  - intros H. apply rbind_Ok in H as (pp & _ & H).
    apply rbind_Ok in H as (mask & _ & H). injection H as <-.
    rewrite Hw. apply Forall_forall. intros l Hl.
    apply list_elem_of_In, in_map_iff in Hl as (b & <- & _).
    apply bool_to_int_range.
Qed.

(** Materialisation keeps the generator uniform, whatever its outcome. *)
Lemma select_concepts_keeps self :
  keeps_uniform (select_concepts logistic_cdf self).
Proof.
  unfold select_concepts.
  apply keeps_bind; [apply keeps_lift|]. intros [period probability].
  apply keeps_bind; [apply keeps_rand|]. intros noise.
  apply keeps_bind; [apply keeps_lift|]. intros mask. apply keeps_ret.
Qed.

Lemma select_concepts_uniform self g :
  uniform g -> uniform (snd (select_concepts logistic_cdf self g)).
Proof. apply select_concepts_keeps. Qed.

Lemma materialize_uniform self g :
  uniform g -> uniform (snd (materialize3 self g)).
Proof.
  revert g. change (keeps_uniform (materialize3 self)). unfold materialize.
  apply keeps_bind; [apply keeps_lift|]. intros c0.
  apply keeps_bind.
  { destruct (0 <? n_drifts self); [|apply keeps_ret].
    apply keeps_bind; [apply select_concepts_keeps|]. intros s.
    apply keeps_ret. }
  intros cs.
  apply keeps_bind; [apply keeps_rand|]. intros noise.
  apply keeps_bind; [apply keeps_lift|]. intros sel.
  apply keeps_bind; [apply keeps_lift|]. intros c1.
  apply keeps_bind; [apply keeps_lift|]. intros chosen. apply keeps_ret.
Qed.

(** What a successful materialisation leaves as labels. *)
Lemma materialize_labels self g a g' :
  0 < n_classes self -> weights_precondition self -> uniform g ->
  materialize3 self g = (Ok a, g') ->
  y a = class_selector a
  /\ Forall (fun l => 0 <= l < n_classes self) (class_selector a).
Proof.
  intros Hc Hw Hg Hm.
  destruct (materialize_inv logistic_cdf make_classification self g a g' Hm)
    as (c0 & g1 & noise & chosen & _ & Hcs & Hr & Hsel & _ & _ & Hy).
  split; [exact Hy|].
  assert (Hg1 : uniform g1).
  { destruct (0 <? n_drifts self).
    - destruct Hcs as (s & Hs & _).
      pose proof (select_concepts_uniform self g Hg) as Hu.
      rewrite Hs in Hu. exact Hu.
    - destruct Hcs as (_ & -> & _). exact Hg. }
  apply np_random_rand_Ok in Hr as (_ & -> & _).
  apply (select_classes_range self (draws g1 (n_samples self)));
    [exact Hc | exact Hw | apply draws_uniform, Hg1 | exact Hsel].
Qed.

(** Once the cursor attributes lack [current_chunk], every call raises. *)
Lemma get_chunks_stuck k : forall self a g,
  attrs self = Some a -> current_chunk a = None ->
  get_chunks3 k self g = (replicate k (Raise MissingCurrentChunk), self, g).
Proof.
  induction k as [|k IH]; intros self a g Hattrs Hcur; [reflexivity|].
  cbn [get_chunks]. unfold get_chunk at 1, bind, raise.
  rewrite Hattrs, Hcur. rewrite (IH self a g Hattrs Hcur). reflexivity.
Qed.

Lemma py_slice_Forall {A} (P : A -> Prop) (l : list A) start stop :
  Forall P l -> Forall P (py_slice l start stop).
Proof. intros H. unfold py_slice. apply Forall_take, Forall_drop, H. Qed.

(** C6, for at least one class.  Under the stated preconditions on
    [weights] and with [n_classes >= 1], every chunk that a run of calls on
    a fresh object returns carries labels in [0, n_classes); the chunk is
    the sample range of some chunk number [id], its labels being the class
    selector on that range. *)
Theorem label_range k : forall self g rs self' g',
  attrs self = None ->
  0 < n_classes self ->
  weights_precondition self ->
  uniform g ->
  get_chunks3 k self g = (rs, self', g') ->
  forall features labels,
    Ok (Some (features, labels)) ∈ rs ->
    Forall (fun l => 0 <= l < n_classes self) labels
    /\ exists a id,
         attrs self' = Some a
         /\ 0 <= id < n_chunks self
         /\ features = nd_slice (X a) (chunk_size self * id)
                         (chunk_size self * id + chunk_size self)
         /\ labels = py_slice (class_selector a) (chunk_size self * id)
                       (chunk_size self * id + chunk_size self).
Proof.
  induction k as [|k IH]; intros self g rs self' g' Hattrs Hc Hw Hg Hrun
                                 features labels Hin.
  - simpl in Hrun. injection Hrun as <- _ _. inversion Hin.
  - destruct (materialize3 self g) as [[a|e] g1] eqn:Hm.
    + destruct (materialize_labels self g a g1 Hc Hw Hg Hm) as [Hy Hrange].
      destruct (get_chunk_fresh logistic_cdf make_classification self g a g1 Hattrs Hm)
        as (s1 & a1 & Hcall & Hattrs1 & Hp1 & Hs1 & Hid1 & Hcur1).
      cbn [get_chunks] in Hrun. rewrite Hcall in Hrun.
      assert (Hlabels : forall id lab feat,
                 reply self a id = Some (feat, lab) ->
                 Forall (fun l => 0 <= l < n_classes self) lab
                 /\ id < n_chunks self
                 /\ feat = nd_slice (X a) (chunk_size self * id)
                             (chunk_size self * id + chunk_size self)
                 /\ lab = py_slice (class_selector a) (chunk_size self * id)
                            (chunk_size self * id + chunk_size self)).
      { intros id lab feat Hr. unfold reply, chunk_of in Hr.
        destruct (id <? n_chunks self) eqn:E; [|discriminate].
        apply Z.ltb_lt in E. injection Hr as <- <-. rewrite Hy.
        split; [apply py_slice_Forall, Hrange | auto]. }
      destruct (current_chunk a1) as [c1|] eqn:Hc1.
      * destruct (get_chunks_ready logistic_cdf make_classification k s1 a1 g1 Hattrs1 ltac:(rewrite Hc1; eauto))
          as (s2 & a2 & Hrest & Hattrs2 & Hp2 & Hs2 & _).
        rewrite Hrest in Hrun.
        assert (Hrs : rs = Ok (reply self a 0)
                           :: map (fun j => Ok (reply s1 a1
                                      (chunk_id a1 + 1 + Z.of_nat j))) (seq 0 k))
          by congruence.
        assert (Hself : self' = s2) by congruence. subst rs self'.
        assert (Hsel2 : class_selector a2 = class_selector a /\ X a2 = X a).
        { destruct Hs1 as (_ & _ & E1 & E1' & _).
          destruct Hs2 as (_ & _ & E2 & E2' & _). split; congruence. }
        destruct Hsel2 as [Hsel2 HX2].
        apply elem_of_cons in Hin as [Hin|Hin].
        -- injection Hin as Hin. symmetry in Hin.
           destruct (Hlabels _ _ _ Hin) as (H1 & H2 & H3 & H4).
           split; [exact H1|]. exists a2, 0. rewrite Hsel2, HX2.
           split; [exact Hattrs2|]. split; [lia|]. auto.
        -- apply list_elem_of_In, in_map_iff in Hin as (j & Hj & _).
           injection Hj as Hj. rewrite (reply_same self s1 a a1) in Hj
             by assumption.
           destruct (Hlabels _ _ _ Hj) as (H1 & H2 & H3 & H4).
           split; [exact H1|]. exists a2, (chunk_id a1 + 1 + Z.of_nat j).
           rewrite Hsel2, HX2.
           split; [exact Hattrs2|]. split; [lia|]. auto.
      * rewrite (get_chunks_stuck k s1 a1 g1 Hattrs1 Hc1) in Hrun.
        assert (Hrs : rs = Ok (reply self a 0)
                           :: replicate k (Raise MissingCurrentChunk))
          by congruence.
        assert (Hself : self' = s1) by congruence. subst rs self'.
        apply elem_of_cons in Hin as [Hin|Hin].
        -- injection Hin as Hin. symmetry in Hin.
           destruct (Hlabels _ _ _ Hin) as (H1 & H2 & H3 & H4).
           split; [exact H1|]. exists a1, 0.
           destruct Hs1 as (_ & _ & -> & -> & _).
           split; [exact Hattrs1|]. split; [lia|]. auto.
        -- apply elem_of_replicate in Hin as [Hin _]. discriminate.
    + cbn [get_chunks] in Hrun.
      rewrite (get_chunk_fresh_raise logistic_cdf make_classification self g e g1 Hattrs Hm) in Hrun.
      destruct (get_chunks3 k self g1) as [[rs1 s2] g2] eqn:Hrest.
      assert (Hrs : rs = Raise e :: rs1) by congruence.
      assert (Hself : self' = s2) by congruence. subst rs self'.
      apply elem_of_cons in Hin as [Hin|Hin]; [discriminate|].
      pose proof (materialize_uniform self g Hg) as Hg1. rewrite Hm in Hg1.
      exact (IH self g1 rs1 s2 g2 Hattrs Hc Hw Hg1 Hrest features labels Hin).
Qed.

End Labels.

(** ** Streams whose length the number of drifts does not divide *)

Lemma py_range_cons a b : a < b -> py_range a b = a :: py_range (a + 1) b.
Proof.
  intros H. unfold py_range.
  replace (Z.to_nat (b - a)) with (S (Z.to_nat (b - (a + 1)))) by lia.
  cbn [seq map]. rewrite <- seq_shift, map_map. f_equal; [lia|].
  apply map_ext. intros k. lia.
Qed.

Lemma linspace_negative a b num :
  num < 0 -> linspace a b num = Raise LinspaceNegative.
Proof.
  intros H. unfold linspace. apply Z.ltb_lt in H. rewrite H. reflexivity.
Qed.

Section Indivisible.

Variable logistic_cdf : Q -> Q.
Variable make_classification : Z -> Z -> Z -> list Q -> Result ndarray.

Abbreviation get_chunk4 := (get_chunk logistic_cdf make_classification).
Abbreviation get_chunks4 := (get_chunks logistic_cdf make_classification).

(** With drifts that do not divide the number of samples, the selection
    of the concepts raises, unless there is exactly one sample. *)
Lemma select_concepts_indivisible self g :
  0 < n_drifts self ->
  n_samples self mod n_drifts self <> 0 ->
  n_samples self <> 1 ->
  exists e g',
    select_concepts logistic_cdf self g = (Raise e, g')
    /\ (0 <= n_samples self -> e = ShapeMismatch).
Proof.
  intros Hn Hmod H1. unfold select_concepts, bind, lift.
  destruct (Z_lt_le_dec (n_samples self) 0) as [Hneg|Hpos].
  - destruct (Z_lt_le_dec (int_div (n_samples self) (n_drifts self)) 0)
      as [Hp|Hp].
    + exists LinspaceNegative, g. split; [|lia].
      unfold _sigmoid. apply Z.ltb_lt in Hn. rewrite Hn.
      apply Z.ltb_lt in Hn. rewrite (py_range_cons 0) by lia.
      cbn [rmapM]. rewrite sigmoid_ramp_eq, linspace_negative by exact Hp.
      reflexivity.
    + destruct (sigmoid_drifting logistic_cdf self
                  (concept_sigmoid_spacing self) (n_drifts self) Hn Hp)
        as (ramps & _ & ->).
      exists NegativeDimensions, g. split; [|lia].
      unfold np_random_rand. apply Z.ltb_lt in Hneg. rewrite Hneg.
      reflexivity.
  - destruct (sigmoid_probabilities logistic_cdf self
                (concept_sigmoid_spacing self) (n_drifts self) Hpos Hn)
      as (probability & -> & Hlen).
    pose proof (Z.mod_pos_bound (n_samples self) (n_drifts self) Hn) as Hbound.
    pose proof (Z.div_mod (n_samples self) (n_drifts self) ltac:(lia)) as Hdm.
    exists ShapeMismatch, (fun i => g (Z.to_nat (n_samples self) + i)%nat).
    split; [|reflexivity].
    unfold np_random_rand.
    assert (E : (n_samples self <? 0) = false) by (apply Z.ltb_ge; exact Hpos).
    rewrite E. fold (draws g (n_samples self)).
    rewrite np_less_mismatch; [reflexivity| | |].
    + rewrite draws_length. lia.
    + intros Hone.
      assert (Hprod : n_drifts self * (n_samples self / n_drifts self) = 1)
        by lia.
      apply Z.eq_mul_1_nonneg in Hprod as [E1 E2]; [|lia].
      rewrite E1, Z.mod_1_r in Hmod. lia.
    + rewrite draws_length. lia.
Qed.

(** C10, with the exception of one sample.  With drifts that do not divide
    the number of samples, and a number of samples other than 1, the first
    call raises and returns no chunk, as does every later call; the
    exception is the shape mismatch of the comparison whenever the number
    of samples is not negative and the concepts could be built. *)
Theorem indivisible_stream_fails self :
  attrs self = None ->
  0 < n_drifts self ->
  n_samples self mod n_drifts self <> 0 ->
  n_samples self <> 1 ->
  (forall g, exists e g',
      get_chunk4 self g = (Raise e, g')
      /\ (0 <= n_samples self ->
          is_Ok (build_concepts make_classification self) = true ->
          e = ShapeMismatch))
  /\ forall k g, Forall (fun r => exists e, r = Raise e)
                        (fst (fst (get_chunks4 k self g))).
Proof.
  intros Hattrs Hn Hmod H1.
  assert (Hfirst : forall g, exists e g',
             get_chunk4 self g = (Raise e, g')
             /\ (0 <= n_samples self ->
                 is_Ok (build_concepts make_classification self) = true ->
                 e = ShapeMismatch)).
  { intros g. unfold get_chunk, bind at 1. rewrite Hattrs.
    unfold materialize, bind at 1, lift at 1.
    destruct (build_concepts make_classification self) as [c0|e].
    - unfold bind at 1. apply Z.ltb_lt in Hn. rewrite Hn.
      apply Z.ltb_lt in Hn.
      destruct (select_concepts_indivisible self g Hn Hmod H1)
        as (e & g' & Hsel & He).
      unfold bind at 1. rewrite Hsel. exists e, g'. split; [reflexivity|].
      intros Ht _. apply He, Ht.
    - exists e, g. split; [reflexivity|]. simpl. discriminate. }
  split; [exact Hfirst|].
  induction k as [|k IH]; intros g; [constructor|].
  destruct (Hfirst g) as (e & g' & Hcall & _).
  cbn [get_chunks]. rewrite Hcall.
  specialize (IH g'). destruct (get_chunks4 k self g') as [[rs s2] g2].
  simpl in *. constructor; [eauto | exact IH].
Qed.

End Indivisible.

(** ** Concrete runs *)

Lemma example_random_uniform : uniform example_random.
Proof.
  intros k. unfold example_random.
  destruct (Nat.even k); split; reflexivity || discriminate.
Qed.

(** The labels of the first chunk of a stationary stream with uniform
    balance are the truncated products of the global generator's draws
    with the number of classes: they follow the state of that generator,
    whatever [random_state] is. *)
Lemma stationary_labels_follow_global_noise cdf oracle self g features labels
    self' g' :
  attrs self = None ->
  n_drifts self <= 0 ->
  weights self = WeightsNone ->
  get_chunk cdf oracle self g = (Ok (Some (features, labels), self'), g') ->
  labels
  = py_slice (map (fun x => Qtrunc (x * inject_Z (n_classes self)))
                  (draws g (n_samples self)))
             0 (chunk_size self).
Proof.
  intros Hattrs Hn Hw Hcall.
  destruct (first_chunk_inv cdf oracle self g _ self' g' Hattrs Hcall)
    as (a & Hm & _).
  destruct (get_chunk_fresh cdf oracle self g a g' Hattrs Hm)
    as (s1 & a1 & Hc & _).
  rewrite Hc in Hcall. injection Hcall as Hr _.
  unfold reply, chunk_of in Hr.
  destruct (0 <? n_chunks self); [|discriminate].
  injection Hr as _ <-.
  destruct (materialize_inv cdf oracle self g a g' Hm)
    as (c0 & g1 & noise & chosen & _ & Hcs & Hrand & Hsel & _ & _ & Hy).
  apply Z.ltb_ge in Hn. rewrite Hn in Hcs. destruct Hcs as (_ & -> & _).
  apply np_random_rand_Ok in Hrand as (_ & -> & _).
  unfold select_classes in Hsel. rewrite Hw in Hsel. injection Hsel as Hsel.
  rewrite Hy, <- Hsel, Z.mul_0_r, Z.add_0_l. reflexivity.
Qed.

(** C1 fails on the code: the noise comes from the global generator, which
    the generator object never seeds.  Two objects built with the same
    parameters and asked for their first chunk one after the other get
    different labels. *)
Lemma unseeded_noise_breaks_reproducibility :
  returned (get_chunk example_cdf example_make_classification
              (init 1 1 1410 0 None 2 false WeightsNone) example_random)
  = Ok (Some (mk_ndarray [1%nat] [1410%Q], [0]))
  /\ returned (get_chunk example_cdf example_make_classification
                 (init 1 1 1410 0 None 2 false WeightsNone)
                 (snd (get_chunk example_cdf example_make_classification
                         (init 1 1 1410 0 None 2 false WeightsNone)
                         example_random)))
     = Ok (Some (mk_ndarray [1%nat] [1410%Q], [1])).
Proof. split; vm_compute; reflexivity. Qed.

(** C2 on a stream of two chunks of two samples with two drifts. *)
Lemma concept_selector_witness :
  exists period probability,
    _sigmoid example_cdf (init 2 2 1410 2 (Some 1%Q) 2 false WeightsNone)
      (Some 1%Q) 2
    = Ok (period, probability)
    /\ [0; 1; 2; 2]
       = stated_selector 2 period false probability (draws example_random 4)
    /\ Forall (fun v => 0 <= v <= 2) [0; 1; 2; 2].
Proof.
  apply (concept_selector_computation example_cdf
           (init 2 2 1410 2 (Some 1%Q) 2 false WeightsNone) example_random
           [0; 1; 2; 2]
           (snd (select_concepts example_cdf
                   (init 2 2 1410 2 (Some 1%Q) 2 false WeightsNone)
                   example_random))).
  - vm_compute. reflexivity.
  - vm_compute. reflexivity.
Defined.


(** C4 on a stationary stream of two chunks. *)
Lemma stream_exhaustion_witness :
  exists rs self' g',
    get_chunks example_cdf example_make_classification 2
      (init 2 2 1410 0 None 2 false WeightsNone) example_random
    = (rs, self', g')
    /\ length rs = 2%nat
    /\ Forall successful rs
    /\ forall m, fst (fst (get_chunks example_cdf example_make_classification
                             m self' g'))
                 = replicate m (Ok None).
Proof.
  eapply (stream_exhaustion example_cdf example_make_classification
            (init 2 2 1410 0 None 2 false WeightsNone) example_random).
  - reflexivity.
  - vm_compute. reflexivity.
Defined.

(** C5 on the same stream, after two calls. *)
Lemma is_dry_contract_witness :
  is_dry (init 2 2 1410 0 None 2 false WeightsNone) = false
  /\ exists a,
       attrs (snd (fst (get_chunks example_cdf example_make_classification 2
                          (init 2 2 1410 0 None 2 false WeightsNone)
                          example_random)))
       = Some a
       /\ chunk_id a = 1
       /\ is_dry (snd (fst (get_chunks example_cdf example_make_classification
                              2 (init 2 2 1410 0 None 2 false WeightsNone)
                              example_random)))
          = true.
Proof.
  destruct (is_dry_contract example_cdf example_make_classification
              (init 2 2 1410 0 None 2 false WeightsNone) eq_refl)
    as [Hfresh Hcalls].
  split; [exact Hfresh|].
  destruct (Hcalls example_random 2%nat
              (fst (fst (get_chunks example_cdf example_make_classification 2
                           (init 2 2 1410 0 None 2 false WeightsNone)
                           example_random)))
              (snd (fst (get_chunks example_cdf example_make_classification 2
                           (init 2 2 1410 0 None 2 false WeightsNone)
                           example_random)))
              (snd (get_chunks example_cdf example_make_classification 2
                      (init 2 2 1410 0 None 2 false WeightsNone)
                      example_random)))
    as (a & Hattrs & Hid & _ & Hdry).
  - lia.
  - vm_compute. reflexivity.
  - vm_compute. repeat constructor; eexists; reflexivity.
  - exists a. split; [exact Hattrs|]. split; [exact Hid|].
    apply Hdry. reflexivity.
Defined.

(** C6 (for at least one class) on the same stream: its first chunk. *)
Lemma label_range_witness :
  Forall (fun l => 0 <= l < 2) [0; 1]
  /\ exists a id,
       attrs (snd (fst (get_chunks example_cdf example_make_classification 2
                          (init 2 2 1410 0 None 2 false WeightsNone)
                          example_random)))
       = Some a
       /\ 0 <= id < 2
       /\ mk_ndarray [2%nat; 2%nat] [1410%Q; 1411%Q; 1412%Q; 1413%Q]
          = nd_slice (X a) (2 * id) (2 * id + 2)
       /\ [0; 1] = py_slice (class_selector a) (2 * id) (2 * id + 2).
Proof.
  eapply (label_range example_cdf example_make_classification 2
            (init 2 2 1410 0 None 2 false WeightsNone) example_random
            _ _ _
            (eq_refl : attrs (init 2 2 1410 0 None 2 false WeightsNone) = None)).
  - vm_compute. reflexivity.
  - exact I.
  - exact example_random_uniform.
  - vm_compute. reflexivity.
  - apply elem_of_cons. left. reflexivity.
Defined.

(** C6 as stated fails without classes: with [n_classes = 0], reoccurring
    drift and one sample the first call returns a chunk whose only label
    is 0, which is not in [0, 0). *)
Lemma label_range_counterexample :
  weights_precondition (init 1 1 1410 0 None 0 true WeightsNone)
  /\ uniform example_random
  /\ returned (get_chunk example_cdf example_make_classification
                 (init 1 1 1410 0 None 0 true WeightsNone) example_random)
     = Ok (Some (mk_ndarray [0%nat] [], [0]))
  /\ ~ Forall (fun l => 0 <= l < n_classes (init 1 1 1410 0 None 0 true
                                              WeightsNone)) [0].
Proof.
  split; [exact I|]. split; [exact example_random_uniform|].
  split; [vm_compute; reflexivity|].
  intros H. inversion H as [|? ? Hl _]; subst. simpl in Hl. lia.
Qed.



(** C9 on five samples and two drifts: period 2, four probabilities. *)
Lemma sigmoid_shape_witness :
  exists probabilities,
    _sigmoid example_cdf (init 1 5 1410 2 None 2 false WeightsNone) None 2
    = Ok (5 / 2, probabilities)
    /\ Z.of_nat (length probabilities) = 2 * (5 / 2)
    /\ Z.of_nat (length probabilities) = 5 - 5 mod 2
    /\ 0 <= 5 mod 2 <= 2 - 1
    /\ (5 mod 2 <> 0 -> Z.of_nat (length probabilities) < 5).
Proof.
  apply (proj2 (sigmoid_shape example_cdf
                  (init 1 5 1410 2 None 2 false WeightsNone) None 2
                  ltac:(vm_compute; discriminate))).
  reflexivity.
Defined.

(** C10 (for more than one sample) on three samples and two drifts. *)
Lemma indivisible_stream_fails_witness :
  exists e g',
    get_chunk example_cdf example_make_classification
      (init 1 3 1410 2 None 2 false WeightsNone) example_random = (Raise e, g')
    /\ (0 <= 3 -> is_Ok (build_concepts example_make_classification
                           (init 1 3 1410 2 None 2 false WeightsNone)) = true ->
        e = ShapeMismatch).
Proof.
  apply (proj1 (indivisible_stream_fails example_cdf example_make_classification
                  (init 1 3 1410 2 None 2 false WeightsNone)
                  eq_refl
                  ltac:(vm_compute; reflexivity)
                  ltac:(vm_compute; discriminate)
                  ltac:(vm_compute; discriminate)) example_random).
Defined.

(** C10 as stated fails for one sample: with two drifts over one sample
    the probability sequence is empty, NumPy broadcasts it against the
    one-element noise, and the first call returns a chunk, with a label
    and no feature row. *)
Lemma indivisible_stream_counterexample :
  0 < n_drifts (init 1 1 1410 2 None 2 false WeightsNone)
  /\ n_samples (init 1 1 1410 2 None 2 false WeightsNone)
       mod n_drifts (init 1 1 1410 2 None 2 false WeightsNone) <> 0
  /\ returned (get_chunk example_cdf example_make_classification
                 (init 1 1 1410 2 None 2 false WeightsNone) example_random)
     = Ok (Some (mk_ndarray [0%nat; 2%nat] [], [1])).
Proof.
  split; [vm_compute; reflexivity|].
  split; [vm_compute; discriminate|].
  vm_compute. reflexivity.
Qed.

(** * Further properties *)

(** ** The cursor attributes over a run of calls *)

Section Bookkeeping.

Variable logistic_cdf : Q -> Q.
Variable make_classification : Z -> Z -> Z -> list Q -> Result ndarray.

Abbreviation materialize5 := (materialize logistic_cdf make_classification).
Abbreviation get_chunk5 := (get_chunk logistic_cdf make_classification).
Abbreviation get_chunks5 := (get_chunks logistic_cdf make_classification).

(** Runs of calls compose. *)
Lemma get_chunks_add j : forall k self g,
  get_chunks5 (j + k) self g
  = let '(rs1, s1, g1) := get_chunks5 j self g in
    let '(rs2, s2, g2) := get_chunks5 k s1 g1 in
    (rs1 ++ rs2, s2, g2).
Proof.
  induction j as [|j IH]; intros k self g.
  - cbn [Nat.add get_chunks].
    destruct (get_chunks5 k self g) as [[rs2 s2] g2]. reflexivity.
  - cbn [Nat.add get_chunks].
    destruct (get_chunk5 self g) as [[[c s']|e] g'].
    + rewrite IH. destruct (get_chunks5 j s' g') as [[rs1 s1] g1].
      destruct (get_chunks5 k s1 g1) as [[rs2 s2] g2]. reflexivity.
    + rewrite IH. destruct (get_chunks5 j self g') as [[rs1 s1] g1].
      destruct (get_chunks5 k s1 g1) as [[rs2 s2] g2]. reflexivity.
Qed.

(** The first call leaves no previous chunk. *)
Lemma get_chunk_fresh_previous self g a g' r self' :
  attrs self = None ->
  materialize5 self g = (Ok a, g') ->
  get_chunk5 self g = (Ok (r, self'), g') ->
  exists a', attrs self' = Some a' /\ previous_chunk a' = None.
Proof.
  intros Hattrs Hm.
  destruct (materialize_cursor _ _ _ _ _ _ Hm) as (_ & Hprev & _ & _).
  unfold get_chunk, bind. rewrite Hattrs, Hm.
  destruct (chunk_id a + 1 <? n_chunks self); unfold ret; intros H;
    injection H as _ <-; eexists; (split; [reflexivity|]); exact Hprev.
Qed.

(** A call on a materialised object: what it returns and what it leaves in
    [previous_chunk] and [current_chunk]. *)
Lemma get_chunk_cursor self a c g :
  attrs self = Some a ->
  current_chunk a = Some c ->
  exists self' a',
    get_chunk5 self g = (Ok (reply self a (chunk_id a + 1), self'), g)
    /\ attrs self' = Some a' /\ same_parameters self self'
    /\ same_stream a a' /\ chunk_id a' = chunk_id a + 1
    /\ previous_chunk a' = Some c
    /\ current_chunk a' = Some (default c (reply self a (chunk_id a + 1))).
Proof.
  intros Hattrs Hc.
  unfold get_chunk, bind. rewrite Hattrs, Hc. simpl.
  unfold reply, chunk_of.
  destruct (chunk_id a + 1 <? n_chunks self); unfold ret; eexists _, _;
    (split; [reflexivity|]); simpl;
    (split; [reflexivity|]); repeat split; eauto.
Qed.

(** The state after [S j] calls on a fresh object whose stream has at least
    one chunk. *)
Lemma cursor_after j : forall self g a g1,
  attrs self = None ->
  materialize5 self g = (Ok a, g1) ->
  0 < n_chunks self ->
  exists self' a',
    get_chunks5 (S j) self g
    = (map (fun i => Ok (reply self a (Z.of_nat i))) (seq 0 (S j)), self', g1)
    /\ attrs self' = Some a' /\ same_parameters self self'
    /\ same_stream a a' /\ chunk_id a' = Z.of_nat j
    /\ current_chunk a'
       = Some (chunk_of self a (Z.min (Z.of_nat j) (n_chunks self - 1)))
    /\ previous_chunk a'
       = match j with
         | O => None
         | S i => Some (chunk_of self a (Z.min (Z.of_nat i) (n_chunks self - 1)))
         end.
Proof.
  induction j as [|j IH]; intros self g a g1 Hattrs Hm Hn.
  - destruct (get_chunk_fresh logistic_cdf make_classification self g a g1
                Hattrs Hm)
      as (s1 & a1 & Hcall & Hattrs1 & Hp1 & Hs1 & Hid1 & Hcur1).
    destruct (get_chunk_fresh_previous self g a g1 _ _ Hattrs Hm Hcall)
      as (a1' & Hattrs1' & Hprev1).
    assert (a1' = a1) as -> by congruence.
    exists s1, a1. cbn [get_chunks]. rewrite Hcall. cbn [seq map].
    repeat (split; [first [reflexivity | assumption]|]).
    split; [|exact Hprev1].
    rewrite Hcur1. unfold reply. apply Z.ltb_lt in Hn as Hn'. rewrite Hn'.
    do 2 f_equal. lia.
  - destruct (IH self g a g1 Hattrs Hm Hn)
      as (s1 & a1 & Hrun & Hattrs1 & Hp1 & Hs1 & Hid1 & Hcur1 & _).
    destruct (get_chunk_cursor s1 a1 _ g1 Hattrs1 Hcur1)
      as (s2 & a2 & Hcall & Hattrs2 & Hp2 & Hs2 & Hid2 & Hprev2 & Hcur2).
    exists s2, a2.
    replace (S (S j)) with (S j + 1)%nat by lia.
    rewrite get_chunks_add, Hrun. cbn [get_chunks]. rewrite Hcall.
    rewrite (reply_same self s1 a a1) in Hcall, Hcur2 by assumption.
    split.
    { f_equal. f_equal. replace (S j + 1)%nat with (S (S j)) by lia.
      rewrite (seq_S (S j)), map_app. cbn [map Nat.add]. do 3 f_equal.
      rewrite (reply_same self s1 a a1) by assumption. f_equal. lia. }
    split; [exact Hattrs2|].
    split; [exact (same_parameters_trans _ _ _ Hp1 Hp2)|].
    split; [exact (same_stream_trans _ _ _ Hs1 Hs2)|].
    split; [lia|].
    split; [|exact Hprev2].
    rewrite Hcur2, Hid1. unfold reply.
    destruct (Z.of_nat j + 1 <? n_chunks self) eqn:E; simpl.
    + apply Z.ltb_lt in E. do 2 f_equal. lia.
    + apply Z.ltb_ge in E. do 2 f_equal. lia.
Qed.

(** A run of calls on a fresh object that all return chunks comes from a
    materialisation that succeeded, and stays inside the stream. *)
Lemma successful_run_inv k self g rs self' g' :
  attrs self = None ->
  get_chunks5 (S k) self g = (rs, self', g') ->
  Forall successful rs ->
  exists a, materialize5 self g = (Ok a, g') /\ Z.of_nat k < n_chunks self.
Proof.
  intros Hattrs Hrun Hall.
  destruct (materialize5 self g) as [[a|e] g1] eqn:Hm.
  - assert (Hn : 0 < n_chunks self).
    { destruct (get_chunk_fresh logistic_cdf make_classification self g a g1
                  Hattrs Hm) as (s1 & a1 & Hc & _).
      cbn [get_chunks] in Hrun. rewrite Hc in Hrun.
      destruct (get_chunks5 k s1 g1) as [[rs1 s2] g2].
      injection Hrun as <- _ _. inversion Hall as [|? ? Hhd _]; subst.
      apply successful_reply in Hhd. exact Hhd. }
    destruct (cursor_after k self g a g1 Hattrs Hm Hn)
      as (s2 & a2 & Hrun2 & _).
    rewrite Hrun2 in Hrun.
    assert (Hrs : rs = map (fun j => Ok (reply self a (Z.of_nat j))) (seq 0 (S k)))
      by congruence.
    assert (g' = g1) as -> by congruence.
    exists a. split; [reflexivity|].
    apply (successful_reply self a). rewrite Forall_forall in Hall.
    apply Hall. rewrite Hrs. apply list_elem_of_In, in_map_iff. exists k.
    split; [reflexivity|]. apply in_seq. lia.
  - cbn [get_chunks] in Hrun.
    rewrite (get_chunk_fresh_raise logistic_cdf make_classification self g e g1
               Hattrs Hm) in Hrun.
    destruct (get_chunks5 k self g1) as [[rs1 s2] g2].
    injection Hrun as <- _ _. inversion Hall as [|? ? [c Hc] _]. discriminate.
Qed.

(** X1.  While the calls return chunks, [current_chunk] is the chunk that
    the last call returned and [previous_chunk] the chunk that the call
    before it returned; after the first call [previous_chunk] is [None]. *)
Theorem previous_chunk_tracking k self g rs self' g' :
  attrs self = None ->
  get_chunks5 (S k) self g = (rs, self', g') ->
  Forall successful rs ->
  exists a,
    attrs self' = Some a
    /\ rs !! k = Some (Ok (current_chunk a))
    /\ match k with
       | O => previous_chunk a = None
       | S j => rs !! j = Some (Ok (previous_chunk a))
       end.
Proof.
  intros Hattrs Hrun Hall.
  destruct (successful_run_inv k self g rs self' g' Hattrs Hrun Hall)
    as (a & Hm & Hk).
  destruct (cursor_after k self g a g' Hattrs Hm ltac:(lia))
    as (s2 & a2 & Hrun2 & Hattrs2 & _ & _ & _ & Hcur & Hprev).
  rewrite Hrun2 in Hrun.
  assert (Hrs : rs = map (fun j => Ok (reply self a (Z.of_nat j))) (seq 0 (S k)))
    by congruence.
  assert (self' = s2) as -> by congruence.
  assert (Hlook : forall i, (i <= k)%nat ->
             rs !! i = Some (Ok (Some (chunk_of self a
                          (Z.min (Z.of_nat i) (n_chunks self - 1)))))).
  { intros i Hi. rewrite Hrs, list_lookup_fmap, lookup_seq_lt by lia.
    cbn. unfold reply.
    destruct (Z.of_nat i <? n_chunks self) eqn:E;
      [|apply Z.ltb_ge in E; lia].
    do 4 f_equal. lia. }
  exists a2. split; [exact Hattrs2|]. split.
  - rewrite Hcur. apply Hlook. lia.
  - destruct k as [|j]; [exact Hprev|]. rewrite Hprev. apply Hlook. lia.
Qed.

(** X2.  Past the end of the stream the cursor keeps counting the calls,
    and both [current_chunk] and [previous_chunk] hold the last chunk of the
    stream. *)
Theorem exhausted_stream_cursor self g c self1 g1 m rs self' g' :
  attrs self = None ->
  get_chunk5 self g = (Ok (Some c, self1), g1) ->
  get_chunks5 (Z.to_nat (n_chunks self) + S m) self g = (rs, self', g') ->
  exists a final,
    attrs self' = Some a
    /\ rs !! (Z.to_nat (n_chunks self) - 1)%nat = Some (Ok (Some final))
    /\ chunk_id a = n_chunks self + Z.of_nat m
    /\ current_chunk a = Some final
    /\ previous_chunk a = Some final
    /\ is_dry self' = true.
Proof.
  intros Hattrs Hcall Hrun.
  destruct (first_chunk_inv logistic_cdf make_classification self g c self1 g1
              Hattrs Hcall) as (a & Hm & Hn).
  replace (Z.to_nat (n_chunks self) + S m)%nat
    with (S (Z.to_nat (n_chunks self) + m)) in Hrun by lia.
  destruct (cursor_after (Z.to_nat (n_chunks self) + m) self g a g1 Hattrs Hm Hn)
    as (s2 & a2 & Hrun2 & Hattrs2 & Hp2 & _ & Hid & Hcur & Hprev).
  rewrite Hrun2 in Hrun.
  assert (Hrs : rs = map (fun j => Ok (reply self a (Z.of_nat j)))
                         (seq 0 (S (Z.to_nat (n_chunks self) + m))))
    by congruence.
  assert (self' = s2) as -> by congruence.
  exists a2, (chunk_of self a (n_chunks self - 1)).
  split; [exact Hattrs2|]. split.
  { rewrite Hrs, list_lookup_fmap, lookup_seq_lt by lia. cbn. unfold reply.
    destruct (Z.of_nat (Z.to_nat (n_chunks self) - 1) <? n_chunks self) eqn:E;
      [|apply Z.ltb_ge in E; lia].
    do 4 f_equal. lia. }
  split; [lia|]. split.
  { rewrite Hcur. do 2 f_equal. lia. }
  split.
  { rewrite Hprev.
    destruct (Z.to_nat (n_chunks self) + m)%nat as [|i] eqn:Ei; [lia|].
    do 2 f_equal. lia. }
  unfold is_dry. rewrite Hattrs2. destruct Hp2 as (-> & _).
  apply Z.leb_le. lia.
Qed.

(** X3.  Once a call has returned a chunk, no later call raises, none
    draws from the global generator, and none changes the concepts, the
    selectors, [X] or [y]. *)
Theorem materialized_once self g c self1 g1 k :
  attrs self = None ->
  get_chunk5 self g = (Ok (Some c, self1), g1) ->
  exists rs self' a1 a',
    get_chunks5 k self1 g1 = (rs, self', g1)
    /\ Forall (fun r => is_Ok r = true) rs
    /\ attrs self1 = Some a1 /\ attrs self' = Some a'
    /\ same_stream a1 a' /\ same_parameters self self'.
Proof.
  intros Hattrs Hcall.
  destruct (first_chunk_inv logistic_cdf make_classification self g c self1 g1
              Hattrs Hcall) as (a & Hm & Hn).
  destruct (get_chunk_fresh logistic_cdf make_classification self g a g1
              Hattrs Hm)
    as (s1 & a1 & Hcall1 & Hattrs1 & Hp1 & Hs1 & Hid1 & Hcur1).
  rewrite Hcall1 in Hcall. assert (self1 = s1) as -> by congruence.
  assert (Hc1 : is_Some (current_chunk a1)).
  { rewrite Hcur1. unfold reply. apply Z.ltb_lt in Hn. rewrite Hn. eauto. }
  destruct (get_chunks_ready logistic_cdf make_classification k s1 a1 g1
              Hattrs1 Hc1)
    as (s2 & a2 & Hrest & Hattrs2 & Hp2 & Hs2 & _).
  eexists _, s2, a1, a2. split; [exact Hrest|].
  split.
  { apply Forall_forall. intros r Hr.
    apply list_elem_of_In, in_map_iff in Hr as (j & <- & _). reflexivity. }
  repeat (split; [assumption|]).
  exact (same_parameters_trans _ _ _ Hp1 Hp2).
Qed.

(** X4.  A stream without chunks ([n_chunks <= 0]): [is_dry] is false on
    the fresh object, the first call that does not raise returns [None],
    and from then on every call raises for want of [current_chunk]. *)
Theorem empty_stream_raises self g r self1 g1 :
  attrs self = None ->
  n_chunks self <= 0 ->
  get_chunk5 self g = (Ok (r, self1), g1) ->
  r = None
  /\ is_dry self = false
  /\ is_dry self1 = true
  /\ forall k g',
       get_chunks5 k self1 g'
       = (replicate k (Raise MissingCurrentChunk), self1, g').
Proof.
  intros Hattrs Hn Hcall.
  destruct (materialize5 self g) as [[a|e] g2] eqn:Hm.
  - destruct (get_chunk_fresh logistic_cdf make_classification self g a g2
                Hattrs Hm)
      as (s1 & a1 & Hcall1 & Hattrs1 & Hp1 & _ & Hid1 & Hcur1).
    rewrite Hcall1 in Hcall.
    assert (Hr : r = reply self a 0) by congruence.
    assert (self1 = s1) as -> by congruence.
    assert (Hnone : reply self a 0 = None).
    { unfold reply. destruct (0 <? n_chunks self) eqn:E; [|reflexivity].
      apply Z.ltb_lt in E. lia. }
    split; [congruence|].
    split; [unfold is_dry; rewrite Hattrs; reflexivity|].
    split.
    + unfold is_dry. rewrite Hattrs1. destruct Hp1 as (-> & _).
      apply Z.leb_le. lia.
    + intros k g'.
      apply (get_chunks_stuck logistic_cdf make_classification k s1 a1 g'
               Hattrs1).
      rewrite Hcur1. exact Hnone.
  - rewrite (get_chunk_fresh_raise logistic_cdf make_classification self g e g2
               Hattrs Hm) in Hcall. discriminate.
Qed.

(** X5.  On an object that has returned a chunk, [is_dry] tells what the
    next call does: it returns [None] when [is_dry] holds and a chunk when
    it does not. *)
Theorem is_dry_predicts_end self g c self1 g1 k rs self' g' :
  attrs self = None ->
  get_chunk5 self g = (Ok (Some c, self1), g1) ->
  get_chunks5 k self1 g1 = (rs, self', g') ->
  (is_dry self' = true <-> returned (get_chunk5 self' g') = Ok None)
  /\ (is_dry self' = false <-> successful (returned (get_chunk5 self' g'))).
Proof.
  intros Hattrs Hcall Hrun.
  destruct (first_chunk_inv logistic_cdf make_classification self g c self1 g1
              Hattrs Hcall) as (a & Hm & Hn).
  destruct (get_chunk_fresh logistic_cdf make_classification self g a g1
              Hattrs Hm)
    as (s1 & a1 & Hcall1 & Hattrs1 & Hp1 & Hs1 & Hid1 & Hcur1).
  rewrite Hcall1 in Hcall. assert (self1 = s1) as -> by congruence.
  assert (Hc1 : is_Some (current_chunk a1)).
  { rewrite Hcur1. unfold reply. apply Z.ltb_lt in Hn. rewrite Hn. eauto. }
  destruct (get_chunks_ready logistic_cdf make_classification k s1 a1 g1
              Hattrs1 Hc1)
    as (s2 & a2 & Hrest & Hattrs2 & Hp2 & Hs2 & Hid2 & Hc2).
  rewrite Hrest in Hrun.
  assert (self' = s2) as -> by congruence.
  assert (g' = g1) as -> by congruence.
  destruct (get_chunk_ready logistic_cdf make_classification s2 a2 g1
              Hattrs2 Hc2) as (s3 & a3 & Hnext & _).
  rewrite Hnext. unfold returned, is_dry. cbn [fst]. rewrite Hattrs2.
  unfold reply, successful.
  destruct (chunk_id a2 + 1 <? n_chunks s2) eqn:E.
  - apply Z.ltb_lt in E. split.
    + rewrite Z.leb_le. split; [lia | discriminate].
    + rewrite Z.leb_gt. split; [eauto | lia].
  - apply Z.ltb_ge in E. split.
    + rewrite Z.leb_le. split; [reflexivity | lia].
    + rewrite Z.leb_gt. split; [lia | intros [c' Hc']; discriminate].
Qed.

End Bookkeeping.

(** ** The balance of the classes *)

Lemma Qltb_lt x y : Qltb x y = true <-> (x < y)%Q.
Proof. unfold Qltb, Qlt. apply Z.ltb_lt. Qed.

Lemma Qltb_ge x y : Qltb x y = false <-> (y <= x)%Q.
Proof. unfold Qltb, Qle. rewrite Z.ltb_ge. reflexivity. Qed.

(** Truncation of a non-negative float is its floor. *)
Lemma Qtrunc_floor x : (0 <= x)%Q -> Qtrunc x = Qfloor x.
Proof.
  destruct x as [n d]. unfold Qle, Qtrunc, Qfloor. simpl. intros H.
  apply Z.quot_div_nonneg; lia.
Qed.

Lemma Qfloor_unique x k :
  Qfloor x = k <-> (inject_Z k <= x)%Q /\ (x < inject_Z (k + 1))%Q.
Proof.
  split.
  - intros <-. split; [apply Qfloor_le | apply Qlt_floor].
  - intros [Hlo Hhi].
    pose proof (Qfloor_le x) as H1. pose proof (Qlt_floor x) as H2.
    assert (Ha : (inject_Z (Qfloor x) < inject_Z (k + 1))%Q)
      by (eapply Qle_lt_trans; eassumption).
    assert (Hb : (inject_Z k < inject_Z (Qfloor x + 1))%Q)
      by (eapply Qle_lt_trans; eassumption).
    rewrite <- Zlt_Qlt in Ha, Hb. lia.
Qed.

Lemma cumulative_S ws i w :
  ws !! i = Some w -> cumulative ws (S i) = (cumulative ws i + w)%Q.
Proof.
  intros H. unfold cumulative. rewrite (take_S_r _ _ _ H), foldl_app.
  reflexivity.
Qed.

Lemma cumulative_mono ws :
  Forall (fun w => (0 <= w)%Q) ws ->
  forall i k, (i <= k)%nat -> (k <= length ws)%nat ->
    (cumulative ws i <= cumulative ws k)%Q.
Proof.
  intros Hws i k Hik. induction Hik as [|k Hik IH]; intros Hk.
  - apply Qle_refl.
  - destruct (lookup_lt_is_Some_2 ws k ltac:(lia)) as [w Hw].
    rewrite (cumulative_S ws k w Hw).
    assert (0 <= w)%Q by (eapply Forall_lookup_1; eassumption).
    specialize (IH ltac:(lia)). lra.
Qed.

Lemma static_selector_map noise ws :
  static_selector noise ws
  = map (fun x => Z.of_nat (largest_exceeded x ws (length ws))) noise.
Proof. unfold static_selector. rewrite static_loop. reflexivity. Qed.

(** What [a < b] holds at a position where the right operand has an
    entry. *)
Lemma np_less_lookup a b mask j m x :
  np_less a b = Ok mask -> mask !! j = Some m -> b !! j = Some x ->
  exists p, p ∈ a /\ m = Qltb p x.
Proof.
  unfold np_less. destruct (length a =? length b)%nat eqn:E.
  - intros H Hm Hx. injection H as <-.
    apply lookup_zip_with_Some in Hm as (p & x' & -> & Hp & Hx').
    assert (x' = x) as -> by congruence.
    exists p. split; [eapply list_elem_of_lookup_2, Hp | reflexivity].
  - destruct a as [|p [|p' a]].
    + destruct b as [|y0 [|y1 b]]; try discriminate.
      intros H. injection H as <-. discriminate.
    + intros H Hm Hx. injection H as <-.
      rewrite list_lookup_fmap, Hx in Hm. injection Hm as <-.
      exists p. split; [apply elem_of_cons; auto | reflexivity].
    + destruct b as [|y0 [|y1 b]]; try discriminate.
      intros H Hm Hx. injection H as <-.
      destruct j as [|j]; [|discriminate]. injection Hx as ->.
      cbn in Hm. injection Hm as <-. exists p.
      split; [apply elem_of_cons; auto | reflexivity].
Qed.

Section Balance.

Variable logistic_cdf : Q -> Q.

Abbreviation select_classes6 := (select_classes logistic_cdf).

(** The probabilities of the drift scheduler lie in [0, 1] whenever the
    values of the CDF do. *)
Lemma sigmoid_range self spacing n period probabilities :
  (forall x, (0 <= logistic_cdf x)%Q /\ (logistic_cdf x <= 1)%Q) ->
  _sigmoid logistic_cdf self spacing n = Ok (period, probabilities) ->
  Forall (fun p => (0 <= p)%Q /\ (p <= 1)%Q) probabilities.
Proof.
  intros Hcdf H. unfold _sigmoid in H.
  apply rbind_Ok in H as (ps & Hps & H). injection H as _ <-.
  destruct (0 <? n).
  - apply rbind_Ok in Hps as (ramps & _ & Hps). injection Hps as <-.
    apply Forall_forall. intros p Hp.
    apply list_elem_of_In, in_map_iff in Hp as (x & <- & _). apply Hcdf.
  - unfold np_ones in Hps. destruct (n_samples self <? 0); [discriminate|].
    injection Hps as <-. apply Forall_forall. intros p Hp.
    apply elem_of_replicate in Hp as [-> _]. split; lra.
Qed.



(** X9.  The last threshold of a static balance is never looked at: the
    accumulator takes it up after the last comparison. *)
Theorem static_last_threshold_unused self1 self2 ws w w' noise :
  weights self1 = WeightsStatic (ws ++ [w]) ->
  weights self2 = WeightsStatic (ws ++ [w']) ->
  select_classes logistic_cdf self1 noise
  = select_classes logistic_cdf self2 noise.
Proof.
  intros H1 H2. unfold select_classes. rewrite H1, H2.
  rewrite !static_selector_map, !length_app. cbn [length].
  f_equal. apply map_ext. intros x.
  replace (length ws + 1)%nat with (S (length ws)) by lia.
  cbn [largest_exceeded]. unfold exceeds.
  rewrite !cumulative_app_le, !largest_exceeded_app by lia. reflexivity.
Qed.


End Balance.

(** ** The noise of the first call *)

Lemma in_period_div period j i :
  0 < period -> in_period period j i = (Z.of_nat j / period =? i).
Proof.
  intros Hp. unfold in_period.
  pose proof (Z.mul_div_le (Z.of_nat j) period Hp).
  pose proof (Z.mul_succ_div_gt (Z.of_nat j) period Hp).
  destruct (Z.of_nat j / period =? i) eqn:E.
  - apply Z.eqb_eq in E. subst i.
    apply andb_true_iff. rewrite Z.leb_le, Z.ltb_lt. lia.
  - apply Z.eqb_neq in E. apply andb_false_iff.
    rewrite Z.leb_gt, Z.ltb_ge.
    destruct (Z_lt_le_dec (Z.of_nat j) (i * period)) as [Hlt|Hge]; [auto|].
    right. destruct (Z_lt_le_dec (Z.of_nat j) ((i + 1) * period)) as [Hlt|Hge'];
      [|exact Hge'].
    exfalso. apply E. symmetry.
    apply (Z.div_unique (Z.of_nat j) period i (Z.of_nat j - i * period)); lia.
Qed.

(** The period that the remapping loop finds for a sample. *)
Lemma find_in_period period j (m : nat) :
  0 < period ->
  find (in_period period j) (py_range 1 (1 + Z.of_nat m))
  = if (1 <=? Z.of_nat j / period) && (Z.of_nat j / period <? 1 + Z.of_nat m)
    then Some (Z.of_nat j / period) else None.
Proof.
  intros Hp. induction m as [|m IH].
  - change (py_range 1 (1 + Z.of_nat 0)) with (@nil Z). cbn [find].
    destruct (1 <=? Z.of_nat j / period) eqn:E1; [|reflexivity].
    destruct (Z.of_nat j / period <? 1 + Z.of_nat 0) eqn:E2; [|reflexivity].
    apply Z.leb_le in E1. apply Z.ltb_lt in E2. lia.
  - rewrite py_range_snoc, find_snoc, IH, in_period_div by assumption.
    destruct (1 <=? Z.of_nat j / period) eqn:E1; cbn [andb].
    + destruct (Z.of_nat j / period <? 1 + Z.of_nat m) eqn:E2.
      * apply Z.ltb_lt in E2.
        destruct (Z.of_nat j / period <? 1 + Z.of_nat (S m)) eqn:E3;
          [reflexivity | apply Z.ltb_ge in E3; lia].
      * apply Z.ltb_ge in E2.
        destruct (Z.of_nat j / period =? 1 + Z.of_nat m) eqn:E4.
        -- apply Z.eqb_eq in E4.
           destruct (Z.of_nat j / period <? 1 + Z.of_nat (S m)) eqn:E3;
             [congruence | apply Z.ltb_ge in E3; lia].
        -- apply Z.eqb_neq in E4.
           destruct (Z.of_nat j / period <? 1 + Z.of_nat (S m)) eqn:E3;
             [apply Z.ltb_lt in E3; lia | reflexivity].
    + apply Z.leb_gt in E1.
      destruct (Z.of_nat j / period =? 1 + Z.of_nat m) eqn:E4;
        [apply Z.eqb_eq in E4; lia | reflexivity].
Qed.

Section Noise.

Variable logistic_cdf : Q -> Q.
Variable make_classification : Z -> Z -> Z -> list Q -> Result ndarray.

Abbreviation materialize7 := (materialize logistic_cdf make_classification).
Abbreviation get_chunk7 := (get_chunk logistic_cdf make_classification).
Abbreviation get_chunks7 := (get_chunks logistic_cdf make_classification).

(** X6.  The first call that does not raise draws one block of
    [n_samples] numbers from the global generator when there is no drift
    and two blocks when there is; the labels come from the last block. *)
Theorem first_call_draws self g r self' g' :
  attrs self = None ->
  get_chunk7 self g = (Ok (r, self'), g') ->
  0 <= n_samples self
  /\ (forall i,
        g' i = g (noise_blocks self * Z.to_nat (n_samples self) + i)%nat)
  /\ exists a,
       attrs self' = Some a
       /\ select_classes logistic_cdf self
            (map (fun i => g ((noise_blocks self - 1)
                              * Z.to_nat (n_samples self) + i)%nat)
                 (seq 0 (Z.to_nat (n_samples self))))
          = Ok (y a).
Proof.
  intros Hattrs Hcall. set (n := Z.to_nat (n_samples self)).
  destruct (materialize7 self g) as [[a|e] g2] eqn:Hm.
  2:{ rewrite (get_chunk_fresh_raise logistic_cdf make_classification self g e
                 g2 Hattrs Hm) in Hcall. discriminate. }
  destruct (get_chunk_fresh logistic_cdf make_classification self g a g2
              Hattrs Hm)
    as (s1 & a1 & Hcall1 & Hattrs1 & _ & Hs1 & _).
  rewrite Hcall1 in Hcall.
  assert (self' = s1) as -> by congruence.
  assert (g' = g2) as -> by congruence.
  destruct (materialize_inv logistic_cdf make_classification self g a g2 Hm)
    as (c0 & g1 & noise & chosen & _ & Hcs & Hr & Hsel & _ & _ & Hy).
  apply np_random_rand_Ok in Hr as (Hn & -> & ->).
  assert (Hy1 : y a1 = class_selector a).
  { destruct Hs1 as (_ & _ & _ & _ & ->). exact Hy. }
  unfold noise_blocks. destruct (0 <? n_drifts self).
  - destruct Hcs as (s & Hs & _).
    apply (select_concepts_inv logistic_cdf) in Hs
      as (period & probability & mask & _ & _ & -> & _).
    split; [exact Hn|]. split.
    + intros i. fold n. f_equal. lia.
    + exists a1. split; [exact Hattrs1|]. rewrite Hy1, <- Hsel.
      f_equal. unfold draws. fold n. apply map_ext. intros i. f_equal. lia.
  - destruct Hcs as (_ & -> & _).
    split; [exact Hn|]. split.
    + intros i. fold n. f_equal. lia.
    + exists a1. split; [exact Hattrs1|]. rewrite Hy1, <- Hsel.
      f_equal.
Qed.

(** With one drift the remapping loop has no period to go through, and
    there are two concepts either way. *)
Lemma materialize_single_drift s t :
  agree_up_to_reocurring s t -> n_drifts s = 1 ->
  materialize7 t = materialize7 s.
Proof.
  intros (H1 & H2 & H3 & H4 & H5 & H6 & H7 & _) Hd.
  destruct s as [nc cs rs nd sp c b w at_s], t as [nc' cs' rs' nd' sp' c' b' w' at_t].
  simpl in *. subst. destruct b, b'; reflexivity.
Qed.

Lemma set_attrs_agree s t a :
  agree_up_to_reocurring s t ->
  agree_up_to_reocurring (set_attrs s a) (set_attrs t a).
Proof.
  intros (H1 & H2 & H3 & H4 & H5 & H6 & H7 & _).
  unfold agree_up_to_reocurring, set_attrs. simpl. auto 10.
Qed.

Lemma get_chunk_single_drift s t g :
  agree_up_to_reocurring s t -> n_drifts s = 1 ->
  match get_chunk7 s g, get_chunk7 t g with
  | (Ok (c, s'), g1), (Ok (c', t'), g2) =>
      c' = c /\ g2 = g1 /\ agree_up_to_reocurring s' t' /\ n_drifts s' = 1
  | (Raise e, g1), (Raise e', g2) => e' = e /\ g2 = g1
  | _, _ => False
  end.
Proof.
  intros Hag Hd.
  pose proof (materialize_single_drift s t Hag Hd) as Hm.
  pose proof (fun a => set_attrs_agree s t a Hag) as Hset.
  destruct Hag as (H1 & H2 & _ & _ & _ & _ & _ & H8).
  unfold get_chunk, bind. rewrite H8, Hm, H1, H2.
  destruct (attrs s) as [a|].
  - destruct (current_chunk a) as [c|]; unfold ret, raise; [|auto].
    cbn [chunk_id X y]. destruct (chunk_id a + 1 <? n_chunks s); auto.
  - destruct (materialize7 s g) as [[a|e] g1]; [|auto].
    destruct (chunk_id a + 1 <? n_chunks s); unfold ret; auto.
Qed.

(** X11.  With exactly one drift the [reocurring] flag changes nothing:
    two objects that differ in it only return the same chunks, raise the
    same exceptions and leave the global generator in the same state. *)
Theorem single_drift_ignores_reocurring k : forall s t g,
  agree_up_to_reocurring s t ->
  n_drifts s = 1 ->
  fst (fst (get_chunks7 k t g)) = fst (fst (get_chunks7 k s g))
  /\ snd (get_chunks7 k t g) = snd (get_chunks7 k s g).
Proof.
  induction k as [|k IH]; intros s t g Hag Hd; [auto|].
  cbn [get_chunks].
  pose proof (get_chunk_single_drift s t g Hag Hd) as Hstep.
  destruct (get_chunk7 s g) as [[[c s']|e] g1],
           (get_chunk7 t g) as [[[c' t']|e'] g2]; try contradiction.
  - destruct Hstep as (-> & -> & Hag' & Hd').
    destruct (IH s' t' g1 Hag' Hd') as [IH1 IH2].
    destruct (get_chunks7 k s' g1) as [[rs1 s1] g1'],
             (get_chunks7 k t' g1) as [[rs2 s2] g2'].
    simpl in *. subst. auto.
  - destruct Hstep as (-> & ->).
    destruct (IH s t g1 Hag Hd) as [IH1 IH2].
    destruct (get_chunks7 k s g1) as [[rs1 s1] g1'],
             (get_chunks7 k t g1) as [[rs2 s2] g2'].
    simpl in *. subst. auto.
Qed.

(** X12.  Without reoccurrence, and with at least one sample per period,
    the concept selector walks through the concepts: a sample of period
    [i] (periods counted from 0) is given concept [i] or concept
    [i + 1]. *)
Theorem concept_selector_adjacent self g sel g' :
  0 < n_drifts self ->
  reocurring self = false ->
  n_drifts self <= n_samples self ->
  select_concepts logistic_cdf self g = (Ok sel, g') ->
  forall (j : nat) v, sel !! j = Some v ->
    0 <= period_of self j < n_drifts self
    /\ (v = period_of self j \/ v = period_of self j + 1).
Proof.
  intros Hd Hre Hsamples Hsel j v Hv. unfold period_of.
  set (i := Z.of_nat j / (n_samples self / n_drifts self)).
  destruct (select_concepts_stated logistic_cdf self g sel g' Hd Hsel)
    as (period & probability & Hs & ->).
  destruct (sigmoid_probabilities logistic_cdf self
              (concept_sigmoid_spacing self) (n_drifts self) ltac:(lia) Hd)
    as (probability' & Hs' & Hlen).
  rewrite Hs in Hs'. injection Hs' as -> <-.
  assert (Hp : 0 < n_samples self / n_drifts self).
  { apply Z.div_str_pos. lia. }
  unfold stated_selector in Hv. rewrite list_lookup_imap in Hv.
  destruct (zip_with Qltb probability (draws g (n_samples self)) !! j)
    as [b|] eqn:Hb; [|discriminate].
  injection Hv as <-.
  assert (Hj : Z.of_nat j < n_drifts self * (n_samples self / n_drifts self)).
  { apply lookup_lt_Some in Hb. rewrite length_zip_with in Hb. lia. }
  assert (Hi : 0 <= i < n_drifts self).
  { subst i. split; [apply Z.div_pos; lia|].
    apply Z.div_lt_upper_bound; lia. }
  split; [exact Hi|].
  unfold stated_concept. rewrite Hre.
  assert (Hr : py_range 1 (n_drifts self)
               = py_range 1 (1 + Z.of_nat (Z.to_nat (n_drifts self - 1))))
    by (f_equal; lia).
  rewrite Hr, find_in_period by exact Hp. fold i.
  destruct (1 <=? i) eqn:E1; cbn [andb].
  - destruct (i <? 1 + Z.of_nat (Z.to_nat (n_drifts self - 1))) eqn:E2;
      [|apply Z.ltb_ge in E2; lia].
    pose proof (Z.mod_pos_bound i 2 ltac:(lia)).
    pose proof (Z.mod_pos_bound (i + 1) 2 ltac:(lia)).
    assert ((i + 1) mod 2 = 1 - i mod 2).
    { rewrite Z.add_mod, (Z.mod_small 1 2) by lia.
      assert (i mod 2 = 0 \/ i mod 2 = 1) as [->| ->] by lia; reflexivity. }
    destruct b; lia.
  - apply Z.leb_gt in E1. assert (i = 0) as -> by lia.
    destruct b; simpl; auto.
Qed.

End Noise.

(** ** Configurations that never give a chunk *)

Lemma py_range_empty a b : b <= a -> py_range a b = [].
Proof.
  intros H. unfold py_range.
  replace (Z.to_nat (b - a)) with 0%nat by lia. reflexivity.
Qed.

Lemma quot_negative t n : 0 < n -> (int_div t n < 0 <-> t <= - n).
Proof.
  intros Hn. unfold int_div.
  destruct (Z_lt_le_dec t 0) as [Hneg|Hpos].
  - replace t with (- (- t)) at 1 by lia.
    rewrite Z.quot_opp_l by lia.
    rewrite Z.quot_div_nonneg by lia.
    split.
    + intros H. assert (Hq : 0 < - t / n) by lia.
      destruct (Z_lt_le_dec (- t) n) as [Hlt|Hge]; [|lia].
      rewrite Z.div_small in Hq by lia. lia.
    + intros H. assert (0 < - t / n); [|lia].
      apply Z.div_str_pos. lia.
  - rewrite Z.quot_div_nonneg by lia.
    pose proof (Z.div_pos t n Hpos Hn). lia.
Qed.

Section Failures.

Variable logistic_cdf : Q -> Q.
Variable make_classification : Z -> Z -> Z -> list Q -> Result ndarray.

Abbreviation materialize8 := (materialize logistic_cdf make_classification).
Abbreviation get_chunk8 := (get_chunk logistic_cdf make_classification).
Abbreviation get_chunks8 := (get_chunks logistic_cdf make_classification).

(** When materialisation raises whatever the generator delivers, so does
    every call, however often the caller tries again. *)
Lemma get_chunks_all_raise self :
  attrs self = None ->
  (forall g, exists e g', materialize8 self g = (Raise e, g')) ->
  forall k g,
    Forall (fun r => exists e, r = Raise e) (fst (fst (get_chunks8 k self g)))
    /\ snd (fst (get_chunks8 k self g)) = self.
Proof.
  intros Hattrs Hm. induction k as [|k IH]; intros g.
  - split; [constructor | reflexivity].
  - destruct (Hm g) as (e & g' & He).
    cbn [get_chunks].
    rewrite (get_chunk_fresh_raise logistic_cdf make_classification self g e g'
               Hattrs He).
    specialize (IH g'). destruct (get_chunks8 k self g') as [[rs s2] g2].
    simpl in *. destruct IH as [IH1 IH2]. split; [|exact IH2].
    constructor; [eauto | exact IH1].
Qed.

(** Without a concept to choose from, materialisation raises. *)
Lemma materialize_no_concepts self g :
  n_concepts self <= 0 ->
  exists e g', materialize8 self g = (Raise e, g').
Proof.
  intros Hc.
  assert (Hd : (0 <? n_drifts self) = false).
  { apply Z.ltb_ge. unfold n_concepts in Hc.
    destruct (reocurring self); simpl in Hc; lia. }
  unfold materialize, build_concepts. rewrite (py_range_empty 0) by exact Hc.
  cbn [rmapM rbind np_array]. unfold bind at 1, lift at 1.
  rewrite Hd. unfold bind at 1, ret at 1. unfold bind at 1.
  destruct (np_random_rand (n_samples self) g) as [[noise|e] g1]; [|eauto].
  unfold bind at 1, lift at 1.
  destruct (select_classes logistic_cdf self noise) as [sel|e]; [|eauto].
  unfold bind at 1, lift at 1. eauto.
Qed.

(** X13.  A negative number of drifts is not taken for "no drift": without
    reoccurrence there is then no concept at all, and every call on the
    object raises. *)
Theorem negative_drifts_raise self :
  attrs self = None ->
  n_drifts self < 0 ->
  reocurring self = false ->
  (forall g, exists e g',
      get_chunk logistic_cdf make_classification self g = (Raise e, g'))
  /\ forall k g,
       Forall (fun r => exists e, r = Raise e)
         (fst (fst (get_chunks logistic_cdf make_classification k self g))).
Proof.
  intros Hattrs Hd Hre.
  assert (Hm : forall g, exists e g', materialize8 self g = (Raise e, g')).
  { intros g. apply materialize_no_concepts. unfold n_concepts.
    rewrite Hre. simpl. lia. }
  split.
  - intros g. destruct (Hm g) as (e & g' & He). exists e, g'.
    apply get_chunk_fresh_raise; assumption.
  - intros k g. apply (get_chunks_all_raise self Hattrs Hm k g).
Qed.

(** X14.  A negative number of classes makes every call raise; when there
    is a concept to build, the exception is that of [np.ones] with a
    negative dimension, raised before the oracle is called and before
    anything is drawn from the global generator. *)
Theorem negative_classes_raise self :
  attrs self = None ->
  n_classes self < 0 ->
  (forall g, exists e g',
      get_chunk8 self g = (Raise e, g')
      /\ (0 < n_concepts self -> e = NegativeDimensions /\ g' = g))
  /\ forall k g, Forall (fun r => exists e, r = Raise e)
                        (fst (fst (get_chunks8 k self g))).
Proof.
  intros Hattrs Hc.
  assert (Hm : forall g, exists e g',
             materialize8 self g = (Raise e, g')
             /\ (0 < n_concepts self -> e = NegativeDimensions /\ g' = g)).
  { intros g. destruct (Z_lt_le_dec 0 (n_concepts self)) as [Hpos|Hnone].
    - exists NegativeDimensions, g. split; [|auto].
      unfold materialize, build_concepts. rewrite (py_range_cons 0) by exact Hpos.
      cbn [rmapM]. unfold build_concept at 1, diag_rows.
      apply Z.ltb_lt in Hc. rewrite Hc. reflexivity.
    - destruct (materialize_no_concepts self g Hnone) as (e & g' & He).
      exists e, g'. split; [exact He | lia]. }
  split.
  - intros g. destruct (Hm g) as (e & g' & He & Hwhich). exists e, g'.
    split; [apply get_chunk_fresh_raise; assumption | exact Hwhich].
  - intros k g. apply (get_chunks_all_raise self Hattrs).
    intros g0. destruct (Hm g0) as (e & g' & He & _). eauto.
Qed.

(** X15.  When [_sigmoid] raises.  With drifts it is [np.linspace] that
    refuses a negative period, and [int] truncates towards zero, so it
    takes [n_samples <= - n_drifts]; without drifts it is [np.ones] that
    refuses a negative length.  In every other case [_sigmoid] returns. *)
Theorem sigmoid_raises self spacing n :
  (0 < n -> n_samples self <= - n ->
   _sigmoid logistic_cdf self spacing n = Raise LinspaceNegative)
  /\ (n <= 0 -> n_samples self < 0 ->
      _sigmoid logistic_cdf self spacing n = Raise NegativeDimensions)
  /\ (is_Ok (_sigmoid logistic_cdf self spacing n) = true
      <-> (0 < n /\ - n < n_samples self) \/ (n <= 0 /\ 0 <= n_samples self)).
Proof.
  assert (Hdrift : 0 < n -> n_samples self <= - n ->
            _sigmoid logistic_cdf self spacing n = Raise LinspaceNegative).
  { intros Hn Hs. unfold _sigmoid. apply Z.ltb_lt in Hn as Hn'. rewrite Hn'.
    rewrite (py_range_cons 0) by lia. cbn [rmapM].
    rewrite sigmoid_ramp_eq, linspace_negative; [reflexivity|].
    apply quot_negative; assumption. }
  assert (Hnone : n <= 0 -> n_samples self < 0 ->
            _sigmoid logistic_cdf self spacing n = Raise NegativeDimensions).
  { intros Hn Hs. unfold _sigmoid, np_ones. apply Z.ltb_ge in Hn.
    apply Z.ltb_lt in Hs. rewrite Hn, Hs. reflexivity. }
  split; [exact Hdrift|]. split; [exact Hnone|].
  destruct (Z_lt_le_dec 0 n) as [Hn|Hn].
  - destruct (Z_lt_le_dec (- n) (n_samples self)) as [Hs|Hs].
    + split; [auto|]. intros _.
      destruct (sigmoid_drifting logistic_cdf self spacing n Hn)
        as (ramps & _ & ->); [|reflexivity].
      pose proof (quot_negative (n_samples self) n Hn). lia.
    + rewrite (Hdrift Hn Hs). simpl. split; [discriminate | lia].
  - destruct (Z_lt_le_dec (n_samples self) 0) as [Hs|Hs].
    + rewrite (Hnone Hn Hs). simpl. split; [discriminate | lia].
    + split; [auto|]. intros _. unfold _sigmoid, np_ones.
      apply Z.ltb_ge in Hn, Hs. rewrite Hn, Hs. reflexivity.
Qed.

End Failures.

(** ** Arrays: indices, offsets and items *)

Lemma concat_lookup_const {A} (ls : list (list A)) p i l r :
  (forall l', l' ∈ ls -> length l' = p) ->
  ls !! i = Some l -> (r < p)%nat ->
  concat ls !! (i * p + r)%nat = l !! r.
Proof.
  revert i. induction ls as [|l0 ls IH]; intros i Hlen Hi Hr; [discriminate|].
  assert (H0 : length l0 = p) by (apply Hlen, elem_of_cons; auto).
  assert (Hrest : forall l', l' ∈ ls -> length l' = p)
    by (intros l' Hl'; apply Hlen, elem_of_cons; auto).
  destruct i as [|i]; simpl in *.
  - injection Hi as ->. rewrite lookup_app_l by lia. reflexivity.
  - rewrite lookup_app_r by lia. rewrite <- (IH i Hrest Hi Hr).
    f_equal. lia.
Qed.

Lemma ravel_acc s : forall idx acc,
  length idx = length s ->
  fold_left (fun acc di => (acc * fst di + snd di)%nat) (combine s idx) acc
  = (acc * size s + ravel s idx)%nat.
Proof.
  unfold ravel. induction s as [|d s IH]; intros [|i idx] acc Hlen;
    try discriminate; simpl in *.
  - lia.
  - rewrite (IH idx (acc * d + i)%nat), (IH idx i) by lia. lia.
Qed.

Lemma ravel_cons d s i idx :
  length idx = length s ->
  ravel (d :: s) (i :: idx) = (i * size s + ravel s idx)%nat.
Proof.
  intros Hlen. unfold ravel at 1. simpl. apply ravel_acc. exact Hlen.
Qed.

Lemma valid_index_length s idx : valid_index s idx -> length idx = length s.
Proof. apply Forall2_length. Qed.

Lemma ravel_lt s : forall idx, valid_index s idx -> (ravel s idx < size s)%nat.
Proof.
  induction s as [|d s IH]; intros idx H; inversion H as [|i ? idx' ? Hi H']; subst.
  - simpl. unfold ravel. simpl. lia.
  - rewrite ravel_cons by (apply valid_index_length; exact H').
    specialize (IH idx' H'). simpl. nia.
Qed.

Lemma indices_length s : length (indices s) = size s.
Proof.
  induction s as [|d s IH]; [reflexivity|]. simpl.
  rewrite flat_map_concat_map.
  rewrite (concat_length_const _ (size s)).
  - rewrite length_map, length_seq. reflexivity.
  - intros l Hl. apply list_elem_of_In, in_map_iff in Hl as (i & <- & _).
    rewrite length_map. exact IH.
Qed.

(** Row-major order: the multi-index at offset [ravel s idx] is [idx]. *)
Lemma indices_lookup s : forall idx,
  valid_index s idx -> indices s !! ravel s idx = Some idx.
Proof.
  induction s as [|d s IH]; intros idx H; inversion H as [|i ? idx' ? Hi H']; subst.
  - reflexivity.
  - rewrite ravel_cons by (apply valid_index_length; exact H').
    simpl. rewrite flat_map_concat_map.
    rewrite (concat_lookup_const _ (size s) i (map (cons i) (indices s))).
    + rewrite list_lookup_fmap, (IH idx' H'). reflexivity.
    + intros l Hl. apply list_elem_of_In, in_map_iff in Hl as (k & <- & _).
      rewrite length_map. apply indices_length.
    + rewrite list_lookup_fmap, lookup_seq_lt by exact Hi. reflexivity.
    + apply ravel_lt. exact H'.
Qed.

Lemma item_lookup a idx v :
  data a !! ravel (shape a) idx = Some v -> item a idx = v.
Proof. intros H. unfold item. apply nth_lookup_Some with (d := 0%Q), H. Qed.

(** An array filled from a function of the multi-index holds at each index
    the value of the function. *)
Lemma item_tabulate s (f : list nat -> Q) idx :
  valid_index s idx -> item (mk_ndarray s (map f (indices s))) idx = f idx.
Proof.
  intros H. apply item_lookup. simpl.
  rewrite list_lookup_fmap, (indices_lookup s idx H). reflexivity.
Qed.

Lemma transpose_shape a : shape (transpose a) = rev (shape a).
Proof. reflexivity. Qed.

Lemma transpose_well_formed a : well_formed (transpose a).
Proof. unfold well_formed, transpose. simpl. rewrite length_map. apply indices_length. Qed.

Lemma transpose_item a idx :
  valid_index (rev (shape a)) idx -> item (transpose a) idx = item a (rev idx).
Proof.
  intros H. unfold transpose.
  apply (item_tabulate (rev (shape a)) (fun i => item a (rev i)) idx H).
Qed.

(** [np.array] of arrays of one shape: the new first axis numbers the
    arrays. *)
Lemma np_array_item l c s :
  np_array l = Ok c -> l <> [] ->
  Forall (fun b => shape b = s /\ well_formed b) l ->
  shape c = length l :: s
  /\ well_formed c
  /\ forall k b idx, l !! k = Some b -> valid_index s idx ->
       item c (k :: idx) = item b idx.
Proof.
  intros Hc Hne Hall. destruct l as [|a0 l']; [congruence|].
  assert (Hs0 : shape a0 = s).
  { inversion Hall as [|? ? [H _] _]. exact H. }
  unfold np_array in Hc.
  destruct (forallb _ _); [|discriminate].
  assert (Hceq : c = mk_ndarray (length (a0 :: l') :: shape a0)
                       (concat (map data (a0 :: l')))) by congruence.
  subst c. clear Hc. rewrite Hs0.
  assert (Hlens : forall d, d ∈ map data (a0 :: l') -> length d = size s).
  { intros d Hd. apply list_elem_of_In, in_map_iff in Hd as (b & <- & Hb).
    rewrite Forall_forall in Hall. apply list_elem_of_In in Hb.
    destruct (Hall b Hb) as [Hsb Hwf]. unfold well_formed in Hwf. congruence. }
  split; [reflexivity|]. split.
  - unfold well_formed. cbn [data shape].
    rewrite (concat_length_const _ (size s) Hlens), length_map. reflexivity.
  - intros k b idx Hk Hidx. unfold item. cbn [data shape].
    rewrite ravel_cons by (apply valid_index_length; exact Hidx).
    rewrite !nth_lookup.
    rewrite (concat_lookup_const _ (size s) k (data b)).
    + rewrite Forall_forall in Hall.
      destruct (Hall b) as [-> _]; [eapply list_elem_of_lookup_2, Hk|].
      reflexivity.
    + exact Hlens.
    + change (map data (a0 :: l')) with (data <$> (a0 :: l')).
      rewrite list_lookup_fmap, Hk. reflexivity.
    + apply ravel_lt. exact Hidx.
Qed.

Lemma broadcast_last n pre :
  broadcast [n] (pre ++ [n]) = Some (pre ++ [n]).
Proof.
  unfold broadcast. rewrite rev_app_distr. cbn [rev app broadcast_rev].
  cbn [mbind option_bind]. rewrite Nat.eqb_refl.
  cbn [fmap option_fmap option_map rev]. rewrite rev_involutive. reflexivity.
Qed.

Lemma operand_index_valid s : forall idx,
  valid_index s idx -> operand_index s idx = idx.
Proof.
  intros idx H. unfold operand_index.
  rewrite (valid_index_length s idx H), Nat.sub_diag, drop_0.
  induction H as [|i d idx s Hi H IH]; [reflexivity|].
  cbn [zip_with]. rewrite IH. f_equal.
  destruct (d =? 1)%nat eqn:E; [|reflexivity]. apply Nat.eqb_eq in E. lia.
Qed.

Lemma operand_index_last n ipre j :
  (j < n)%nat -> operand_index [n] (ipre ++ [j]) = [j].
Proof.
  intros Hj. unfold operand_index. rewrite length_app. simpl.
  replace (length ipre + 1 - 1)%nat with (length ipre) by lia.
  rewrite drop_app_length. simpl.
  destruct (n =? 1)%nat eqn:E; [|reflexivity]. apply Nat.eqb_eq in E.
  f_equal. lia.
Qed.

Lemma valid_index_snoc s n idx j :
  valid_index (s ++ [n]) (idx ++ [j]) -> valid_index s idx /\ (j < n)%nat.
Proof.
  intros H. unfold valid_index in *.
  apply Forall2_app_inv in H as [H1 H2].
  - split; [exact H1|]. inversion H2; subst. assumption.
  - pose proof (Forall2_length _ _ _ H) as Hl.
    rewrite !length_app in Hl. simpl in Hl. lia.
Qed.

(** [np.choose] with an index array as long as the last axis of the
    choices: the result has the shape of one choice, and holds at each
    index the item of the choice that the index array names for the last
    position. *)
Lemma np_choose_item a ch r m pre :
  np_choose a ch = Ok r ->
  shape ch = m :: pre ++ [length a] ->
  shape r = pre ++ [length a]
  /\ forall ipre j, valid_index (pre ++ [length a]) (ipre ++ [j]) ->
       exists k, a !! j = Some k /\ 0 <= k < Z.of_nat m
                 /\ item r (ipre ++ [j]) = item ch (Z.to_nat k :: ipre ++ [j]).
Proof.
  intros Hch Hshape. unfold np_choose in Hch. rewrite Hshape in Hch.
  destruct ((m =? 0)%nat || (NPY_MAXARGS <? m + 1)%nat); [discriminate|].
  rewrite broadcast_last in Hch.
  apply rbind_Ok in Hch as (d & Hd & Hr). injection Hr as <-.
  split; [reflexivity|].
  intros ipre j Hidx.
  destruct (valid_index_snoc _ _ _ _ Hidx) as [_ Hj].
  destruct (rmapM_lookup _ _ _ _ _ Hd (indices_lookup _ _ Hidx))
    as (v & Hv & Hf).
  rewrite (operand_index_last _ _ _ Hj) in Hf.
  rewrite (operand_index_valid _ _ Hidx) in Hf.
  change (ravel [length a] [j]) with (0 * length a + j)%nat in Hf.
  simpl (0 * length a + j)%nat in Hf.
  destruct (lookup_lt_is_Some_2 a j Hj) as [k Hk].
  rewrite (nth_lookup_Some a j 0 k Hk) in Hf.
  exists k. split; [exact Hk|].
  destruct ((0 <=? k) && (k <? Z.of_nat m)) eqn:E; [|discriminate].
  apply andb_true_iff in E as [E1 E2].
  apply Z.leb_le in E1. apply Z.ltb_lt in E2. split; [lia|].
  injection Hf as <-.
  rewrite (item_lookup (mk_ndarray _ d) _ _ Hv).
  unfold item. rewrite Hshape.
  rewrite ravel_cons by (apply valid_index_length; exact Hidx). reflexivity.
Qed.

Lemma nd_slice_item a n f lo hi r phi :
  shape a = [n; f] ->
  (Z.to_nat lo + r < Z.to_nat hi)%nat -> 0 <= lo -> 0 <= hi ->
  (Z.to_nat hi <= n)%nat -> (phi < f)%nat ->
  item (nd_slice a lo hi) [r; phi] = item a [(Z.to_nat lo + r)%nat; phi].
Proof.
  intros Hs Hr Hlo Hhi Hn Hphi. unfold nd_slice, item. rewrite Hs.
  rewrite !slice_bound_nonneg by assumption.
  cbn [shape data]. unfold ravel. simpl.
  rewrite !nth_lookup, lookup_take, lookup_drop.
  replace (Nat.min (Z.to_nat lo) n) with (Z.to_nat lo) by lia.
  replace (Nat.min (Z.to_nat hi) n) with (Z.to_nat hi) by lia.
  destruct (decide _) as [_|Hno]; [do 2 f_equal; nia|].
  exfalso. apply Hno. nia.
Qed.

Lemma nd_slice_shape a n f lo hi :
  shape a = [n; f] -> 0 <= lo -> 0 <= hi -> (Z.to_nat hi <= n)%nat ->
  shape (nd_slice a lo hi) = [(Z.to_nat hi - Z.to_nat lo)%nat; f].
Proof.
  intros Hs Hlo Hhi Hn. unfold nd_slice. rewrite Hs.
  rewrite !slice_bound_nonneg by assumption. simpl. f_equal. lia.
Qed.

(** ** The assembly of the samples *)

Lemma diag_rows_Ok c rows :
  diag_rows c = Ok rows ->
  0 <= c /\ rows = map (one_hot (Z.to_nat c)) (seq 0 (Z.to_nat c)).
Proof.
  unfold diag_rows. destruct (c <? 0) eqn:E; [discriminate|].
  apply Z.ltb_ge in E. intros H. injection H as <-. split; [exact E|].
  reflexivity.
Qed.

Lemma np_less_length a b mask :
  np_less a b = Ok mask -> length b <> 1%nat -> length mask = length b.
Proof.
  unfold np_less. destruct (length a =? length b)%nat eqn:E.
  - apply Nat.eqb_eq in E. intros H _. injection H as <-.
    rewrite length_zip_with. lia.
  - destruct a as [|p [|p' a]].
    + destruct b as [|y0 [|y1 b]]; try discriminate. simpl. lia.
    + intros H _. injection H as <-. apply length_map.
    + destruct b as [|y0 [|y1 b]]; try discriminate. simpl. lia.
Qed.

Lemma remap_concepts_length n period sel :
  length (remap_concepts n period sel) = length sel.
Proof.
  unfold remap_concepts. generalize (py_range 1 n). intros l.
  revert sel. induction l as [|i l IH]; intros sel; [reflexivity|].
  simpl. rewrite IH. unfold remap_period, remap_where.
  rewrite !length_assign_at. reflexivity.
Qed.

Lemma select_classes_length cdf self noise sel :
  select_classes cdf self noise = Ok sel ->
  length noise <> 1%nat -> length sel = length noise.
Proof.
  unfold select_classes. destruct (weights self) as [|ws|nb sp amp].
  - intros H _. injection H as <-. apply length_map.
  - intros H _. injection H as <-. rewrite static_selector_map.
    apply length_map.
  - intros H Hn. apply rbind_Ok in H as (pp & _ & H).
    apply rbind_Ok in H as (mask & Hless & H). injection H as <-.
    rewrite length_map. apply (np_less_length _ _ _ Hless Hn).
Qed.

Section Assembly.

Variable logistic_cdf : Q -> Q.
Variable make_classification : Z -> Z -> Z -> list Q -> Result ndarray.
Variable f : nat.
Hypothesis oracle_matrices : oracle_shape make_classification f.

Abbreviation materialize9 := (materialize logistic_cdf make_classification).
Abbreviation get_chunk9 := (get_chunk logistic_cdf make_classification).
Abbreviation get_chunks9 := (get_chunks logistic_cdf make_classification).
Abbreviation build_concepts9 := (build_concepts make_classification).

(** One concept: for each class the transposed matrix that the oracle
    returns for the one-hot weights of the class. *)
Lemma build_concept_item self i l :
  build_concept make_classification self i = Ok l ->
  0 <= n_classes self
  /\ length l = Z.to_nat (n_classes self)
  /\ forall r, (r < Z.to_nat (n_classes self))%nat ->
       exists m,
         make_classification (n_samples self) (n_classes self)
           (random_state self + i) (one_hot (Z.to_nat (n_classes self)) r)
         = Ok m
         /\ l !! r = Some (transpose m).
Proof.
  unfold build_concept. intros H.
  apply rbind_Ok in H as (rows & Hrows & H).
  apply diag_rows_Ok in Hrows as [Hc ->].
  split; [exact Hc|]. split.
  - rewrite (rmapM_length _ _ _ H), length_map, length_seq. reflexivity.
  - intros r Hr.
    assert (Hrow : map (one_hot (Z.to_nat (n_classes self)))
                     (seq 0 (Z.to_nat (n_classes self))) !! r
                   = Some (one_hot (Z.to_nat (n_classes self)) r)).
    { rewrite list_lookup_fmap, lookup_seq_lt by exact Hr. reflexivity. }
    destruct (rmapM_lookup _ _ _ _ _ H Hrow) as (t & Ht & Hm).
    apply rbind_Ok in Hm as (m & Hm & Hok). injection Hok as <-.
    exists m. split; [exact Hm | exact Ht].
Qed.

(** The array of the concepts: axes (concept, class, feature, sample); its
    items are those of the oracle's matrices. *)
Lemma build_concepts_item self c0 :
  build_concepts9 self = Ok c0 ->
  0 < n_concepts self -> 0 < n_classes self ->
  shape c0 = [Z.to_nat (n_concepts self); Z.to_nat (n_classes self); f;
              Z.to_nat (n_samples self)]
  /\ forall i l phi j,
       (i < Z.to_nat (n_concepts self))%nat ->
       (l < Z.to_nat (n_classes self))%nat ->
       (phi < f)%nat -> (j < Z.to_nat (n_samples self))%nat ->
       exists m,
         make_classification (n_samples self) (n_classes self)
           (random_state self + Z.of_nat i)
           (one_hot (Z.to_nat (n_classes self)) l) = Ok m
         /\ item c0 [i; l; phi; j] = item m [j; phi].
Proof.
  intros H Hk Hc. unfold build_concepts in H.
  apply rbind_Ok in H as (nested & Hnested & H).
  apply rbind_Ok in H as (arrays & Harrays & H).
  set (K := Z.to_nat (n_concepts self)) in *.
  set (C := Z.to_nat (n_classes self)) in *.
  set (N := Z.to_nat (n_samples self)) in *.
  assert (Hlen_nested : length nested = K).
  { rewrite (rmapM_length _ _ _ Hnested), py_range_length. unfold K. f_equal. lia. }
  assert (Hlen_arrays : length arrays = K).
  { rewrite (rmapM_length _ _ _ Harrays). exact Hlen_nested. }
  (* every array of one concept *)
  assert (Hconcept : forall i A, arrays !! i = Some A ->
            shape A = [C; f; N] /\ well_formed A
            /\ forall l phi j, (l < C)%nat -> (phi < f)%nat -> (j < N)%nat ->
                 exists m,
                   make_classification (n_samples self) (n_classes self)
                     (random_state self + Z.of_nat i) (one_hot C l) = Ok m
                   /\ item A [l; phi; j] = item m [j; phi]).
  { intros i A HA.
    assert (Hi : (i < K)%nat).
    { rewrite <- Hlen_arrays. eapply lookup_lt_Some, HA. }
    destruct (lookup_lt_is_Some_2 nested i ltac:(lia)) as [li Hli].
    destruct (rmapM_lookup _ _ _ _ _ Harrays Hli) as (A' & HA' & Hnp).
    assert (A' = A) as -> by congruence.
    assert (Hrange : py_range 0 (n_concepts self) !! i = Some (0 + Z.of_nat i)).
    { apply py_range_lookup. unfold K in Hi. lia. }
    destruct (rmapM_lookup _ _ _ _ _ Hnested Hrange) as (li' & Hli' & Hbuild).
    assert (li' = li) as -> by congruence.
    apply build_concept_item in Hbuild as (_ & Hlen & Hrows).
    fold C in Hlen, Hrows.
    assert (Hall : Forall (fun b => shape b = [f; N] /\ well_formed b) li).
    { apply Forall_lookup. intros r b Hb.
      assert (Hr : (r < C)%nat) by (rewrite <- Hlen; eapply lookup_lt_Some, Hb).
      destruct (Hrows r Hr) as (m & Hm & Hlm).
      assert (b = transpose m) as -> by congruence.
      split; [|apply transpose_well_formed].
      rewrite transpose_shape, (oracle_matrices _ _ _ _ _ Hm). reflexivity. }
    assert (Hne : li <> []).
    { intros ->. simpl in Hlen. unfold C in Hlen. lia. }
    destruct (np_array_item li A [f; N] Hnp Hne Hall) as (HsA & HwfA & HitemA).
    split; [rewrite HsA, Hlen; reflexivity|]. split; [exact HwfA|].
    intros l phi j Hl Hphi Hj.
    destruct (Hrows l Hl) as (m & Hm & Hlm).
    exists m. split; [rewrite Z.add_0_l in Hm; exact Hm|].
    rewrite (HitemA l (transpose m) [phi; j] Hlm).
    - rewrite transpose_item; [reflexivity|].
      rewrite (oracle_matrices _ _ _ _ _ Hm). simpl.
      repeat constructor; assumption.
    - repeat constructor; assumption. }
  assert (Hall : Forall (fun b => shape b = [C; f; N] /\ well_formed b) arrays).
  { apply Forall_lookup. intros i A HA.
    destruct (Hconcept i A HA) as (H1 & H2 & _). auto. }
  assert (Hne : arrays <> []).
  { intros ->. simpl in Hlen_arrays. unfold K in Hlen_arrays. lia. }
  destruct (np_array_item arrays c0 [C; f; N] H Hne Hall) as (Hs0 & _ & Hitem0).
  split; [rewrite Hs0, Hlen_arrays; reflexivity|].
  intros i l phi j Hi Hl Hphi Hj.
  destruct (lookup_lt_is_Some_2 arrays i ltac:(lia)) as [A HA].
  destruct (Hconcept i A HA) as (_ & _ & HitemA).
  destruct (HitemA l phi j Hl Hphi Hj) as (m & Hm & Heq).
  exists m. split; [exact Hm|].
  rewrite (Hitem0 i A [l; phi; j] HA); [exact Heq|].
  repeat constructor; assumption.
Qed.

End Assembly.

Lemma py_slice_length {A} (l : list A) lo hi :
  0 <= lo -> lo <= hi -> (Z.to_nat hi <= length l)%nat ->
  length (py_slice l lo hi) = (Z.to_nat hi - Z.to_nat lo)%nat.
Proof.
  intros Hlo Hhi Hlen. unfold py_slice.
  rewrite !slice_bound_nonneg by lia.
  rewrite length_take, length_drop. lia.
Qed.

Section Samples.

Variable logistic_cdf : Q -> Q.
Variable make_classification : Z -> Z -> Z -> list Q -> Result ndarray.
Variable f : nat.
Hypothesis oracle_matrices : oracle_shape make_classification f.

Abbreviation materialize10 := (materialize logistic_cdf make_classification).
Abbreviation get_chunk10 := (get_chunk logistic_cdf make_classification).
Abbreviation get_chunks10 := (get_chunks logistic_cdf make_classification).

Lemma select_concepts_length self g sel g' :
  select_concepts logistic_cdf self g = (Ok sel, g') ->
  2 <= n_samples self ->
  length sel = Z.to_nat (n_samples self).
Proof.
  intros H Hn.
  apply (select_concepts_inv logistic_cdf) in H
    as (period & probability & mask & _ & _ & _ & Hless & ->).
  assert (Hmask : length mask = Z.to_nat (n_samples self)).
  { rewrite (np_less_length _ _ _ Hless); rewrite draws_length; lia. }
  destruct (negb (reocurring self));
    [rewrite remap_concepts_length|]; rewrite length_map; exact Hmask.
Qed.

(** What materialisation assembles, for a stream of at least two samples
    and one class, and, without drift, a single concept whose class and
    feature axes [np.squeeze] leaves alone. *)
Lemma materialize_assembly self g a g' :
  2 <= n_samples self ->
  0 < n_classes self ->
  (0 < n_drifts self
   \/ (reocurring self = false /\ n_classes self <> 1 /\ f <> 1%nat)) ->
  materialize10 self g = (Ok a, g') ->
  shape (X a) = [Z.to_nat (n_samples self); f]
  /\ length (y a) = Z.to_nat (n_samples self)
  /\ forall j phi,
       (j < Z.to_nat (n_samples self))%nat -> (phi < f)%nat ->
       exists l m,
         y a !! j = Some l
         /\ 0 <= l < n_classes self
         /\ 0 <= concept_of a j < n_concepts self
         /\ make_classification (n_samples self) (n_classes self)
              (random_state self + concept_of a j)
              (one_hot (Z.to_nat (n_classes self)) (Z.to_nat l)) = Ok m
         /\ item (X a) [j; phi] = item m [j; phi].
Proof.
  intros Hn Hc Hcond Hm.
  destruct (materialize_inv logistic_cdf make_classification self g a g' Hm)
    as (c0 & g1 & noise & chosen & Hbuild & Hcs & Hr & Hsel & Hchoose & HX & Hy).
  apply np_random_rand_Ok in Hr as (_ & -> & _).
  set (K := Z.to_nat (n_concepts self)) in *.
  set (C := Z.to_nat (n_classes self)) in *.
  set (N := Z.to_nat (n_samples self)) in *.
  assert (Hlen : length (class_selector a) = N).
  { rewrite (select_classes_length _ _ _ _ Hsel); rewrite draws_length;
      [reflexivity | lia]. }
  assert (Hconcepts :
    shape (concepts a) = [C; f; N]
    /\ forall l phi j, (l < C)%nat -> (phi < f)%nat -> (j < N)%nat ->
         exists m,
           0 <= concept_of a j < n_concepts self
           /\ make_classification (n_samples self) (n_classes self)
                (random_state self + concept_of a j) (one_hot C l) = Ok m
           /\ item (concepts a) [l; phi; j] = item m [j; phi]).
  { destruct (0 <? n_drifts self) eqn:Ed.
    - destruct Hcs as (s & Hs & Hcsel & Hch).
      assert (Hk : 0 < n_concepts self).
      { apply Z.ltb_lt in Ed. unfold n_concepts.
        destruct (reocurring self); simpl; lia. }
      destruct (build_concepts_item make_classification f oracle_matrices
                  self c0 Hbuild Hk Hc) as [Hs0 Hitem0].
      fold K C N in Hs0, Hitem0.
      assert (Hslen : length s = N)
        by (apply (select_concepts_length self g s g1 Hs Hn)).
      destruct (np_choose_item s c0 (concepts a) K [C; f] Hch) as [Hs1 Hitem1].
      { rewrite Hs0, Hslen. reflexivity. }
      rewrite Hslen in Hs1, Hitem1.
      split; [exact Hs1|].
      intros l phi j Hl Hphi Hj.
      destruct (Hitem1 [l; phi] j) as (k & Hk1 & Hk2 & Hk3).
      { repeat constructor; assumption. }
      destruct (Hitem0 (Z.to_nat k) l phi j) as (m & Hm0 & Heq);
        [unfold K in *; lia | assumption..|].
      exists m. unfold concept_of. rewrite Hcsel, Hk1. cbn [default from_option id].
      split; [unfold K in *; lia|].
      split; [rewrite Z2Nat.id in Hm0 by lia; exact Hm0|].
      cbn [app] in Hk3. rewrite Hk3. exact Heq.
    - destruct Hcs as (Hnone & _ & Hsq).
      apply Z.ltb_ge in Ed.
      destruct Hcond as [Hd|(Hre & Hc1 & Hf1)]; [lia|].
      assert (Hk : 0 < n_concepts self).
      { destruct (Z_lt_le_dec 0 (n_concepts self)) as [H|H]; [exact H|].
        destruct (materialize_no_concepts logistic_cdf make_classification
                    self g H) as (e & g2 & He).
        rewrite He in Hm. discriminate. }
      assert (HK : K = 1%nat).
      { unfold K, n_concepts in *. rewrite Hre in *. simpl in *. lia. }
      destruct (build_concepts_item make_classification f oracle_matrices
                  self c0 Hbuild Hk Hc) as [Hs0 Hitem0].
      fold K C N in Hs0, Hitem0. rewrite HK in Hs0, Hitem0.
      assert (Hshape : shape (concepts a) = [C; f; N]).
      { rewrite Hsq. unfold np_squeeze. cbn [shape]. rewrite Hs0.
        rewrite !filter_cons, filter_nil.
        repeat case_decide; try reflexivity; try congruence;
          unfold C, N in *; lia. }
      split; [exact Hshape|].
      intros l phi j Hl Hphi Hj.
      destruct (Hitem0 0%nat l phi j) as (m & Hm0 & Heq); [lia | assumption..|].
      exists m. unfold concept_of. rewrite Hnone.
      split; [lia|]. split; [exact Hm0|].
      rewrite <- Heq. unfold item. rewrite Hshape, Hs0.
      rewrite (ravel_cons 1 [C; f; N] 0 [l; phi; j]) by reflexivity.
      rewrite Hsq. reflexivity. }
  destruct Hconcepts as [Hshape Hitems].
  destruct (np_choose_item (class_selector a) (concepts a) chosen C [f] Hchoose)
    as [Hs2 Hitem2].
  { rewrite Hshape, Hlen. reflexivity. }
  rewrite Hlen in Hs2, Hitem2.
  split; [rewrite HX, transpose_shape, Hs2; reflexivity|].
  split; [rewrite Hy; exact Hlen|].
  intros j phi Hj Hphi.
  destruct (Hitem2 [phi] j) as (l & Hl1 & Hl2 & Hl3).
  { repeat constructor; assumption. }
  destruct (Hitems (Z.to_nat l) phi j) as (m & Hcon & Hm0 & Heq);
    [unfold C in *; lia | assumption..|].
  exists l, m. rewrite Hy.
  split; [exact Hl1|]. split; [unfold C in *; lia|].
  split; [exact Hcon|]. split; [exact Hm0|].
  rewrite HX, transpose_item.
  - cbn [rev app]. cbn [app] in Hl3. rewrite Hl3. exact Heq.
  - rewrite Hs2. repeat constructor; assumption.
Qed.

(** A chunk that a run of calls returns is a chunk of a stream that one of
    the calls materialised. *)
Lemma run_chunk_inv k : forall self g rs self' g' c,
  attrs self = None ->
  get_chunks10 k self g = (rs, self', g') ->
  Ok (Some c) ∈ rs ->
  exists g0 a g1 a' id,
    materialize10 self g0 = (Ok a, g1)
    /\ attrs self' = Some a' /\ same_stream a a'
    /\ 0 <= id < n_chunks self
    /\ c = chunk_of self a id.
Proof.
  induction k as [|k IH]; intros self g rs self' g' c Hattrs Hrun Hin.
  - simpl in Hrun. injection Hrun as <- _ _. inversion Hin.
  - destruct (materialize10 self g) as [[a|e] g1] eqn:Hm.
    + destruct (Z_lt_le_dec 0 (n_chunks self)) as [Hn|Hn].
      * destruct (cursor_after logistic_cdf make_classification k self g a g1
                    Hattrs Hm Hn)
          as (s2 & a2 & Hrun2 & Hattrs2 & _ & Hs2 & _).
        rewrite Hrun2 in Hrun.
        assert (Hrs : rs = map (fun i => Ok (reply self a (Z.of_nat i)))
                               (seq 0 (S k))) by congruence.
        assert (self' = s2) as -> by congruence.
        rewrite Hrs in Hin.
        apply list_elem_of_In, in_map_iff in Hin as (i & Hi & _).
        exists g, a, g1, a2, (Z.of_nat i).
        split; [exact Hm|]. split; [exact Hattrs2|]. split; [exact Hs2|].
        unfold reply in Hi.
        destruct (Z.of_nat i <? n_chunks self) eqn:E; [|discriminate].
        apply Z.ltb_lt in E. split; [lia | congruence].
      * destruct (get_chunk_fresh logistic_cdf make_classification self g a g1
                    Hattrs Hm)
          as (s1 & a1 & Hcall & Hattrs1 & _ & _ & _ & Hcur1).
        assert (Hnone : reply self a 0 = None).
        { unfold reply. destruct (0 <? n_chunks self) eqn:E; [|reflexivity].
          apply Z.ltb_lt in E. lia. }
        cbn [get_chunks] in Hrun. rewrite Hcall in Hrun.
        rewrite (get_chunks_stuck logistic_cdf make_classification k s1 a1 g1
                   Hattrs1) in Hrun by congruence.
        assert (Hrs : rs = Ok (reply self a 0)
                           :: replicate k (Raise MissingCurrentChunk))
          by congruence.
        rewrite Hrs, Hnone in Hin.
        apply elem_of_cons in Hin as [Hin|Hin]; [discriminate|].
        apply elem_of_replicate in Hin as [Hin _]. discriminate.
    + cbn [get_chunks] in Hrun.
      rewrite (get_chunk_fresh_raise logistic_cdf make_classification self g e
                 g1 Hattrs Hm) in Hrun.
      destruct (get_chunks10 k self g1) as [[rs1 s2] g2] eqn:Hrest.
      assert (Hrs : rs = Raise e :: rs1) by congruence.
      assert (self' = s2) as -> by congruence.
      rewrite Hrs in Hin.
      apply elem_of_cons in Hin as [Hin|Hin]; [discriminate|].
      exact (IH self g1 rs1 s2 g2 c Hattrs Hrest Hin).
Qed.

(** X16.  The assembly of the stream.  With at least two samples, sample
    [j] carries the label [l = y[j]] and the feature vector of row [j] of
    the matrix that the oracle returns for the seed [random_state +
    concept], the one-hot weights of class [l] and the full number of
    samples, where the concept is the entry of the concept selector at
    [j], and 0 without drift. *)
Theorem sample_assembly self g r self' g' :
  attrs self = None ->
  2 <= n_samples self ->
  0 < n_classes self ->
  (0 < n_drifts self
   \/ (reocurring self = false /\ n_classes self <> 1 /\ f <> 1%nat)) ->
  get_chunk10 self g = (Ok (r, self'), g') ->
  exists a,
    attrs self' = Some a
    /\ shape (X a) = [Z.to_nat (n_samples self); f]
    /\ length (y a) = Z.to_nat (n_samples self)
    /\ forall j phi,
         (j < Z.to_nat (n_samples self))%nat -> (phi < f)%nat ->
         exists l m,
           y a !! j = Some l
           /\ 0 <= l < n_classes self
           /\ 0 <= concept_of a j < n_concepts self
           /\ make_classification (n_samples self) (n_classes self)
                (random_state self + concept_of a j)
                (one_hot (Z.to_nat (n_classes self)) (Z.to_nat l)) = Ok m
           /\ item (X a) [j; phi] = item m [j; phi].
Proof.
  intros Hattrs Hn Hc Hcond Hcall.
  destruct (materialize10 self g) as [[a|e] g2] eqn:Hm.
  2:{ rewrite (get_chunk_fresh_raise logistic_cdf make_classification self g e
                 g2 Hattrs Hm) in Hcall. discriminate. }
  destruct (get_chunk_fresh logistic_cdf make_classification self g a g2
              Hattrs Hm)
    as (s1 & a1 & Hcall1 & Hattrs1 & _ & Hs1 & _).
  rewrite Hcall1 in Hcall. assert (self' = s1) as -> by congruence.
  destruct Hs1 as (_ & Hcs1 & _ & HX1 & Hy1).
  destruct (materialize_assembly self g a g2 Hn Hc Hcond Hm)
    as (HX & Hy & Hrows).
  exists a1. split; [exact Hattrs1|].
  unfold concept_of. rewrite HX1, Hy1, Hcs1.
  split; [exact HX|]. split; [exact Hy|]. exact Hrows.
Qed.

(** X17.  Every chunk that a run of calls returns has [chunk_size] rows of
    [f] features and [chunk_size] labels, and they are the rows and labels
    of [X] and [y] from [chunk_size * id] on, for a chunk number [id]
    below [n_chunks]. *)
Theorem chunk_rows k self g rs self' g' features labels :
  attrs self = None ->
  2 <= n_samples self ->
  0 < n_classes self ->
  (0 < n_drifts self
   \/ (reocurring self = false /\ n_classes self <> 1 /\ f <> 1%nat)) ->
  get_chunks10 k self g = (rs, self', g') ->
  Ok (Some (features, labels)) ∈ rs ->
  exists a id,
    attrs self' = Some a
    /\ 0 <= id < n_chunks self
    /\ shape features = [Z.to_nat (chunk_size self); f]
    /\ length labels = Z.to_nat (chunk_size self)
    /\ forall r, (r < Z.to_nat (chunk_size self))%nat ->
         labels !! r = y a !! (Z.to_nat (chunk_size self * id) + r)%nat
         /\ forall phi, (phi < f)%nat ->
              item features [r; phi]
              = item (X a) [(Z.to_nat (chunk_size self * id) + r)%nat; phi].
Proof.
  intros Hattrs Hn Hc Hcond Hrun Hin.
  destruct (run_chunk_inv k self g rs self' g' _ Hattrs Hrun Hin)
    as (g0 & a & g1 & a' & id & Hm & Hattrs' & Hs & Hid & Hchunk).
  destruct (materialize_assembly self g0 a g1 Hn Hc Hcond Hm)
    as (HX & Hy & _).
  destruct Hs as (_ & _ & _ & HX' & Hy').
  injection Hchunk as -> ->.
  exists a', id. rewrite HX', Hy'.
  split; [exact Hattrs'|]. split; [exact Hid|].
  unfold n_samples in *.
  assert (Hcs : 0 < chunk_size self) by nia.
  assert (Hlo : 0 <= chunk_size self * id) by nia.
  assert (Hhi : chunk_size self * id + chunk_size self
                <= n_chunks self * chunk_size self) by nia.
  split.
  { rewrite (nd_slice_shape _ _ _ _ _ HX) by lia. f_equal. lia. }
  split.
  { rewrite py_slice_length by lia. lia. }
  intros r Hr. split.
  - rewrite py_slice_lookup by lia.
    destruct (decide _) as [_|Hno]; [reflexivity|]. exfalso. apply Hno. lia.
  - intros phi Hphi. apply (nd_slice_item _ _ _ _ _ _ _ HX); lia.
Qed.

End Samples.

(** ** The chunks as a partition of the stream *)

Lemma py_slice_take_drop {A} (l : list A) lo len :
  0 <= lo -> 0 <= len ->
  py_slice l lo (lo + len) = take (Z.to_nat len) (drop (Z.to_nat lo) l).
Proof.
  intros Hlo Hlen. apply list_eq. intros i.
  rewrite py_slice_lookup by lia. rewrite lookup_take, lookup_drop.
  destruct (decide (Z.to_nat lo + i < Z.to_nat (lo + len))%nat) as [H1|H1],
           (decide (i < Z.to_nat len)%nat) as [H2|H2]; try reflexivity; lia.
Qed.

Lemma concat_slices {A} (l : list A) (cs n : nat) :
  concat (map (fun i => take cs (drop (cs * i) l)) (seq 0 n))
  = take (n * cs) l.
Proof.
  induction n as [|n IH]; [rewrite take_0; reflexivity|].
  rewrite seq_S, map_app, concat_app, IH. cbn [map concat Nat.add].
  rewrite app_nil_r. replace (cs * n)%nat with (n * cs)%nat by lia.
  rewrite take_take_drop. f_equal. lia.
Qed.

Lemma py_range_elem_of (a b i : Z) : a <= i < b -> i ∈ py_range a b.
Proof.
  intros H. apply list_elem_of_lookup. exists (Z.to_nat (i - a)).
  rewrite py_range_lookup by lia. f_equal. lia.
Qed.

Section Partition.

Variable logistic_cdf : Q -> Q.
Variable make_classification : Z -> Z -> Z -> list Q -> Result ndarray.

Abbreviation materialize11 := (materialize logistic_cdf make_classification).
Abbreviation get_chunks11 := (get_chunks logistic_cdf make_classification).

(** The drift scheduler never returns more probabilities than there are
    samples. *)
Lemma sigmoid_length_le self spacing n period probabilities :
  0 <= n_samples self ->
  _sigmoid logistic_cdf self spacing n = Ok (period, probabilities) ->
  (length probabilities <= Z.to_nat (n_samples self))%nat.
Proof.
  intros Hs H. destruct (Z_lt_le_dec 0 n) as [Hn|Hn].
  - destruct (sigmoid_probabilities logistic_cdf self spacing n Hs Hn)
      as (ps & Hps & Hlen).
    rewrite H in Hps. injection Hps as _ <-.
    pose proof (Z.mul_div_le (n_samples self) n Hn). lia.
  - unfold _sigmoid, np_ones in H. apply Z.ltb_ge in Hn, Hs.
    rewrite Hn, Hs in H. injection H as _ <-. rewrite length_replicate. lia.
Qed.

Lemma np_less_length_le a b mask :
  np_less a b = Ok mask -> (length a <= length b)%nat ->
  (length mask <= length b)%nat.
Proof.
  unfold np_less. destruct (length a =? length b)%nat eqn:E.
  - intros H _. injection H as <-. rewrite length_zip_with. lia.
  - destruct a as [|p [|p' a]].
    + destruct b as [|y0 [|y1 b]]; try discriminate.
      intros H _. injection H as <-. simpl. lia.
    + intros H _. injection H as <-. rewrite length_map. lia.
    + destruct b as [|y0 [|y1 b]]; try discriminate. simpl. lia.
Qed.

Lemma select_classes_length_le self noise sel :
  0 <= n_samples self ->
  length noise = Z.to_nat (n_samples self) ->
  select_classes logistic_cdf self noise = Ok sel ->
  (length sel <= length noise)%nat.
Proof.
  intros Hs Hnoise. unfold select_classes.
  destruct (weights self) as [|ws|nb sp amp].
  - intros H. injection H as <-. rewrite length_map. lia.
  - intros H. injection H as <-. rewrite static_selector_map, length_map. lia.
  - intros H. apply rbind_Ok in H as ([period probs] & Hsig & H).
    apply rbind_Ok in H as (mask & Hless & H). injection H as <-.
    rewrite length_map. apply (np_less_length_le _ _ _ Hless).
    rewrite length_map, Hnoise. cbn [snd].
    apply (sigmoid_length_le self sp nb period probs Hs Hsig).
Qed.

(** X18.  The chunks partition the stream: the labels of the [n_chunks]
    chunks, one after the other, are the label vector [y], no sample left
    out and none given twice. *)
Theorem chunks_partition_labels self g rs self' g' :
  attrs self = None ->
  0 < n_chunks self ->
  get_chunks11 (Z.to_nat (n_chunks self)) self g = (rs, self', g') ->
  Forall successful rs ->
  exists a, attrs self' = Some a /\ concat (map labels_of rs) = y a.
Proof.
  intros Hattrs Hn Hrun Hall.
  destruct (Z.to_nat (n_chunks self)) as [|k] eqn:Hk; [lia|].
  destruct (successful_run_inv logistic_cdf make_classification k self g rs
              self' g' Hattrs Hrun Hall) as (a & Hm & _).
  destruct (cursor_after logistic_cdf make_classification k self g a g'
              Hattrs Hm Hn)
    as (s2 & a2 & Hrun2 & Hattrs2 & _ & Hs2 & _).
  rewrite Hrun2 in Hrun.
  assert (Hrs : rs = map (fun i => Ok (reply self a (Z.of_nat i))) (seq 0 (S k)))
    by congruence.
  assert (self' = s2) as -> by congruence.
  destruct (materialize_inv logistic_cdf make_classification self g a g' Hm)
    as (c0 & g1 & noise & chosen & _ & _ & Hr & Hsel & _ & _ & Hy).
  apply np_random_rand_Ok in Hr as (Hsamples & -> & _).
  pose proof (select_classes_length_le self _ _ Hsamples
                (draws_length g1 (n_samples self)) Hsel) as Hlen.
  rewrite draws_length in Hlen.
  assert (Hcs : 0 <= chunk_size self) by (unfold n_samples in Hsamples; nia).
  exists a2. split; [exact Hattrs2|].
  destruct Hs2 as (_ & _ & _ & _ & ->). rewrite Hy.
  rewrite Hrs, map_map.
  rewrite (map_ext_in _ (fun i => take (Z.to_nat (chunk_size self))
                                   (drop (Z.to_nat (chunk_size self) * i)
                                      (class_selector a)))).
  - rewrite concat_slices. apply take_ge.
    unfold n_samples in Hlen. nia.
  - intros i Hi. apply in_seq in Hi. unfold reply.
    destruct (Z.of_nat i <? n_chunks self) eqn:E;
      [|apply Z.ltb_ge in E; lia].
    unfold chunk_of, labels_of. rewrite Hy.
    rewrite py_slice_take_drop by nia. do 2 f_equal. nia.
Qed.

End Partition.

(** ** Labels and classes; streams off the beaten track *)

Section Edges.

Variable logistic_cdf : Q -> Q.
Variable make_classification : Z -> Z -> Z -> list Q -> Result ndarray.
Variable f : nat.
Hypothesis oracle_matrices : oracle_shape make_classification f.

Abbreviation materialize12 := (materialize logistic_cdf make_classification).
Abbreviation get_chunk12 := (get_chunk logistic_cdf make_classification).
Abbreviation get_chunks12 := (get_chunks logistic_cdf make_classification).




End Edges.

(** ** Streams for which the first call returns *)

Lemma indices_valid s : forall idx, idx ∈ indices s -> valid_index s idx.
Proof.
  induction s as [|d s IH]; intros idx H.
  - apply list_elem_of_singleton in H as ->. constructor.
  - simpl in H. apply list_elem_of_In, in_flat_map in H as (i & Hi & H).
    apply in_map_iff in H as (idx' & <- & Hidx').
    apply in_seq in Hi. constructor; [lia|].
    apply IH, list_elem_of_In, Hidx'.
Qed.

Lemma np_array_total l s :
  Forall (fun b => shape b = s) l -> exists c, np_array l = Ok c.
Proof.
  intros Hall. destruct l as [|a0 l']; [simpl; eauto|].
  unfold np_array.
  assert (E : forallb (fun b => shape_eqb (shape b) (shape a0)) (a0 :: l') = true).
  { apply forallb_forall. intros b Hb. unfold shape_eqb.
    apply bool_decide_eq_true. rewrite Forall_forall in Hall.
    rewrite (Hall b), (Hall a0);
      [reflexivity | apply elem_of_cons; auto | apply list_elem_of_In, Hb]. }
  rewrite E. eauto.
Qed.

(** [np.choose] returns when there are between 1 and 31 choices, the index
    array is as long as their last axis, and its entries name choices. *)
Lemma np_choose_total a ch m pre :
  shape ch = m :: pre ++ [length a] ->
  (0 < m < 32)%nat ->
  Forall (fun k => 0 <= k < Z.of_nat m) a ->
  exists r, np_choose a ch = Ok r.
Proof.
  intros Hshape Hm Ha. unfold np_choose. rewrite Hshape.
  assert (E : (m =? 0)%nat || (NPY_MAXARGS <? m + 1)%nat = false).
  { apply orb_false_iff. split; [apply Nat.eqb_neq; lia|].
    apply Nat.ltb_ge. unfold NPY_MAXARGS. lia. }
  rewrite E, broadcast_last.
  match goal with
  | |- exists r, rbind (rmapM ?g ?l) _ = _ =>
      destruct (rmapM_total g l) as [d Hd]
  end.
  - intros idx Hidx. apply indices_valid in Hidx.
    pose proof Hidx as Hidx'. unfold valid_index in Hidx'.
    apply Forall2_app_inv_r in Hidx' as (ipre & jl & _ & Hj & ->).
    inversion Hj as [|j ? ? ? Hlt Hnil]; subst. inversion Hnil; subst.
    rewrite (operand_index_last _ _ _ Hlt).
    change (ravel [length a] [j]) with (0 * length a + j)%nat.
    cbn [Nat.mul Nat.add].
    destruct (lookup_lt_is_Some_2 a j Hlt) as [k Hk].
    rewrite (nth_lookup_Some a j 0 k Hk).
    rewrite Forall_lookup in Ha. specialize (Ha j k Hk).
    assert (E' : (0 <=? k) && (k <? Z.of_nat m) = true).
    { apply andb_true_iff. rewrite Z.leb_le, Z.ltb_lt. exact Ha. }
    rewrite E'. eauto.
  - rewrite Hd. simpl. eauto.
Qed.

Section Returns.

Variable logistic_cdf : Q -> Q.
Variable make_classification : Z -> Z -> Z -> list Q -> Result ndarray.
Variable f : nat.
Hypothesis oracle_matrices : oracle_shape make_classification f.
Hypothesis oracle_returns : oracle_total make_classification.

Abbreviation materialize13 := (materialize logistic_cdf make_classification).
Abbreviation get_chunk13 := (get_chunk logistic_cdf make_classification).
Abbreviation get_chunks13 := (get_chunks logistic_cdf make_classification).

Lemma build_concepts_total self :
  0 <= n_samples self -> 0 <= n_classes self ->
  exists c0, build_concepts make_classification self = Ok c0.
Proof.
  intros Hn Hc. unfold build_concepts.
  destruct (rmapM_total (build_concept make_classification self)
              (py_range 0 (n_concepts self))) as [nested Hnested].
  { intros i _. unfold build_concept, diag_rows.
    apply Z.ltb_ge in Hc. rewrite Hc. cbn [rbind].
    apply rmapM_total. intros w _.
    destruct (oracle_returns (n_chunks self * chunk_size self) (n_classes self)
                (random_state self + i) w Hn) as [m Hm].
    rewrite Hm. simpl. eauto. }
  rewrite Hnested. cbn [rbind].
  assert (Hshapes : forall li, li ∈ nested ->
            Forall (fun b => shape b = [f; Z.to_nat (n_samples self)]) li).
  { intros li Hli. apply list_elem_of_lookup in Hli as [i Hi].
    assert (Hi' : (i < length (py_range 0 (n_concepts self)))%nat).
    { rewrite <- (rmapM_length _ _ _ Hnested). eapply lookup_lt_Some, Hi. }
    destruct (lookup_lt_is_Some_2 _ _ Hi') as [x Hx].
    destruct (rmapM_lookup _ _ _ _ _ Hnested Hx) as (li' & Hli' & Hbuild).
    assert (li' = li) as -> by congruence.
    apply build_concept_item in Hbuild as (_ & Hlen & Hrows).
    apply Forall_lookup. intros r b Hb.
    assert (Hr : (r < Z.to_nat (n_classes self))%nat)
      by (rewrite <- Hlen; eapply lookup_lt_Some, Hb).
    destruct (Hrows r Hr) as (m & Hm & Hlm).
    assert (b = transpose m) as -> by congruence.
    rewrite transpose_shape, (oracle_matrices _ _ _ _ _ Hm). reflexivity. }
  destruct (rmapM_total np_array nested) as [arrays Harrays].
  { intros li Hli. apply (np_array_total li _ (Hshapes li Hli)). }
  rewrite Harrays. cbn [rbind].
  destruct (decide (0 < n_classes self)) as [Hpos|Hzero].
  - apply (np_array_total arrays
             [Z.to_nat (n_classes self); f; Z.to_nat (n_samples self)]).
    apply Forall_lookup. intros i A HA.
    assert (Hi : (i < length nested)%nat).
    { rewrite <- (rmapM_length _ _ _ Harrays). eapply lookup_lt_Some, HA. }
    destruct (lookup_lt_is_Some_2 _ _ Hi) as [li Hli].
    destruct (rmapM_lookup _ _ _ _ _ Harrays Hli) as (A' & HA' & Hnp).
    assert (A' = A) as -> by congruence.
    assert (Hi' : (i < length (py_range 0 (n_concepts self)))%nat).
    { rewrite <- (rmapM_length _ _ _ Hnested). exact Hi. }
    destruct (lookup_lt_is_Some_2 _ _ Hi') as [x Hx].
    destruct (rmapM_lookup _ _ _ _ _ Hnested Hx) as (li' & Hli' & Hbuild).
    assert (li' = li) as -> by congruence.
    apply build_concept_item in Hbuild as (_ & Hlen & Hrows).
    assert (Hne : li <> []) by (intros ->; simpl in Hlen; lia).
    assert (Hall : Forall (fun b => shape b = [f; Z.to_nat (n_samples self)]
                                    /\ well_formed b) li).
    { apply Forall_lookup. intros r b Hb.
      assert (Hr : (r < Z.to_nat (n_classes self))%nat)
        by (rewrite <- Hlen; eapply lookup_lt_Some, Hb).
      destruct (Hrows r Hr) as (m & Hm & Hlm).
      assert (b = transpose m) as -> by congruence.
      split; [|apply transpose_well_formed].
      rewrite transpose_shape, (oracle_matrices _ _ _ _ _ Hm). reflexivity. }
    destruct (np_array_item li A _ Hnp Hne Hall) as (HsA & _).
    rewrite HsA, Hlen. reflexivity.
  - apply (np_array_total arrays [0%nat]).
    apply Forall_lookup. intros i A HA.
    assert (Hi : (i < length nested)%nat).
    { rewrite <- (rmapM_length _ _ _ Harrays). eapply lookup_lt_Some, HA. }
    destruct (lookup_lt_is_Some_2 _ _ Hi) as [li Hli].
    destruct (rmapM_lookup _ _ _ _ _ Harrays Hli) as (A' & HA' & Hnp).
    assert (A' = A) as -> by congruence.
    assert (Hi' : (i < length (py_range 0 (n_concepts self)))%nat).
    { rewrite <- (rmapM_length _ _ _ Hnested). exact Hi. }
    destruct (lookup_lt_is_Some_2 _ _ Hi') as [x Hx].
    destruct (rmapM_lookup _ _ _ _ _ Hnested Hx) as (li' & Hli' & Hbuild).
    assert (li' = li) as -> by congruence.
    apply build_concept_item in Hbuild as (_ & Hlen & _).
    destruct li; [|simpl in Hlen; lia].
    simpl in Hnp. injection Hnp as <-. reflexivity.
Qed.

Lemma np_less_total a b :
  length a = length b -> np_less a b = Ok (zip_with Qltb a b).
Proof.
  intros H. unfold np_less. apply Nat.eqb_eq in H. rewrite H. reflexivity.
Qed.

Lemma np_random_rand_total n g :
  0 <= n ->
  np_random_rand n g = (Ok (draws g n), fun i => g (Z.to_nat n + i)%nat).
Proof.
  intros H. unfold np_random_rand. apply Z.ltb_ge in H. rewrite H. reflexivity.
Qed.

(** With a number of drifts that divides the number of samples, or without
    drifts, [_sigmoid] returns one probability per sample. *)
Lemma sigmoid_full self spacing n :
  0 <= n_samples self ->
  n <= 0 \/ n_samples self mod n = 0 ->
  exists period probabilities,
    _sigmoid logistic_cdf self spacing n = Ok (period, probabilities)
    /\ length probabilities = Z.to_nat (n_samples self).
Proof.
  intros Hs Hn. destruct (Z_lt_le_dec 0 n) as [Hpos|Hneg].
  - destruct Hn as [Hn|Hmod]; [lia|].
    destruct (sigmoid_probabilities logistic_cdf self spacing n Hs Hpos)
      as (ps & Hps & Hlen).
    exists (n_samples self / n), ps. split; [exact Hps|].
    pose proof (Z.div_mod (n_samples self) n ltac:(lia)). lia.
  - unfold _sigmoid, np_ones. apply Z.ltb_ge in Hneg, Hs. rewrite Hneg, Hs.
    eexists _, _. split; [reflexivity|]. apply length_replicate.
Qed.

Lemma select_concepts_total self g :
  0 < n_drifts self ->
  n_samples self mod n_drifts self = 0 ->
  0 <= n_samples self ->
  exists sel g',
    select_concepts logistic_cdf self g = (Ok sel, g')
    /\ Forall (fun v => 0 <= v < n_concepts self) sel.
Proof.
  intros Hd Hmod Hs.
  destruct (sigmoid_full self (concept_sigmoid_spacing self) (n_drifts self)
              Hs (or_intror Hmod)) as (period & probs & Hsig & Hlen).
  assert (Hrun : exists sel g',
             select_concepts logistic_cdf self g = (Ok sel, g')).
  { unfold select_concepts, bind, lift. rewrite Hsig.
    rewrite (np_random_rand_total _ _ Hs).
    rewrite np_less_total by (rewrite draws_length; exact Hlen).
    unfold ret. eauto. }
  destruct Hrun as (sel & g' & Hrun). exists sel, g'. split; [exact Hrun|].
  destruct (select_concepts_stated logistic_cdf self g sel g' Hd Hrun)
    as (period' & probs' & _ & ->).
  apply Forall_lookup. intros j v Hv.
  unfold stated_selector in Hv. rewrite list_lookup_imap in Hv.
  destruct (zip_with Qltb probs' (draws g (n_samples self)) !! j) as [b|];
    [|discriminate].
  injection Hv as <-. unfold n_concepts.
  destruct (reocurring self) eqn:Hre; cbn [negb].
  - unfold stated_concept. destruct b; simpl; lia.
  - pose proof (stated_concept_range (n_drifts self) period' false j b Hd). lia.
Qed.

Lemma select_classes_total self noise :
  0 < n_classes self ->
  weights_precondition self ->
  balance_fits self ->
  0 <= n_samples self ->
  length noise = Z.to_nat (n_samples self) ->
  Forall (fun x => (0 <= x)%Q /\ (x < 1)%Q) noise ->
  exists sel,
    select_classes logistic_cdf self noise = Ok sel
    /\ Forall (fun l => 0 <= l < n_classes self) sel.
Proof.
  intros Hc Hw Hfit Hs Hlen Hnoise.
  assert (Hrun : exists sel, select_classes logistic_cdf self noise = Ok sel).
  { unfold select_classes, balance_fits in *.
    destruct (weights self) as [|ws|nb sp amp]; [eauto..|].
    destruct (sigmoid_full self sp nb Hs Hfit) as (period & probs & -> & Hp).
    cbn [rbind snd].
    rewrite np_less_total by (rewrite length_map; congruence).
    simpl. eauto. }
  destruct Hrun as [sel Hsel]. exists sel. split; [exact Hsel|].
  exact (select_classes_range logistic_cdf self noise sel Hc Hw Hnoise Hsel).
Qed.

Lemma squeeze_single_concept c0 (C N : nat) :
  shape c0 = [1%nat; C; f; N] ->
  C <> 1%nat -> f <> 1%nat -> N <> 1%nat ->
  shape (np_squeeze c0) = [C; f; N].
Proof.
  intros Hs HC Hf HN. unfold np_squeeze. cbn [shape]. rewrite Hs.
  rewrite !filter_cons, filter_nil.
  repeat case_decide; try reflexivity; congruence.
Qed.

(** The regular configurations materialise. *)
Lemma materialize_total self g :
  regular self f -> uniform g ->
  exists a g', materialize13 self g = (Ok a, g').
Proof.
  intros (Hchunks & Hn & Hc & Hw & Hfit & Hcase) Hg.
  destruct (build_concepts_total self ltac:(lia) ltac:(lia)) as [c0 Hc0].
  set (C := Z.to_nat (n_classes self)).
  set (N := Z.to_nat (n_samples self)).
  unfold materialize. unfold bind at 1, lift at 1. rewrite Hc0.
  destruct Hcase as [(Hd & Hmod & Hk)|(Hd & Hre & Hc1 & Hf1)].
  - assert (Hkpos : 0 < n_concepts self).
    { unfold n_concepts. destruct (reocurring self); simpl; lia. }
    destruct (build_concepts_item make_classification f oracle_matrices self c0
                Hc0 Hkpos ltac:(lia)) as [Hs0 _].
    destruct (select_concepts_total self g Hd Hmod ltac:(lia))
      as (s & g1 & Hs & Hsrange).
    assert (Hslen : length s = N)
      by (apply (select_concepts_length logistic_cdf self g s g1 Hs Hn)).
    assert (Hg1 : uniform g1).
    { pose proof (select_concepts_uniform logistic_cdf self g Hg) as Hu.
      rewrite Hs in Hu. exact Hu. }
    destruct (select_classes_total self (draws g1 (n_samples self))
                ltac:(lia) Hw Hfit ltac:(lia) (draws_length _ _)
                (draws_uniform g1 _ Hg1)) as (sel & Hsel & Hselrange).
    assert (Hsellen : length sel = N).
    { rewrite (select_classes_length _ _ _ _ Hsel); rewrite draws_length;
        [reflexivity | lia]. }
    destruct (np_choose_total s c0 (Z.to_nat (n_concepts self)) [C; f])
      as [c1 Hc1].
    { rewrite Hs0, Hslen. reflexivity. }
    { lia. }
    { eapply Forall_impl; [exact Hsrange|]. cbn. intros; lia. }
    destruct (np_choose_item s c0 c1 (Z.to_nat (n_concepts self)) [C; f] Hc1)
      as [Hs1 _].
    { rewrite Hs0, Hslen. reflexivity. }
    destruct (np_choose_total sel c1 C [f]) as [chosen Hchosen].
    { rewrite Hs1, Hslen, Hsellen. reflexivity. }
    { unfold C. lia. }
    { eapply Forall_impl; [exact Hselrange|]. cbn. unfold C. intros; lia. }
    apply Z.ltb_lt in Hd. rewrite Hd.
    unfold bind, lift, ret. rewrite Hs.
    rewrite (np_random_rand_total (n_samples self) g1 ltac:(lia)).
    rewrite Hsel, Hc1, Hchosen. eauto.
  - assert (Hkone : n_concepts self = 1).
    { unfold n_concepts. rewrite Hre, Hd. reflexivity. }
    destruct (build_concepts_item make_classification f oracle_matrices self c0
                Hc0 ltac:(lia) ltac:(lia)) as [Hs0 _].
    rewrite Hkone in Hs0. change (Z.to_nat 1) with 1%nat in Hs0.
    destruct (select_classes_total self (draws g (n_samples self))
                ltac:(lia) Hw Hfit ltac:(lia) (draws_length _ _)
                (draws_uniform g _ Hg)) as (sel & Hsel & Hselrange).
    assert (Hsellen : length sel = N).
    { rewrite (select_classes_length _ _ _ _ Hsel); rewrite draws_length;
        [reflexivity | lia]. }
    destruct (np_choose_total sel (np_squeeze c0) C [f]) as [chosen Hchosen].
    { rewrite (squeeze_single_concept c0 C N Hs0), Hsellen;
        [reflexivity | unfold C; lia | exact Hf1 | unfold N; lia]. }
    { unfold C. lia. }
    { eapply Forall_impl; [exact Hselrange|]. cbn. unfold C. intros; lia. }
    rewrite Hd. cbn [Z.ltb Z.compare].
    unfold bind, lift, ret.
    rewrite (np_random_rand_total (n_samples self) g ltac:(lia)).
    rewrite Hsel, Hchosen. eauto.
Qed.


End Returns.

(** ** A whole run of a regular stream *)

Section Run.

Variable logistic_cdf : Q -> Q.
Variable make_classification : Z -> Z -> Z -> list Q -> Result ndarray.
Variable f : nat.
Hypothesis oracle_matrices : oracle_shape make_classification f.
Hypothesis oracle_returns : oracle_total make_classification.

Abbreviation get_chunks14 := (get_chunks logistic_cdf make_classification).


End Run.

(** ** Concrete runs of the further properties *)

Lemma example_oracle_shape : oracle_shape example_make_classification 2.
Proof.
  intros n c s w m H. unfold example_make_classification in H.
  destruct (n <? 0); [discriminate|]. injection H as <-. reflexivity.
Qed.

Lemma example_oracle_total : oracle_total example_make_classification.
Proof.
  intros n c s w H. unfold example_make_classification.
  apply Z.ltb_ge in H. rewrite H. eauto.
Qed.

Lemma example_cdf_range x :
  (0 <= example_cdf x)%Q /\ (example_cdf x <= 1)%Q.
Proof.
  unfold example_cdf.
  assert (Habs : (0 <= Qabs x)%Q) by apply Qabs_nonneg.
  assert (Hpos : (0 < 1 + Qabs x)%Q) by lra.
  assert (Hle : (x <= Qabs x)%Q) by apply Qle_Qabs.
  assert (Hge : (- Qabs x <= x)%Q).
  { rewrite <- (Qopp_involutive x) at 2. apply Qopp_le_compat.
    rewrite <- Qabs_opp. apply Qle_Qabs. }
  assert (H1 : (x / (1 + Qabs x) <= 1)%Q)
    by (apply Qle_shift_div_r; [exact Hpos | lra]).
  assert (H2 : (-1 <= x / (1 + Qabs x))%Q)
    by (apply Qle_shift_div_l; [exact Hpos | lra]).
  split.
  - apply Qle_shift_div_l; lra.
  - apply Qle_shift_div_r; lra.
Qed.

Lemma example_run_eq k :
  example_run k
  = (fst (fst (example_run k)), snd (fst (example_run k)), snd (example_run k)).
Proof. destruct (example_run k) as [[rs s] g]. reflexivity. Qed.

(** X1 after two calls on the stationary stream. *)
Lemma previous_chunk_tracking_witness :
  exists a,
    attrs (snd (fst (example_run 2))) = Some a
    /\ fst (fst (example_run 2)) !! 1%nat = Some (Ok (current_chunk a))
    /\ fst (fst (example_run 2)) !! 0%nat = Some (Ok (previous_chunk a)).
Proof.
  apply (previous_chunk_tracking example_cdf example_make_classification 1
           example_stream example_random
           (fst (fst (example_run 2))) (snd (fst (example_run 2)))
           (snd (example_run 2))).
  - reflexivity.
  - apply (example_run_eq 2).
  - vm_compute. repeat constructor; eexists; reflexivity.
Defined.

(** X2 after three calls on the stationary stream of two chunks. *)
Lemma exhausted_stream_cursor_witness :
  exists a final,
    attrs (snd (fst (example_run 3))) = Some a
    /\ fst (fst (example_run 3)) !! 1%nat = Some (Ok (Some final))
    /\ chunk_id a = 2
    /\ current_chunk a = Some final
    /\ previous_chunk a = Some final
    /\ is_dry (snd (fst (example_run 3))) = true.
Proof.
  eapply (exhausted_stream_cursor example_cdf example_make_classification
            example_stream example_random _ _ _ 0
            (fst (fst (example_run 3))) (snd (fst (example_run 3)))
            (snd (example_run 3))).
  - reflexivity.
  - vm_compute. reflexivity.
  - apply (example_run_eq 3).
Defined.

(** X3: two more calls after the first one on the stationary stream. *)
Lemma materialized_once_witness :
  exists c self1 g1,
    get_chunk example_cdf example_make_classification example_stream
      example_random = (Ok (Some c, self1), g1)
    /\ exists rs self' a1 a',
         get_chunks example_cdf example_make_classification 2 self1 g1
         = (rs, self', g1)
         /\ Forall (fun r => is_Ok r = true) rs
         /\ attrs self1 = Some a1 /\ attrs self' = Some a'
         /\ same_stream a1 a' /\ same_parameters example_stream self'.
Proof.
  eexists _, _, _. split; [vm_compute; reflexivity|].
  eapply (materialized_once example_cdf example_make_classification
            example_stream example_random).
  - reflexivity.
  - vm_compute. reflexivity.
Defined.

(** X4 on a stream of minus one chunk of minus two samples. *)
Lemma empty_stream_raises_witness :
  exists self1 g1,
    get_chunk example_cdf example_make_classification
      (init (-1) (-2) 1410 0 None 2 false WeightsNone) example_random
    = (Ok (None, self1), g1)
    /\ is_dry (init (-1) (-2) 1410 0 None 2 false WeightsNone) = false
    /\ is_dry self1 = true
    /\ get_chunks example_cdf example_make_classification 3 self1 g1
       = (replicate 3 (Raise MissingCurrentChunk), self1, g1).
Proof.
  eexists _, _. split; [vm_compute; reflexivity|].
  match goal with
  | |- _ /\ is_dry ?s = true /\ get_chunks _ _ _ _ ?g = _ =>
      destruct (empty_stream_raises example_cdf example_make_classification
                  (init (-1) (-2) 1410 0 None 2 false WeightsNone)
                  example_random None s g)
        as (_ & Hfresh & Hdry & Hcalls)
  end.
  - reflexivity.
  - vm_compute. discriminate.
  - vm_compute. reflexivity.
  - split; [exact Hfresh|]. split; [exact Hdry|]. apply Hcalls.
Defined.

(** X5 after the second call on the stationary stream. *)
Lemma is_dry_predicts_end_witness :
  exists c self1 g1,
    get_chunk example_cdf example_make_classification example_stream
      example_random = (Ok (Some c, self1), g1)
    /\ exists rs self' g',
         get_chunks example_cdf example_make_classification 1 self1 g1
         = (rs, self', g')
         /\ (is_dry self' = true
             <-> returned (get_chunk example_cdf example_make_classification
                             self' g') = Ok None)
         /\ (is_dry self' = false
             <-> successful
                   (returned (get_chunk example_cdf
                                example_make_classification self' g'))).
Proof.
  eexists _, _, _. split; [vm_compute; reflexivity|].
  eexists _, _, _. split; [vm_compute; reflexivity|].
  eapply (is_dry_predicts_end example_cdf example_make_classification
            example_stream example_random _ _ _ 1).
  - reflexivity.
  - vm_compute. reflexivity.
  - vm_compute. reflexivity.
Defined.

(** X6 on the stream with two drifts: two blocks of four draws. *)
Lemma first_call_draws_witness :
  exists r self' g',
    get_chunk example_cdf example_make_classification example_drifting
      example_random = (Ok (r, self'), g')
    /\ 0 <= n_samples example_drifting
    /\ (forall i, g' i = example_random (2 * 4 + i)%nat)
    /\ exists a,
         attrs self' = Some a
         /\ select_classes example_cdf example_drifting
              (map (fun i => example_random ((2 - 1) * 4 + i)%nat) (seq 0 4))
            = Ok (y a).
Proof.
  eexists _, _, _. split; [vm_compute; reflexivity|].
  eapply (first_call_draws example_cdf example_make_classification
            example_drifting example_random).
  - reflexivity.
  - vm_compute. reflexivity.
Defined.



(** X9: the thresholds 1/2, 1/2 and 1/2, 1/4 give the same labels. *)
Lemma static_last_threshold_unused_witness :
  select_classes example_cdf
    (init 2 2 1410 0 None 2 false (WeightsStatic [(1 # 2)%Q; (1 # 2)%Q]))
    [(1 # 4)%Q; (3 # 4)%Q]
  = select_classes example_cdf
      (init 2 2 1410 0 None 2 false (WeightsStatic [(1 # 2)%Q; (1 # 4)%Q]))
      [(1 # 4)%Q; (3 # 4)%Q].
Proof.
  apply (static_last_threshold_unused example_cdf _ _ [(1 # 2)%Q]
           (1 # 2)%Q (1 # 4)%Q).
  - reflexivity.
  - reflexivity.
Defined.


(** X11 on a stream with one drift, with and without the flag. *)
Lemma single_drift_ignores_reocurring_witness :
  fst (fst (get_chunks example_cdf example_make_classification 2
              (init 1 2 1410 1 (Some 1%Q) 2 true WeightsNone) example_random))
  = fst (fst (get_chunks example_cdf example_make_classification 2
                (init 1 2 1410 1 (Some 1%Q) 2 false WeightsNone)
                example_random))
  /\ snd (get_chunks example_cdf example_make_classification 2
            (init 1 2 1410 1 (Some 1%Q) 2 true WeightsNone) example_random)
     = snd (get_chunks example_cdf example_make_classification 2
              (init 1 2 1410 1 (Some 1%Q) 2 false WeightsNone)
              example_random).
Proof.
  apply (single_drift_ignores_reocurring example_cdf
           example_make_classification 2
           (init 1 2 1410 1 (Some 1%Q) 2 false WeightsNone)
           (init 1 2 1410 1 (Some 1%Q) 2 true WeightsNone) example_random).
  - unfold agree_up_to_reocurring. simpl. auto 10.
  - reflexivity.
Defined.

(** X12 on the stream with two drifts: sample 2 lies in period 1 and is
    given concept 2. *)
Lemma concept_selector_adjacent_witness :
  0 <= period_of example_drifting 2 < 2
  /\ (2 = period_of example_drifting 2
      \/ 2 = period_of example_drifting 2 + 1).
Proof.
  apply (concept_selector_adjacent example_cdf example_drifting
           example_random [0; 1; 2; 2]
           (snd (select_concepts example_cdf example_drifting
                   example_random))).
  - vm_compute. reflexivity.
  - reflexivity.
  - vm_compute. discriminate.
  - vm_compute. reflexivity.
  - reflexivity.
Defined.

(** X13 with minus one drift. *)
Lemma negative_drifts_raise_witness :
  exists e g',
    get_chunk example_cdf example_make_classification
      (init 2 2 1410 (-1) None 2 false WeightsNone) example_random
    = (Raise e, g').
Proof.
  destruct (negative_drifts_raise example_cdf example_make_classification
              (init 2 2 1410 (-1) None 2 false WeightsNone))
    as [Hfirst _].
  - reflexivity.
  - vm_compute. reflexivity.
  - reflexivity.
  - apply Hfirst.
Defined.

(** X14 with minus one class. *)
Lemma negative_classes_raise_witness :
  exists e g',
    get_chunk example_cdf example_make_classification
      (init 2 2 1410 0 None (-1) false WeightsNone) example_random
    = (Raise e, g')
    /\ (0 < n_concepts (init 2 2 1410 0 None (-1) false WeightsNone) ->
        e = NegativeDimensions /\ g' = example_random).
Proof.
  destruct (negative_classes_raise example_cdf example_make_classification
              (init 2 2 1410 0 None (-1) false WeightsNone))
    as [Hfirst _].
  - reflexivity.
  - vm_compute. reflexivity.
  - apply Hfirst.
Defined.

(** X16 on the stationary stream: four samples of two features. *)
Lemma sample_assembly_witness :
  exists r self' g',
    get_chunk example_cdf example_make_classification example_stream
      example_random = (Ok (r, self'), g')
    /\ exists a,
         attrs self' = Some a
         /\ shape (X a) = [4%nat; 2%nat]
         /\ length (y a) = 4%nat
         /\ forall j phi, (j < 4)%nat -> (phi < 2)%nat ->
              exists l m,
                y a !! j = Some l
                /\ 0 <= l < 2
                /\ 0 <= concept_of a j < n_concepts example_stream
                /\ example_make_classification 4 2 (1410 + concept_of a j)
                     (one_hot 2 (Z.to_nat l)) = Ok m
                /\ item (X a) [j; phi] = item m [j; phi].
Proof.
  eexists _, _, _. split; [vm_compute; reflexivity|].
  eapply (sample_assembly example_cdf example_make_classification 2
            example_oracle_shape example_stream example_random).
  - reflexivity.
  - vm_compute. discriminate.
  - vm_compute. reflexivity.
  - right. repeat split; discriminate.
  - vm_compute. reflexivity.
Defined.

(** X17 on the first chunk of the stationary stream. *)
Lemma chunk_rows_witness :
  exists a id,
    attrs (snd (fst (example_run 2))) = Some a
    /\ 0 <= id < 2
    /\ shape (fst example_chunk) = [2%nat; 2%nat]
    /\ length (snd example_chunk) = 2%nat
    /\ forall r, (r < 2)%nat ->
         snd example_chunk !! r = y a !! (Z.to_nat (2 * id) + r)%nat
         /\ forall phi, (phi < 2)%nat ->
              item (fst example_chunk) [r; phi]
              = item (X a) [(Z.to_nat (2 * id) + r)%nat; phi].
Proof.
  apply (chunk_rows example_cdf example_make_classification 2
           example_oracle_shape 2 example_stream example_random
           (fst (fst (example_run 2))) (snd (fst (example_run 2)))
           (snd (example_run 2)) (fst example_chunk) (snd example_chunk)).
  - reflexivity.
  - vm_compute. discriminate.
  - vm_compute. reflexivity.
  - right. repeat split; discriminate.
  - apply (example_run_eq 2).
  - vm_compute. apply elem_of_cons. left. reflexivity.
Defined.

(** X18 on the two chunks of the stationary stream. *)
Lemma chunks_partition_labels_witness :
  exists a,
    attrs (snd (fst (example_run 2))) = Some a
    /\ concat (map labels_of (fst (fst (example_run 2)))) = y a.
Proof.
  apply (chunks_partition_labels example_cdf example_make_classification
           example_stream example_random
           (fst (fst (example_run 2))) (snd (fst (example_run 2)))
           (snd (example_run 2))).
  - reflexivity.
  - vm_compute. reflexivity.
  - apply (example_run_eq 2).
  - vm_compute. repeat constructor; eexists; reflexivity.
Defined.




Lemma example_stream_regular : regular example_stream 2.
Proof.
  unfold regular. split; [reflexivity|]. split; [vm_compute; discriminate|].
  split; [split; reflexivity|]. split; [exact I|]. split; [exact I|].
  right. repeat split; discriminate.
Qed.

Lemma default_stream_regular : regular default_stream 2.
Proof.
  unfold regular. split; [reflexivity|]. split; [vm_compute; discriminate|].
  split; [split; reflexivity|]. split; [exact I|]. split; [exact I|].
  right. repeat split; discriminate.
Qed.

